(** * media-poster-script: tool servers over a line protocol, the agent loop
      and the evaluation of question/answer tasks

    A shallow embedding of [scripts/connections.py], [scripts/tool_caller.py],
    [scripts/server_runner.py] and [scripts/evaluation.py].

    Conventions of the embedding.
    - A Python [str] is a [string]; a character is a code point below 256.
    - A Python [float] (wall-clock seconds, averages, a JSON number with a
      fraction) is a binary64 [float] of Rocq, with the rounding of its
      operations.  Integers that enter a float operation are converted by
      rounding to nearest ([float_of_int]).
    - A line on a pipe carries one JSON value: the request written by
      [json.dumps(..) + "\n"] is recorded as the value that was dumped, and a
      response line is recorded as what [json.loads] makes of it.
    - Operating-system effects (Popen, poll, terminate, wait, kill, pipe
      reads and writes, the clock) act on an explicit [World]; the calls made
      on a child are also appended to the world's trace.
    - The reasoning engine is an oracle held by the [Client]: what it answers
      to a conversation, by the number of the call.
    - The agent loop has no bound on its turns; its model takes a number of
      passes it may make ([fuel]) and ends in [MoreFuel] beyond it. *)

From Stdlib Require Import ZArith Ascii String List Lia Bool Floats.
From stdpp Require Import base option list gmap strings fin_maps.
From Equations Require Import Equations.
From Equations.Prop Require Import Logic.

Import ListNotations.
Set Warnings "-register-all".
Local Open Scope string_scope.
Local Open Scope list_scope.

(* ===================================================================== *)
(** ** Text: characters, whitespace, [str.strip] *)
(* ===================================================================== *)

Module Text.

Abbreviation chars := (list ascii).

Definition of_string (s : string) : chars := list_ascii_of_string s.
Definition to_string (l : chars) : string := string_of_list_ascii l.

(** [str.isspace] on one character, restricted to code points below 256:
    U+0009..U+000D, U+001C..U+0020, U+0085 and U+00A0. *)
Definition is_space (c : ascii) : bool :=
  let n := nat_of_ascii c in
  ((9 <=? n)%nat && (n <=? 13)%nat) || ((28 <=? n)%nat && (n <=? 32)%nat)
  || (n =? 133)%nat || (n =? 160)%nat.

Fixpoint lstrip (s : chars) : chars :=
  match s with
  | c :: s' => if is_space c then lstrip s' else s
  | [] => []
  end.

Definition rstrip (s : chars) : chars := rev (lstrip (rev s)).

(** [s.strip()] *)
Definition strip_chars (s : chars) : chars := rstrip (lstrip s).

Definition strip (s : string) : string := to_string (strip_chars (of_string s)).

End Text.

(* ===================================================================== *)
(** ** The fragment of [re] used by [extract_xml_content] *)
(* ===================================================================== *)

Module Re.
Import Text.

(** One pattern position that consumes exactly one character. *)
Inductive pat_char :=
| PLit (c : ascii)      (* an ordinary character matches itself *)
| PAny.                 (* [.] under [re.DOTALL] matches any character *)

Definition pat_char_matches (p : pat_char) (c : ascii) : bool :=
  match p with
  | PLit d => Ascii.eqb d c
  | PAny => true
  end.

(** The characters with a special meaning in a pattern. *)
Definition re_special (c : ascii) : bool :=
  existsb (Ascii.eqb c) (of_string ".^$*+?{}[]\|()").

(** A tag is interpolated into the pattern unescaped.  An ordinary character
    stands for itself and a dot for any character; a tag with another
    metacharacter builds a pattern outside the embedded fragment ([None]). *)
Definition compile_char (c : ascii) : option pat_char :=
  if Ascii.eqb c "."%char then Some PAny
  else if re_special c then None
  else Some (PLit c).

Definition compile_tag (tag : string) : option (list pat_char) :=
  mapM compile_char (of_string tag).

(** [<{tag}>] and [</{tag}>] *)
Definition open_pat (p : list pat_char) : list pat_char :=
  PLit "<"%char :: p ++ [PLit ">"%char].
Definition close_pat (p : list pat_char) : list pat_char :=
  PLit "<"%char :: PLit "/"%char :: p ++ [PLit ">"%char].

(** Match a sequence of one-character positions at the start of [s];
    the result is what follows the match. *)
Fixpoint match_prefix (p : list pat_char) (s : chars) : option chars :=
  match p with
  | [] => Some s
  | q :: p' =>
      match s with
      | c :: s' => if pat_char_matches q c then match_prefix p' s' else None
      | [] => None
      end
  end.

(** The lazy group [(.*?)] followed by [close]: the group grows one
    character at a time until [close] matches. *)
Fixpoint lazy_until (close : list pat_char) (s : chars) : option (chars * chars) :=
  match match_prefix close s with
  | Some rest => Some ([], rest)
  | None =>
      match s with
      | [] => None
      | c :: s' =>
          match lazy_until close s' with
          | Some (g, rest) => Some (c :: g, rest)
          | None => None
          end
      end
  end.

(** One attempt of [open (.*?) close] at the start of [s]:
    the group and the text after the match. *)
Definition match_at (open close : list pat_char) (s : chars) : option (chars * chars) :=
  match match_prefix open s with
  | Some r => lazy_until close r
  | None => None
  end.

Lemma match_prefix_length p s rest :
  match_prefix p s = Some rest -> length s = length p + length rest.
Proof.
  revert s; induction p as [|q p IH]; intros s H; simpl in *.
  - by inversion H.
  - destruct s as [|c s]; [done|].
    destruct (pat_char_matches q c); [|done].
    apply IH in H. simpl. lia.
Qed.

Lemma lazy_until_length close s g rest :
  lazy_until close s = Some (g, rest) ->
  length s = length g + length close + length rest.
Proof.
  revert g rest; induction s as [|c s IH]; intros g rest H; simpl in H.
  - destruct (match_prefix close []) eqn:E; [|done].
    inversion H; subst. apply match_prefix_length in E. simpl in *. lia.
  - destruct (match_prefix close (c :: s)) eqn:E.
    + inversion H; subst. apply match_prefix_length in E. simpl in *. lia.
    + destruct (lazy_until close s) as [[g' r']|] eqn:E'; [|done].
      inversion H; subst. specialize (IH _ _ eq_refl). simpl. lia.
Qed.

Lemma match_at_shorter open close s g rest :
  open <> [] -> match_at open close s = Some (g, rest) -> length rest < length s.
Proof.
  unfold match_at. intros Hne H.
  destruct (match_prefix open s) as [r|] eqn:E; [|done].
  apply match_prefix_length in E. apply lazy_until_length in H.
  destruct open; [done|]. simpl in *. lia.
Qed.

(** [re.findall(rf"<{tag}>(.*?)</{tag}>", s, re.DOTALL)] for the compiled
    tag [p]: the groups of the non-overlapping matches, scanning from left to
    right.  After a match the scan resumes where the match ended; otherwise
    one character further. *)
Equations? findall (p : list pat_char) (s : chars) : list chars
  by wf (length s) lt :=
findall p [] := [];
findall p (c :: s') with inspect (match_at (open_pat p) (close_pat p) (c :: s')) := {
  | exist _ (Some (g, rest)) E => g :: findall p rest
  | exist _ None E => findall p s'
}.
Proof.
  apply match_at_shorter in E; [simpl in E; lia | done].
Qed.

(** [u] is a text that the one-character positions [p] match. *)
Definition pmatch (p : list pat_char) (u : chars) : Prop :=
  Forall2 (fun q c => pat_char_matches q c = true) p u.

(** Somewhere in [s] an opening tag is followed, at any distance, by a
    closing tag. *)
Definition occurs (p : list pat_char) (s : chars) : Prop :=
  exists a o b c r,
    s = a ++ o ++ b ++ c ++ r /\ pmatch (open_pat p) o /\ pmatch (close_pat p) c.

(** [o] occurs in [s] as a run of consecutive characters. *)
Fixpoint has_infix (o s : chars) : bool :=
  match match_prefix (map PLit o) s with
  | Some _ => true
  | None =>
      match s with
      | [] => false
      | _ :: s' => has_infix o s'
      end
  end.

End Re.

(* ===================================================================== *)
(** ** Elements of a text, in the words of the specification *)
(* ===================================================================== *)

(** The specification speaks of the occurrences of a tag in a text, found
    from left to right without overlap, each running from an opening tag to
    the nearest closing tag after it, and of content trimmed of its outer
    white space.  These definitions say so for an opening tag [o] and a
    closing tag [c]; nothing of the scan of [re] is used. *)
Module ExtractSpec.
Import Text.

(** The first element of [s]: it starts where the leftmost element of [s]
    starts, after [pre]; its content [m] ends at the nearest closing tag;
    [rest] is what follows that closing tag. *)
Definition first_element (o c s pre m rest : chars) : Prop :=
  s = pre ++ o ++ m ++ c ++ rest /\
  (forall pre' m' rest', s = pre' ++ o ++ m' ++ c ++ rest' -> length pre <= length pre') /\
  (forall m' rest', m ++ c ++ rest = m' ++ c ++ rest' -> length m <= length m').

(** The contents of the elements of [s], from left to right, each one sought
    in what follows the one before. *)
Inductive occurrences (o c : chars) : chars -> list chars -> Prop :=
| occurrences_none s :
    (forall pre m rest, s <> pre ++ o ++ m ++ c ++ rest) ->
    occurrences o c s []
| occurrences_next s pre m rest ms :
    first_element o c s pre m rest ->
    occurrences o c rest ms ->
    occurrences o c s (m :: ms).

(** [v] is [m] without its outer white space. *)
Definition trimmed (m v : chars) : Prop :=
  exists l r,
    m = l ++ v ++ r /\
    Forall (fun x => is_space x = true) l /\
    Forall (fun x => is_space x = true) r /\
    (forall x, head v = Some x -> is_space x = false) /\
    (forall x, last v = Some x -> is_space x = false).

End ExtractSpec.

(* ===================================================================== *)
(** ** JSON values and Python exceptions *)
(* ===================================================================== *)

(** What [json.loads] returns.  A [JDict] lists the items of a Python dict in
    insertion order; its keys are pairwise distinct. *)
Inductive json :=
| JNull
| JBool (b : bool)
| JInt (z : Z)
| JFloat (x : float)
| JStr (s : string)
| JList (l : list json)
| JDict (items : list (string * json)).

(** [d[key]] on the items of a dict; [None] when [key not in d]. *)
Fixpoint dict_get (key : string) (items : list (string * json)) : option json :=
  match items with
  | [] => None
  | (k, v) :: rest => if String.eqb k key then Some v else dict_get key rest
  end.

(** [isinstance(v, (dict, list))] *)
Definition is_container (v : json) : bool :=
  match v with
  | JList _ | JDict _ => true
  | _ => false
  end.

(** The exceptions the scripts raise or meet.  The argument of
    [RuntimeError] is the object it was built from, so that [str(e)] is the
    [str] of that object. *)
Inductive exn :=
| RuntimeError (arg : json)
| ValueError (msg : string)
| TypeError (msg : string)
| JSONDecodeError
| BrokenPipeError
| OSError (msg : string)
| TimeoutExpired
| ZeroDivisionError
| NameError (name : string)
| OtherException (name msg : string)
| KeyboardInterrupt
| SystemExit.

(** [isinstance(e, Exception)]: what [except Exception] catches. *)
Definition is_Exception (e : exn) : bool :=
  match e with
  | KeyboardInterrupt | SystemExit => false
  | _ => true
  end.

(** How a call ends. *)
Inductive outcome (A : Type) : Type :=
| Ret (a : A)        (* returns [a] *)
| Raise (e : exn)    (* raises [e] *)
| Hang               (* blocks for ever in a system call *)
| MoreFuel.          (* a loop was cut short by the fuel of the model *)
Arguments Ret {A} a.
Arguments Raise {A} e.
Arguments Hang {A}.
Arguments MoreFuel {A}.

(** Computations over a state [S] that may raise. The state survives a raise,
    as the fields of a Python object do. *)
Definition M (S A : Type) : Type := S -> outcome A * S.

Definition ret {S A} (a : A) : M S A := fun s => (Ret a, s).
Definition raise {S A} (e : exn) : M S A := fun s => (Raise e, s).
Definition bind {S A B} (m : M S A) (k : A -> M S B) : M S B :=
  fun s =>
    match m s with
    | (Ret a, s') => k a s'
    | (Raise e, s') => (Raise e, s')
    | (Hang, s') => (Hang, s')
    | (MoreFuel, s') => (MoreFuel, s')
    end.
Definition gets {S A} (f : S -> A) : M S A := fun s => (Ret (f s), s).
Definition modify {S} (f : S -> S) : M S unit := fun s => (Ret tt, f s).

(** Run a computation on the second component of the state. *)
Definition on_snd {S1 S2 A} (m : M S2 A) : M (S1 * S2) A :=
  fun '(s1, s2) => let '(r, s2') := m s2 in (r, (s1, s2')).
Definition on_fst {S1 S2 A} (m : M S1 A) : M (S1 * S2) A :=
  fun '(s1, s2) => let '(r, s1') := m s1 in (r, (s1', s2)).

Declare Scope py_scope.
Delimit Scope py_scope with py.
Notation "'let*' x ':=' m 'in' k" := (bind m (fun x => k))
  (at level 10, x pattern, m at level 100, k at level 200) : py_scope.
Notation "'run' m 'in' k" := (bind m (fun _ => k))
  (at level 10, m at level 100, k at level 200) : py_scope.
Local Open Scope py_scope.

(* ===================================================================== *)
(** ** The reasoning engine's messages (the [anthropic] client) *)
(* ===================================================================== *)

Inductive block :=
| TextBlock (text : string)
| ToolUseBlock (id name : string) (input : json)
| OtherBlock (type : string).      (* no [text] attribute, type not tool_use *)

Record response := {
  content : list block;
  stop_reason : string;
}.

Inductive message_content :=
| CText (s : string)
| CBlocks (bs : list block)
| CToolResult (tool_use_id : string) (body : string).

Record message := {
  role : string;
  mcontent : message_content;
}.

(** The [Anthropic] client: what the engine answers to a conversation, by the
    number of the call, and how many calls were made. *)
Record Client := {
  engine : nat -> list message -> outcome response;
  engine_calls : nat;
}.

(** [await asyncio.to_thread(client.messages.create, model=model,
    max_tokens=4096, system=EVALUATION_PROMPT, messages=msgs, tools=tools)] *)
Definition messages_create (msgs : list message) : M Client response :=
  fun c =>
    (engine c (engine_calls c) msgs,
     {| engine := engine c; engine_calls := S (engine_calls c) |}).

(* ===================================================================== *)
(** ** The operating system: child processes, pipes, the clock *)
(* ===================================================================== *)

Module OS.

(** What [stdout.readline()] followed by [json.loads] meets. *)
Inductive line :=
| Silent                 (* the child never writes: [readline] blocks *)
| Undecodable            (* empty line at end of stream, or not JSON *)
| Value (j : json).      (* one line holding the JSON value [j] *)

(** A tool server, seen from its pipes: the line it prints after reading the
    requests so far (oldest first), and whether it exits within the grace
    period once it is sent the termination signal. *)
Record program := {
  reply : list json -> line;
  exits_on_sigterm : bool;
}.

Inductive status :=
| Running
| Exited (returncode : Z).

Record process := {
  argv : list string;
  environ : gmap string string;
  cwd : option string;
  prog : program;
  state : status;
  stdin_log : list json;     (* requests written to the child, oldest first *)
}.

Inductive event :=
| EvPopen (pid : nat)
| EvWrite (pid : nat) (request : json)
| EvReadline (pid : nat)
| EvTerminate (pid : nat)
| EvWait (pid : nat) (timeout : option Z)
| EvKill (pid : nat).

Record World := {
  procs : list process;            (* a Popen handle is an index here *)
  os_environ : gmap string string;
  exec : list string -> gmap string string -> option string -> option program;
                                   (* [None]: Popen raises *)
  clock : nat -> float;            (* successive readings of [time.time()] *)
  ticks : nat;
  trace : list event;
}.

Definition set_procs (ps : list process) (w : World) : World :=
  {| procs := ps; os_environ := os_environ w; exec := exec w; clock := clock w;
     ticks := ticks w; trace := trace w |}.
Definition log (e : event) (w : World) : World :=
  {| procs := procs w; os_environ := os_environ w; exec := exec w; clock := clock w;
     ticks := ticks w; trace := trace w ++ [e] |}.
Definition set_state (st : status) (p : process) : process :=
  {| argv := argv p; environ := environ p; cwd := cwd p; prog := prog p;
     state := st; stdin_log := stdin_log p |}.
Definition push_stdin (j : json) (p : process) : process :=
  {| argv := argv p; environ := environ p; cwd := cwd p; prog := prog p;
     state := state p; stdin_log := stdin_log p ++ [j] |}.

(** The status of a handle.  Handles are made by [Popen] only, so the lookup
    succeeds; a handle of no process counts as exited. *)
Definition status_of (w : World) (pid : nat) : status :=
  match procs w !! pid with
  | Some p => state p
  | None => Exited 0
  end.

Definition alive (w : World) (pid : nat) : bool :=
  match status_of w pid with
  | Running => true
  | Exited _ => false
  end.

(** Whether the child behind a handle exits within the grace period once it
    is sent the termination signal. *)
Definition honours_sigterm (w : World) (pid : nat) : bool :=
  match procs w !! pid with
  | Some p => exits_on_sigterm (prog p)
  | None => false
  end.

(** The world once a child running [pr] has been started: the child takes
    the next handle, runs, and has read nothing yet. *)
Definition spawn (av : list string) (env : gmap string string) (wd : option string)
    (pr : program) (w : World) : World :=
  let p := {| argv := av; environ := env; cwd := wd; prog := pr;
              state := Running; stdin_log := [] |} in
  log (EvPopen (length (procs w))) (set_procs (procs w ++ [p]) w).

(** [subprocess.Popen(argv, stdin=PIPE, stdout=PIPE, stderr=PIPE, text=True,
    env=env, cwd=cwd)] *)
Definition Popen (av : list string) (env : gmap string string) (wd : option string)
  : M World nat :=
  fun w =>
    match exec w av env wd with
    | Some pr => (Ret (length (procs w)), spawn av env wd pr w)
    | None => (Raise (OSError "Popen"), w)
    end.

(** [p.poll()]: [None] while the child runs, else its return code. *)
Definition poll (pid : nat) : M World (option Z) :=
  fun w =>
    match status_of w pid with
    | Running => (Ret None, w)
    | Exited rc => (Ret (Some rc), w)
    end.

Definition update_proc (pid : nat) (f : process -> process) (w : World) : World :=
  match procs w !! pid with
  | Some p => set_procs (<[pid := f p]> (procs w)) w
  | None => w
  end.

(** [p.terminate()]: a running child that honours the signal exits. *)
Definition terminate (pid : nat) : M World unit :=
  fun w =>
    let w1 := log (EvTerminate pid) w in
    match procs w !! pid with
    | Some p =>
        match state p with
        | Running =>
            if exits_on_sigterm (prog p)
            then (Ret tt, update_proc pid (set_state (Exited (-15))) w1)
            else (Ret tt, w1)
        | Exited _ => (Ret tt, w1)
        end
    | None => (Ret tt, w1)
    end.

(** [p.kill()] *)
Definition kill (pid : nat) : M World unit :=
  fun w =>
    let w1 := log (EvKill pid) w in
    match status_of w pid with
    | Running => (Ret tt, update_proc pid (set_state (Exited (-9))) w1)
    | Exited _ => (Ret tt, w1)
    end.

(** [p.wait(timeout)]: returns the code of an exited child; on a child that
    still runs it raises [TimeoutExpired] when the timeout elapses and blocks
    when there is none. *)
Definition wait (pid : nat) (timeout : option Z) : M World Z :=
  fun w =>
    let w1 := log (EvWait pid timeout) w in
    match status_of w pid with
    | Exited rc => (Ret rc, w1)
    | Running =>
        match timeout with
        | Some _ => (Raise TimeoutExpired, w1)
        | None => (Hang, w1)
        end
    end.

(** [p.stdin.write(json.dumps(request) + "\n"); p.stdin.flush()] *)
Definition write_line (pid : nat) (request : json) : M World unit :=
  fun w =>
    match status_of w pid with
    | Running => (Ret tt, log (EvWrite pid request) (update_proc pid (push_stdin request) w))
    | Exited _ => (Raise BrokenPipeError, w)
    end.

(** [json.loads] on what [readline] meets. *)
Definition loads (l : line) : outcome json :=
  match l with
  | Value j => Ret j
  | Undecodable => Raise JSONDecodeError
  | Silent => Hang
  end.

(** [json.loads(p.stdout.readline())]: a running child answers the requests
    it has read; the pipe of a child that has exited is at its end. *)
Definition read_json (pid : nat) : M World json :=
  fun w =>
    let w1 := log (EvReadline pid) w in
    match procs w !! pid with
    | Some p =>
        match state p with
        | Running => (loads (reply (prog p) (stdin_log p)), w1)
        | Exited _ => (Raise JSONDecodeError, w1)
        end
    | None => (Raise JSONDecodeError, w1)
    end.

(** The world after one request has been written to the child [pid] and one
    line has been read back. *)
Definition exchanged (pid : nat) (request : json) (w : World) : World :=
  log (EvReadline pid) (log (EvWrite pid request) (update_proc pid (push_stdin request) w)).

(** The world once the clock has been read. *)
Definition tick (w : World) : World :=
  {| procs := procs w; os_environ := os_environ w; exec := exec w; clock := clock w;
     ticks := S (ticks w); trace := trace w |}.

(** [time.time()] *)
Definition time : M World float :=
  fun w => (Ret (clock w (ticks w)), tick w).

(** [env = os.environ.copy(); env.update(overrides)] *)
Definition merged_env (overrides : gmap string string) (w : World) : gmap string string :=
  overrides ∪ os_environ w.

End OS.

Import OS.

(** [try: m  except <classes>: h e], for the exceptions that [catches] selects. *)
Definition try_catch {S A} (catches : exn -> bool) (m : M S A) (h : exn -> M S A) : M S A :=
  fun s =>
    match m s with
    | (Raise e, s') => if catches e then h e s' else (Raise e, s')
    | r => r
    end.

(** [try: m  finally: f] *)
Definition try_finally {S A} (m : M S A) (f : M S unit) : M S A :=
  fun s =>
    match m s with
    | (Ret a, s') =>
        match f s' with
        | (Ret _, s'') => (Ret a, s'')
        | (Raise e, s'') => (Raise e, s'')
        | (Hang, s'') => (Hang, s'')
        | (MoreFuel, s'') => (MoreFuel, s'')
        end
    | (Raise e, s') =>
        match f s' with
        | (Ret _, s'') => (Raise e, s'')
        | (Raise e', s'') => (Raise e', s'')
        | (Hang, s'') => (Hang, s'')
        | (MoreFuel, s'') => (MoreFuel, s'')
        end
    | r => r
    end.

Definition is_TimeoutExpired (e : exn) : bool :=
  match e with
  | TimeoutExpired => true
  | _ => false
  end.

(** The teardown that [StdioConnection.stop], [ToolCaller.stop] and the
    [finally] of [ServerRunner.run] spell out in the same words, on the
    handle [self._process]:
<<
    if self._process and self._process.poll() is None:
        self._process.terminate()
        try:
            self._process.wait(timeout=5)
        except subprocess.TimeoutExpired:
            self._process.kill()
            self._process.wait()
>>
    A Popen object is truthy, so [self._process and ..] tests for [None]. *)
Definition stop_process (handle : option nat) : M World unit :=
  match handle with
  | None => ret tt
  | Some pid =>
      let* rc := poll pid in
      match rc with
      | None =>
          run terminate pid in
          try_catch is_TimeoutExpired
            (let* _ := wait pid (Some 5%Z) in ret tt)
            (fun _ => run kill pid in let* _ := wait pid None in ret tt)
      | Some _ => ret tt
      end
  end.

(** What the teardown is to do to the world [w], case by case: nothing
    without a handle or on a child that has exited; on a running child the
    termination signal and a wait of 5 seconds, then, if the child does not
    honour the signal, the kill and a wait without timeout.  The child has
    exited afterwards and every other process is as it was. *)
Definition after_stop (w : World) (handle : option nat) (w' : World) : Prop :=
  match handle with
  | None => w' = w
  | Some pid =>
      alive w' pid = false /\
      (forall pid', pid' <> pid -> status_of w' pid' = status_of w pid') /\
      length (procs w') = length (procs w) /\
      if alive w pid then
        if honours_sigterm w pid
        then trace w' = trace w ++ [EvTerminate pid; EvWait pid (Some 5%Z)]
        else trace w' = trace w ++ [EvTerminate pid; EvWait pid (Some 5%Z);
                                    EvKill pid; EvWait pid None]
      else w' = w
  end.

(** The requests of the line protocol. *)
Definition list_tools_request : json := JDict [("action", JStr "list_tools")].
Definition call_tool_request (tool_name : string) (args : json) : json :=
  JDict [("tool", JStr tool_name); ("args", args)].

(** [result["error"]] when [isinstance(result, dict) and "error" in result]. *)
Definition error_of (result : json) : option json :=
  match result with
  | JDict items => dict_get "error" items
  | _ => None
  end.

(** [if isinstance(result, dict) and "error" in result:
        raise RuntimeError(result["error"])
    return result] *)
Definition raise_on_error {S} (result : json) : M S json :=
  match error_of result with
  | Some v => raise (RuntimeError v)
  | None => ret result
  end.

(** [None.stdin]: the attribute access on a missing handle. *)
Definition no_handle : exn :=
  OtherException "AttributeError" "'NoneType' object has no attribute 'stdin'".

(** The interface of [ConnectionBase]: what the agent loop asks of a tool
    caller. *)
Class ConnectionBase (T : Type) := {
  list_tools : M (T * World) json;
  call_tool : string -> json -> M (T * World) json;
}.

(* ===================================================================== *)
(** ** connections.py: [StdioConnection] *)
(* ===================================================================== *)

Module StdioConnection.

Record t := {
  command : string;
  args : list string;
  env : gmap string string;
  working_dir : option string;
  _process : option nat;
}.

Definition __init__ (command : string) (args : option (list string))
    (env : option (gmap string string)) (working_dir : option string) : t :=
  {| command := command; args := default [] args; env := default ∅ env;
     working_dir := working_dir; _process := None |}.

Definition set_process (h : option nat) (self : t) : t :=
  {| command := command self; args := args self; env := env self;
     working_dir := working_dir self; _process := h |}.

Definition _ensure_running : M (t * World) unit :=
  let* self := gets fst in
  let* start :=
    match _process self with
    | None => ret true
    | Some pid => let* rc := on_snd (poll pid) in ret (bool_decide (rc <> None))
    end in
  if start : bool then
    let* w := gets snd in
    let env := merged_env (env self) w in
    let* pid := on_snd (Popen (command self :: args self) env (working_dir self)) in
    modify (fun '(self, w) => (set_process (Some pid) self, w))
  else ret tt.

(** Write one request to the child held by [self._process], read one line. *)
Definition exchange (request : json) : M (t * World) json :=
  let* self := gets fst in
  match _process self with
  | Some pid =>
      run on_snd (write_line pid request) in
      on_snd (read_json pid)
  | None => raise no_handle
  end.

Definition list_tools : M (t * World) json :=
  run _ensure_running in
  exchange list_tools_request.

Definition call_tool (tool_name : string) (arguments : json) : M (t * World) json :=
  run _ensure_running in
  let* result := exchange (call_tool_request tool_name arguments) in
  raise_on_error result.

Definition stop : M (t * World) unit :=
  let* self := gets fst in
  run on_snd (stop_process (_process self)) in
  modify (fun '(self, w) => (set_process None self, w)).

End StdioConnection.

#[export] Instance StdioConnection_ConnectionBase : ConnectionBase StdioConnection.t := {|
  list_tools := StdioConnection.list_tools;
  call_tool := StdioConnection.call_tool;
|}.

(** The life of one [StdioConnection]: the calls a client may make on it, in
    any order, while its children may exit by themselves at any time. *)
Module Channel.
Import StdioConnection.

Inductive op :=
| EnsureRunning
| ListTools
| CallTool (tool_name : string) (arguments : json)
| Stop.

(** The connection and the world after a call, whatever it returned. *)
Definition after (o : op) (s : t * World) : t * World :=
  match o with
  | EnsureRunning => (_ensure_running s).2
  | ListTools => (list_tools s).2
  | CallTool tool_name arguments => (call_tool tool_name arguments s).2
  | Stop => (stop s).2
  end.

(** A running child exits with code [rc]. *)
Definition child_exits (pid : nat) (rc : Z) (w : World) : World :=
  update_proc pid
    (fun p => match state p with
              | Running => set_state (Exited rc) p
              | Exited _ => p
              end) w.


(** The children of the connection that run: the processes started since
    [w0] that have not exited. *)
Definition live_children (w0 w : World) : list nat :=
  filter (fun pid => alive w pid = true)
         (seq (length (procs w0)) (length (procs w) - length (procs w0))).

(** Whether [_ensure_running] finds no running child. *)
Definition needs_start (self : t) (w : World) : bool :=
  match _process self with
  | None => true
  | Some pid => negb (alive w pid)
  end.

End Channel.

(* ===================================================================== *)
(** ** tool_caller.py: [ToolCaller] *)
(* ===================================================================== *)

Module ToolCaller.

Record t := {
  server_command : string;
  server_args : list string;
  _process : option nat;
}.

Definition __init__ (server_command : string) (server_args : option (list string)) : t :=
  {| server_command := server_command; server_args := default [] server_args;
     _process := None |}.

Definition set_process (h : option nat) (self : t) : t :=
  {| server_command := server_command self; server_args := server_args self;
     _process := h |}.

(** No [env] and no [cwd] are passed: the child inherits both. *)
Definition start : M (t * World) unit :=
  let* self := gets fst in
  let* w := gets snd in
  let* pid := on_snd (Popen (server_command self :: server_args self) (os_environ w) None) in
  modify (fun '(self, w) => (set_process (Some pid) self, w)).

Definition stop : M (t * World) unit :=
  let* self := gets fst in
  run on_snd (stop_process (_process self)) in
  modify (fun '(self, w) => (set_process None self, w)).

Definition exchange (request : json) : M (t * World) json :=
  let* self := gets fst in
  match _process self with
  | None => raise (RuntimeError (JStr "Server not running. Call start() first."))
  | Some pid =>
      run on_snd (write_line pid request) in
      on_snd (read_json pid)
  end.

Definition call_tool (tool_name : string) (args : json) : M (t * World) json :=
  exchange (call_tool_request tool_name args).

Definition list_tools : M (t * World) json :=
  exchange list_tools_request.

End ToolCaller.

#[export] Instance ToolCaller_ConnectionBase : ConnectionBase ToolCaller.t := {|
  list_tools := ToolCaller.list_tools;
  call_tool := ToolCaller.call_tool;
|}.

(* ===================================================================== *)
(** ** server_runner.py: [ServerRunner] *)
(* ===================================================================== *)

Module ServerRunner.

Record t := {
  command : string;
  args : list string;
  env : gmap string string;
  working_dir : option string;
  _process : option nat;
}.

Definition __init__ (command : string) (args : option (list string))
    (env : option (gmap string string)) (working_dir : option string) : t :=
  {| command := command; args := default [] args; env := default ∅ env;
     working_dir := working_dir; _process := None |}.

Definition set_process (h : option nat) (self : t) : t :=
  {| command := command self; args := args self; env := env self;
     working_dir := working_dir self; _process := h |}.

(** The statements of [run] up to the [yield]. *)
Definition run_enter : M (t * World) nat :=
  let* self := gets fst in
  let* w := gets snd in
  let env := merged_env (env self) w in
  let* pid := on_snd (Popen (command self :: args self) env (working_dir self)) in
  run modify (fun '(self, w) => (set_process (Some pid) self, w)) in
  ret pid.

(** The [finally] block of [run]. *)
Definition run_exit : M (t * World) unit :=
  let* self := gets fst in
  run on_snd (stop_process (_process self)) in
  modify (fun '(self, w) => (set_process None self, w)).

(** [with self.run() as process: body process] *)
Definition with_run {A} (body : nat -> M (t * World) A) : M (t * World) A :=
  try_finally (let* pid := run_enter in body pid) run_exit.

Definition send_tool_call (tool_name : string) (args : json) : M (t * World) json :=
  let* self := gets fst in
  match _process self with
  | None => raise (RuntimeError (JStr "Server process not running"))
  | Some pid =>
      run on_snd (write_line pid (call_tool_request tool_name args)) in
      on_snd (read_json pid)
  end.

End ServerRunner.

(* ===================================================================== *)
(** ** evaluation.py *)
(* ===================================================================== *)

Module Evaluation.
Import Text Re.

(** [pattern = rf"<{tag}>(.*?)</{tag}>"; matches = re.findall(pattern, text,
    re.DOTALL); return matches[-1].strip() if matches else None].
    The outer [None] marks a tag whose pattern is outside the embedded
    fragment of [re]; inside, [None] is Python's [None]. *)
Definition extract_xml_content (text tag : string) : option (option string) :=
  match compile_tag tag with
  | Some p =>
      let matches := findall p (of_string text) in
      Some (match last matches with
            | Some m => Some (to_string (strip_chars m))
            | None => None
            end)
  | None => None
  end.

(** A tag name without regex metacharacters, as ["response"] and
    ["summary"], the two tags the evaluator asks for. *)
Definition literal_tag (tag : string) : Prop :=
  Forall (fun c => re_special c = false) (of_string tag).

(** The element [<tag>..</tag>] occurs in [text]. *)
Definition tag_occurs (text tag : string) : Prop :=
  exists a b c : string,
    text = (a ++ ("<" ++ tag ++ ">") ++ b ++ ("</" ++ tag ++ ">") ++ c)%string.

(** [ScriptBasedToolCaller] *)
Module ScriptBasedToolCaller.

Record t := {
  command : string;
  args : list string;
  env : gmap string string;
  _process : option nat;
}.

Definition __init__ (command : string) (args : option (list string))
    (env : option (gmap string string)) : t :=
  {| command := command; args := default [] args; env := default ∅ env;
     _process := None |}.

Definition set_process (h : option nat) (self : t) : t :=
  {| command := command self; args := args self; env := env self; _process := h |}.

(** evaluation.py does not import [subprocess].  In [start] the environment
    is built first; then the name [subprocess] of [subprocess.Popen(..)] is
    looked up and [NameError] is raised, before any process is started and
    before [self._process] is assigned. *)
Definition start : M (t * World) unit :=
  let* self := gets fst in
  let* w := gets snd in
  let env := merged_env (env self) w in
  raise (NameError "subprocess").

(** [try: m  except subprocess.TimeoutExpired: ..] where the name
    [subprocess] is unbound: when [m] raises, the expression of the clause
    is evaluated to compare the exception with it, and that raises
    [NameError] in place of the exception; the handler never runs. *)
Definition try_except_unbound {S A} (name : string) (m : M S A) : M S A :=
  fun s =>
    match m s with
    | (Raise _, s') => (Raise (NameError name), s')
    | r => r
    end.

(** The teardown of [stop]: the words of [stop_process], in a module where
    [subprocess] is unbound. *)
Definition teardown (handle : option nat) : M World unit :=
  match handle with
  | None => ret tt
  | Some pid =>
      let* rc := poll pid in
      match rc with
      | None =>
          run terminate pid in
          try_except_unbound "subprocess" (let* _ := wait pid (Some 5%Z) in ret tt)
      | Some _ => ret tt
      end
  end.

Definition stop : M (t * World) unit :=
  let* self := gets fst in
  run on_snd (teardown (_process self)) in
  modify (fun '(self, w) => (set_process None self, w)).

Definition exchange (request : json) : M (t * World) json :=
  let* self := gets fst in
  match _process self with
  | None => raise (RuntimeError (JStr "Server not running"))
  | Some pid =>
      run on_snd (write_line pid request) in
      on_snd (read_json pid)
  end.

Definition list_tools : M (t * World) json :=
  exchange list_tools_request.

Definition call_tool (tool_name : string) (args : json) : M (t * World) json :=
  let* result := exchange (call_tool_request tool_name args) in
  raise_on_error result.

(** The [try] statement of [main] around the evaluation [body], for this
    tool caller, which has [start] and [stop]:
<<
    try:
        tool_caller.start()
        body
    finally:
        tool_caller.stop()
>> *)
Definition main_try {A} (body : M (t * World) A) : M (t * World) A :=
  try_finally (run start in body) stop.

End ScriptBasedToolCaller.

#[export] Instance ScriptBasedToolCaller_ConnectionBase
  : ConnectionBase ScriptBasedToolCaller.t := {|
  list_tools := ScriptBasedToolCaller.list_tools;
  call_tool := ScriptBasedToolCaller.call_tool;
|}.

(** One entry of [tool_metrics]: [{"count": int, "durations": [float]}]. *)
Record metrics := {
  count : Z;
  durations : list float;
}.

(** Every tool in the metrics was called at least once, and its count is the
    number of its recorded durations. *)
Definition metrics_ok (tm : gmap string metrics) : Prop :=
  forall tool_name m,
    tm !! tool_name = Some m ->
    count m = Z.of_nat (length (durations m)) /\ 1 <= length (durations m).

(** The calls the loop makes, in order (ghost state: the source keeps no
    such list). *)
Inductive loop_event :=
| CallTool (tool_name : string) (tool_input : json)
| Create (messages : list message).

(** The local variables of [agent_loop]. *)
Record loop_state := {
  messages : list message;
  last_response : response;
  tool_metrics : gmap string metrics;
  events : list loop_event;
}.

Record task_result := {
  question : string;
  expected : string;
  actual : option string;
  score : Z;
  total_duration : float;
  tool_calls : gmap string metrics;
  num_tool_calls : nat;
  summary : option string;
}.

Record report := {
  correct : Z;
  total : nat;
  accuracy : float;
  average_duration_s : float;
  average_tool_calls : float;
  total_tool_calls : nat;
  results : list task_result;
}.

(** [next(block for block in content if block.type == "tool_use")] *)
Fixpoint next_tool_use (bs : list block) : option (string * string * json) :=
  match bs with
  | [] => None
  | ToolUseBlock id name input :: _ => Some (id, name, input)
  | _ :: rest => next_tool_use rest
  end.

(** [block.type == "tool_use"] *)
Definition is_tool_use (b : block) : bool :=
  match b with
  | ToolUseBlock _ _ _ => true
  | _ => false
  end.

(** [next((block.text for block in content if hasattr(block, "text")), None)] *)
Fixpoint next_text (bs : list block) : option string :=
  match bs with
  | [] => None
  | TextBlock text :: _ => Some text
  | _ :: rest => next_text rest
  end.

(** The three statements that update [tool_metrics] after a call. *)
Definition record_call (tool_name : string) (tool_duration : float)
    (tm : gmap string metrics) : gmap string metrics :=
  let tm1 :=
    match tm !! tool_name with
    | None => <[tool_name := {| count := 0; durations := [] |}]> tm
    | Some _ => tm
    end in
  alter (fun m => {| count := count m + 1;
                     durations := durations m ++ [tool_duration] |}) tool_name tm1.

(** [sum(len(metrics["durations"]) for metrics in tool_metrics.values())] *)
Definition sum_durations (tm : gmap string metrics) : nat :=
  map_fold (fun _ m acc => length (durations m) + acc) 0 tm.

(** [int(response_value == answer) if response_value else 0] *)
Definition compute_score (response_value : option string) (answer : string) : Z :=
  match response_value with
  | Some v =>
      if bool_decide (v = "") then 0%Z
      else if bool_decide (v = answer) then 1%Z else 0%Z
  | None => 0%Z
  end.

(** The dict that [evaluate_single_task] returns, from the text of the final
    response. ["response"] and ["summary"] compile, so the default is not
    taken. *)
Definition make_task_result (qa_pair : string * string) (response : string)
    (tm : gmap string metrics) (duration_seconds : float) : task_result :=
  let response_value := default None (extract_xml_content response "response") in
  let summary := default None (extract_xml_content response "summary") in
  {| question := qa_pair.1;
     expected := qa_pair.2;
     actual := response_value;
     score := compute_score response_value qa_pair.2;
     total_duration := duration_seconds;
     tool_calls := tm;
     num_tool_calls := sum_durations tm;
     summary := summary |}.

(** [float(z)] for an integer: the nearest binary64 number, ties to even. *)
Definition float_of_int (z : Z) : float :=
  SF2Prim (binary_normalize prec emax z 0 false).

(** [a / b] on two integers: [ZeroDivisionError] on a zero divisor, else the
    binary64 number nearest to the quotient.  For operands up to 2^53 in
    magnitude, as counts of tasks and of tool calls are, this is the
    quotient of the two converted operands. *)
Definition int_truediv {S} (a b : Z) : M S float :=
  if (b =? 0)%Z then raise ZeroDivisionError
  else ret (float_of_int a / float_of_int b)%float.

(** [x / b] on a float and an integer: the integer is converted first. *)
Definition float_truediv {S} (x : float) (b : Z) : M S float :=
  if (b =? 0)%Z then raise ZeroDivisionError
  else ret (x / float_of_int b)%float.

Definition sum_Z (l : list Z) : Z := fold_right Z.add 0%Z l.
Definition sum_nat (l : list nat) : nat := fold_right Nat.add 0 l.

(** [sum] on floats as the interpreters before 3.12 have it: a running sum
    from the left, from 0. *)
Definition running_sum (l : list float) : float := fold_left PrimFloat.add l 0%float.

(** Lines 354 to 358 of [run_evaluation]: the aggregates over [results].
    [fsum] is the built-in [sum] on a list of floats that is not empty: how
    it rounds depends on the version of the interpreter (a running sum from
    the left before 3.12, a compensated sum since), so it is left open.
    The [0] of the three conditional expressions is the integer 0, here the
    float zero. *)
Definition aggregate {S} (fsum : list float -> float) (results : list task_result)
  : M S report :=
  let correct := sum_Z (map score results) in
  let n := Z.of_nat (length results) in
  let nonempty := negb (bool_decide (results = [])) in
  let* accuracy :=
    if nonempty then let* q := int_truediv correct n in ret (q * float_of_int 100)%float
    else ret 0%float in
  let* average_duration_s :=
    if nonempty then float_truediv (fsum (map total_duration results)) n
    else ret 0%float in
  let* average_tool_calls :=
    if nonempty then int_truediv (Z.of_nat (sum_nat (map num_tool_calls results))) n
    else ret 0%float in
  let total_tool_calls := sum_nat (map num_tool_calls results) in
  ret {| correct := correct; total := length results; accuracy := accuracy;
         average_duration_s := average_duration_s;
         average_tool_calls := average_tool_calls;
         total_tool_calls := total_tool_calls; results := results |}.

(** The exception that leaves a pass without a tool-use block to serve:
    [next] raises [StopIteration], which leaves a coroutine as a
    [RuntimeError]. *)
Definition stop_iteration : exn := RuntimeError (JStr "coroutine raised StopIteration").

(** Where an exception that leaves the loop comes from: it is not of class
    [Exception], or the response had no tool-use block, or the engine raised
    it. *)
Definition not_from_tool (c : Client) (e : exn) : Prop :=
  is_Exception e = false \/ e = stop_iteration \/
  exists n msgs, engine c n msgs = Raise e.

Section AgentLoop.

(** Library functions that build text: [json.dumps], [str] on a value and on
    an exception, [traceback.format_exc()] while the exception is handled. *)
Context (json_dumps : json -> string) (str : json -> string)
        (str_exn : exn -> string) (format_exc : exn -> string).

(** The tool caller, of any class with [list_tools] and [call_tool]. *)
Context {T : Type} `{ConnectionBase T}.

(** The loop runs on the tool caller, the operating system and the client. *)
Definition Run (A : Type) : Type := M ((T * World) * Client) A.

Definition on_tool_caller {A} (m : M (T * World) A) : Run A := on_fst m.
Definition on_os {A} (m : M World A) : Run A := on_fst (on_snd m).
Definition on_client {A} (m : M Client A) : Run A := on_snd m.

Definition tool_result_message (tool_use_id tool_response : string) : message :=
  {| role := "user"; mcontent := CToolResult tool_use_id tool_response |}.

Definition assistant_message (r : response) : message :=
  {| role := "assistant"; mcontent := CBlocks (content r) |}.

(** The text of a failed invocation:
    [f"Error executing tool {tool_name}: {str(e)}\n" + traceback.format_exc()] *)
Definition error_text (tool_name : string) (e : exn) : string :=
  ("Error executing tool " ++ tool_name ++ ": " ++ str_exn e
   ++ String "010"%char "" ++ format_exc e)%string.

(** The [try] statement of the loop: the text fed back to the engine. *)
Definition invoke_tool (tool_name : string) (tool_input : json) : Run string :=
  try_catch is_Exception
    (let* tool_result := on_tool_caller (call_tool tool_name tool_input) in
     ret (if is_container tool_result then json_dumps tool_result else str tool_result))
    (fun e => ret (error_text tool_name e)).

(** One pass through the body of [while response.stop_reason == "tool_use"]. *)
Definition loop_body (st : loop_state) : Run loop_state :=
  match next_tool_use (content (last_response st)) with
  | None => raise stop_iteration
  | Some (tool_use_id, tool_name, tool_input) =>
      let* tool_start_ts := on_os time in
      let* tool_response := invoke_tool tool_name tool_input in
      let* now := on_os time in
      let tool_duration := (now - tool_start_ts)%float in
      let tm := record_call tool_name tool_duration (tool_metrics st) in
      let msgs := messages st ++ [tool_result_message tool_use_id tool_response] in
      let* response := on_client (messages_create msgs) in
      ret {| messages := msgs ++ [assistant_message response];
             last_response := response;
             tool_metrics := tm;
             events := events st ++ [CallTool tool_name tool_input; Create msgs] |}
  end.

(** The [while] loop, cut after [fuel] passes. *)
Fixpoint while_tool_use (fuel : nat) (st : loop_state) : Run loop_state :=
  if bool_decide (stop_reason (last_response st) = "tool_use") then
    match fuel with
    | O => fun s => (MoreFuel, s)
    | S fuel' => let* st' := loop_body st in while_tool_use fuel' st'
    end
  else ret st.

(** The statements before the loop. *)
Definition loop_init (question : string) : Run loop_state :=
  let msgs := [{| role := "user"; mcontent := CText question |}] in
  let* response := on_client (messages_create msgs) in
  ret {| messages := msgs ++ [assistant_message response];
         last_response := response;
         tool_metrics := ∅;
         events := [Create msgs] |}.

Definition agent_loop (fuel : nat) (question : string)
  : Run (option string * gmap string metrics) :=
  let* st0 := loop_init question in
  let* st := while_tool_use fuel st0 in
  ret (next_text (content (last_response st)), tool_metrics st).

(** [re.findall] on [None] raises [TypeError]. *)
Definition evaluate_single_task (fuel : nat) (qa_pair : string * string)
  : Run task_result :=
  let* start_time := on_os time in
  let* (response, tm) := agent_loop fuel qa_pair.1 in
  match response with
  | None => raise (TypeError "expected string or bytes-like object")
  | Some text =>
      let* now := on_os time in
      ret (make_task_result qa_pair text tm (now - start_time)%float)
  end.

(** The [for] loop of [run_evaluation] over the parsed pairs. *)
Fixpoint evaluate_all (fuel : nat) (qa_pairs : list (string * string))
  : Run (list task_result) :=
  match qa_pairs with
  | [] => ret []
  | qa_pair :: rest =>
      let* result := evaluate_single_task fuel qa_pair in
      let* results := evaluate_all fuel rest in
      ret (result :: results)
  end.

(** [run_evaluation], from the parsed pairs to the figures of the report;
    [fsum] is the built-in [sum] on floats (see [aggregate]). *)
Definition run_evaluation (fsum : list float -> float) (fuel : nat)
    (qa_pairs : list (string * string)) : Run report :=
  let* tools := on_tool_caller list_tools in
  let* results := evaluate_all fuel qa_pairs in
  aggregate fsum results.

End AgentLoop.

End Evaluation.

(* ===================================================================== *)
(** ** A small world to run the scripts in *)
(* ===================================================================== *)

Module Demo.

Definition requested_tool (request : json) : option string :=
  match request with
  | JDict items =>
      match dict_get "tool" items with
      | Some (JStr n) => Some n
      | _ => None
      end
  | _ => None
  end.

(** A server with one tool, [add]: it lists it, answers a call of it with
    [{"result": 3}] and any other call with [{"error": "bad args"}]. *)
Definition adder_reply (requests : list json) : line :=
  match last requests with
  | Some request =>
      match requested_tool request with
      | Some n =>
          if String.eqb n "add" then Value (JDict [("result", JInt 3)])
          else Value (JDict [("error", JStr "bad args")])
      | None => Value (JList [JDict [("name", JStr "add")]])
      end
  | None => Silent
  end.

Definition adder : program := {| reply := adder_reply; exits_on_sigterm := true |}.

(** The same server, deaf to the termination signal. *)
Definition stubborn : program := {| reply := adder_reply; exits_on_sigterm := false |}.

Definition demo_exec (av : list string) (env : gmap string string) (wd : option string)
  : option program :=
  match av with
  | cmd :: _ =>
      if String.eqb cmd "adder" then Some adder
      else if String.eqb cmd "stubborn" then Some stubborn
      else None
  | [] => None
  end.

Definition add_args : json := JDict [("a", JInt 1); ("b", JInt 2)].

(** An engine that asks for two tools in its first turn and answers in its
    second. *)
Definition demo_engine (n : nat) (msgs : list message) : outcome response :=
  match n with
  | O => Ret {| content := [TextBlock "Let me add."; ToolUseBlock "tu_1" "add" add_args;
                            ToolUseBlock "tu_2" "mul" add_args];
                stop_reason := "tool_use" |}
  | S _ => Ret {| content := [TextBlock "<summary>added</summary><response>3</response>"];
                  stop_reason := "end_turn" |}
  end.

Definition world : World :=
  {| procs := [];
     os_environ := {[ "PATH" := "/usr/bin"; "LANG" := "C" ]};
     exec := demo_exec;
     clock := fun n => Evaluation.float_of_int (Z.of_nat n);
     ticks := 0;
     trace := [] |}.

Definition client : Client := {| engine := demo_engine; engine_calls := 0 |}.


(** Stand-ins for [json.dumps], [str] and [traceback.format_exc]. *)
Definition json_dumps (j : json) : string := "{..}".
Definition str (j : json) : string :=
  match j with
  | JStr s => s
  | _ => ".."
  end.
Definition str_exn (e : exn) : string :=
  match e with
  | RuntimeError arg => str arg
  | ValueError msg | TypeError msg | OSError msg | OtherException _ msg => msg
  | _ => ""
  end.
Definition format_exc (e : exn) : string := "Traceback (most recent call last): ..".

(** The value a call returned, [d] if it did not return. *)
Definition returned {A} (d : A) (o : outcome A) : A :=
  match o with
  | Ret a => a
  | _ => d
  end.

(** A response that asks for a tool the adder does not have, as the loop
    holds it when it enters its body. *)
Definition asks_mul : Evaluation.loop_state :=
  {| Evaluation.messages := [{| role := "user"; mcontent := CText "2*2?" |}];
     Evaluation.last_response :=
       {| content := [OtherBlock "thinking"; ToolUseBlock "tu_7" "mul" add_args;
                      ToolUseBlock "tu_8" "add" add_args];
          stop_reason := "tool_use" |};
     Evaluation.tool_metrics := ∅;
     Evaluation.events := [] |}.

(** A connection whose first child dies between two calls. *)
Definition stdio_0 : StdioConnection.t * World :=
  (StdioConnection.__init__ "adder" None (Some {[ "LANG" := "fr" ]}) None, world).
Definition stdio_1 : StdioConnection.t * World :=
  Channel.after (Channel.CallTool "add" add_args) stdio_0.
Definition stdio_2 : StdioConnection.t * World :=
  (stdio_1.1, Channel.child_exits 0 1 stdio_1.2).

End Demo.

(* ===================================================================== *)
(** ** Strings of the command lines: [split], [lower] *)
(* ===================================================================== *)

Module PyStr.
Import Text.

(** [sep in s] and [s.split(sep, 1)] for a separator of one character: the
    text before the first separator and the text after it; [None] when the
    separator does not occur. *)
Fixpoint split_once_chars (sep : ascii) (s : chars) : option (chars * chars) :=
  match s with
  | [] => None
  | c :: s' =>
      if Ascii.eqb c sep then Some ([], s')
      else match split_once_chars sep s' with
           | Some (a, b) => Some (c :: a, b)
           | None => None
           end
  end.

Definition split_once (sep : ascii) (s : string) : option (string * string) :=
  match split_once_chars sep (of_string s) with
  | Some (a, b) => Some (to_string a, to_string b)
  | None => None
  end.

(** [s.split(sep)] for a separator of one character: the pieces between the
    separators, at least one. *)
Fixpoint split_chars (sep : ascii) (s : chars) : list chars :=
  match s with
  | [] => [[]]
  | c :: s' =>
      if Ascii.eqb c sep then [] :: split_chars sep s'
      else match split_chars sep s' with
           | piece :: pieces => (c :: piece) :: pieces
           | [] => [[c]]
           end
  end.

Definition split (sep : ascii) (s : string) : list string :=
  map to_string (split_chars sep (of_string s)).

(** [c.lower()] on a character below 256: the letters A to Z and the
    capital letters of Latin-1 (U+00C0 to U+00DE but the sign U+00D7). *)
Definition lower_char (c : ascii) : ascii :=
  let n := nat_of_ascii c in
  if ((65 <=? n)%nat && (n <=? 90)%nat)
     || ((192 <=? n)%nat && (n <=? 222)%nat && negb (n =? 215)%nat)
  then ascii_of_nat (n + 32)
  else c.

(** [s.lower()] *)
Definition lower (s : string) : string := to_string (map lower_char (of_string s)).

(** [d[key] = value] on the items of a dict: the value of a key that is
    there is replaced in place, a new key goes to the end. *)
Fixpoint dict_set (key : string) (value : json) (items : list (string * json))
  : list (string * json) :=
  match items with
  | [] => [(key, value)]
  | (k, v) :: rest =>
      if String.eqb k key then (k, value) :: rest
      else (k, v) :: dict_set key value rest
  end.

End PyStr.

(* ===================================================================== *)
(** ** evaluation.py: [parse_headers], [parse_env_vars] *)
(* ===================================================================== *)

Module EvaluationArgs.
Import Text PyStr.

(** The body of both loops: [if sep in item: key, value = item.split(sep, 1);
    d[key.strip()] = value.strip()]. *)
Definition add_pair (sep : ascii) (d : gmap string string) (item : string)
  : gmap string string :=
  match split_once sep item with
  | Some (key, value) => <[strip key := strip value]> d
  | None => d
  end.

(** [parse_headers(header_list)]; the list may be [None]. *)
Definition parse_headers (header_list : option (list string)) : gmap string string :=
  match header_list with
  | None | Some [] => ∅
  | Some l => fold_left (add_pair ":"%char) l ∅
  end.

(** [parse_env_vars(env_list)]; the list may be [None]. *)
Definition parse_env_vars (env_list : option (list string)) : gmap string string :=
  match env_list with
  | None | Some [] => ∅
  | Some l => fold_left (add_pair "="%char) l ∅
  end.

(** What one item contributes: its stripped key and value when the separator
    occurs in it.  The key is the text before the first separator. *)
Definition pair_of (sep : ascii) (item : string) : option (string * string) :=
  match split_once sep item with
  | Some (key, value) => Some (strip key, strip value)
  | None => None
  end.

End EvaluationArgs.

(* ===================================================================== *)
(** ** tool_caller.py: [parse_tool_input] *)
(* ===================================================================== *)

Module ToolCallerArgs.
Import Text PyStr.

Section ParseToolInput.

(** [json.loads] on a text; [None] when it raises [JSONDecodeError]. *)
Context (json_loads : string -> option json).

(** The loop of the fall-back: [if "=" in pair: key, value = pair.split("=", 1);
    result[key.strip()] = value.strip()]. *)
Definition add_key_value (result : list (string * json)) (pair : string)
  : list (string * json) :=
  match split_once "="%char pair with
  | Some (key, value) => dict_set (strip key) (JStr (strip value)) result
  | None => result
  end.

Definition parse_tool_input (input_str : string) : json :=
  let input_str := strip input_str in
  if bool_decide (input_str = "") then JDict []
  else
    match json_loads input_str with
    | Some v => v
    | None => JDict (fold_left add_key_value (split ","%char input_str) [])
    end.

End ParseToolInput.

End ToolCallerArgs.


(* ===================================================================== *)
(** ** Code loaded in process: modules and their attributes *)
(* ===================================================================== *)

Module InProcess.

(** An attribute of a module or of an object: something that can be called,
    with positional and keyword arguments, or plain data. *)
Inductive attr :=
| Callable (call : list json -> list (string * json) -> M World json)
| Data (v : json).

(** What [hasattr] and [getattr] see of a module or an object. *)
Abbreviation namespace := (gmap string attr).

(** An object handed over as server instance: its attributes, and what
    [bool(obj)] gives, which the [__bool__] or the [__len__] of its class
    may make false. *)
Record object := {
  attrs : namespace;
  truth : bool;
}.

(** [callable(a)] *)
Definition callable (a : attr) : bool :=
  match a with
  | Callable _ => true
  | Data _ => false
  end.

(** A call of [a] with positional arguments only. *)
Definition call_positional (a : attr) (positional : list json) : M World json :=
  match a with
  | Callable call => call positional []
  | Data _ => raise (TypeError "object is not callable")
  end.

(** A call of [a] with the items of [arguments] as keyword arguments; the
    arguments must be a mapping. *)
Definition call_keywords (a : attr) (arguments : json) : M World json :=
  match a with
  | Callable call =>
      match arguments with
      | JDict items => call [] items
      | _ => raise (TypeError "argument after ** must be a mapping")
      end
  | Data _ => raise (TypeError "object is not callable")
  end.

(** The object has no callable attribute of that name. *)
Definition no_callable (obj : namespace) (name : string) : Prop :=
  forall call, obj !! name <> Some (Callable call).

(** What a listing returns: the result of a call, or the attribute [tools]
    itself. *)
Definition returned_attr {S} (m : M S json) : M S attr :=
  let* v := m in ret (Data v).

(** The tools as [run_evaluation] goes on with them.  A function found under
    [tools] is handed over as it is, and [len(tools)] on line 343 raises
    [TypeError] on it. *)
Definition listed {S} (a : attr) : M S json :=
  match a with
  | Data v => ret v
  | Callable _ => raise (TypeError "object of type 'function' has no len()")
  end.

End InProcess.

(* ===================================================================== *)
(** ** connections.py: [DirectConnection], [create_connection] *)
(* ===================================================================== *)

Module DirectConnection.
Import InProcess.

Record t := {
  module_path : string;
  server : option namespace;
  _module : option namespace;
}.

Definition __init__ (module_path : string) (server_instance : option namespace) : t :=
  {| module_path := module_path; server := server_instance; _module := None |}.

Definition set_module (m : namespace) (self : t) : t :=
  {| module_path := module_path self; server := server self; _module := Some m |}.

Section WithImporter.

(** [importlib.import_module]: the module of a path, [None] when there is
    none to import. *)
Context (import_module : string -> option namespace).

Definition _load_module : M (t * World) namespace :=
  let* self := gets fst in
  match _module self with
  | Some m => ret m
  | None =>
      match import_module (module_path self) with
      | Some m =>
          run modify (fun '(self, w) => (set_module m self, w)) in
          ret m
      | None => raise (OtherException "ModuleNotFoundError" (module_path self))
      end
  end.

(** The module a connection works with: the one it has loaded, else the one
    the import gives. *)
Definition module_of (self : t) : option namespace :=
  match _module self with
  | Some m => Some m
  | None => import_module (module_path self)
  end.

(** The connection once the module [m] it works with is loaded. *)
Definition loaded (m : namespace) (self : t) : t :=
  match _module self with
  | Some _ => self
  | None => set_module m self
  end.

Definition list_tools : M (t * World) attr :=
  let* module := _load_module in
  match module !! "list_tools" with
  | Some a => returned_attr (on_snd (call_positional a []))
  | None =>
      match module !! "get_tools" with
      | Some a => returned_attr (on_snd (call_positional a []))
      | None =>
          match module !! "tools" with
          | Some a => ret a
          | None => ret (Data (JList []))
          end
      end
  end.

Definition not_found (tool_name : string) (self : t) : exn :=
  ValueError ("Tool '" ++ tool_name ++ "' not found in module '"
              ++ module_path self ++ "'")%string.

Definition call_tool (tool_name : string) (arguments : json) : M (t * World) json :=
  let* module := _load_module in
  let* self := gets fst in
  match module !! tool_name with
  | Some (Callable call) => on_snd (call_keywords (Callable call) arguments)
  | _ =>
      match module !! "call_tool" with
      | Some a => on_snd (call_positional a [JStr tool_name; arguments])
      | None => raise (not_found tool_name self)
      end
  end.

End WithImporter.

End DirectConnection.

Module Connections.
Import PyStr.

Inductive connection :=
| Stdio (c : StdioConnection.t)
| Direct (c : DirectConnection.t).

(** [not s] on an optional text: [None] and [""] are false. *)
Definition given (s : option string) : option string :=
  match s with
  | Some "" | None => None
  | Some v => Some v
  end.

(** [create_connection]; [url] and [headers] are not used. *)
Definition create_connection (transport : string) (command : option string)
    (args : option (list string)) (env : option (gmap string string))
    (module_path : option string) : exn + connection :=
  let transport := lower transport in
  if bool_decide (transport = "stdio") then
    match given command with
    | None => inl (ValueError "Command is required for stdio transport")
    | Some command => inr (Stdio (StdioConnection.__init__ command args env None))
    end
  else if bool_decide (transport = "direct") then
    match given module_path with
    | None => inl (ValueError "Module path is required for direct transport")
    | Some module_path => inr (Direct (DirectConnection.__init__ module_path None))
    end
  else if bool_decide (transport ∈ ["mcp"; "sse"; "http"]) then
    inl (ValueError ("Transport '" ++ transport ++ "' requires MCP protocol. "
                     ++ "Use 'stdio' or 'direct' for script-based evaluation.")%string)
  else
    inl (ValueError ("Unsupported transport type: " ++ transport
                     ++ ". Use 'stdio' or 'direct'")%string).

End Connections.

(* ===================================================================== *)
(** ** server_runner.py: [DirectToolCaller.call_tool], [create_server_runner] *)
(* ===================================================================== *)

Module ServerRunnerDirect.
Import InProcess.

Record t := {
  module_path : string;
  server : option object;
  _module : option namespace;
}.

Definition __init__ (module_path : string) (server_instance : option object) : t :=
  {| module_path := module_path; server := server_instance; _module := None |}.

Definition set_module (m : namespace) (self : t) : t :=
  {| module_path := module_path self; server := server self; _module := Some m |}.

Section WithImporter.

Context (import_module : string -> option namespace).

Definition _load_module : M (t * World) namespace :=
  let* self := gets fst in
  match _module self with
  | Some m => ret m
  | None =>
      match import_module (module_path self) with
      | Some m =>
          run modify (fun '(self, w) => (set_module m self, w)) in
          ret m
      | None => raise (OtherException "ModuleNotFoundError" (module_path self))
      end
  end.

Definition not_found (tool_name : string) (self : t) : exn :=
  ValueError ("Tool '" ++ tool_name ++ "' not found in module '"
              ++ module_path self ++ "'")%string.

(** The module a caller works with, and the caller once it is loaded. *)
Definition module_of (self : t) : option namespace :=
  match _module self with
  | Some m => Some m
  | None => import_module (module_path self)
  end.

Definition loaded (m : namespace) (self : t) : t :=
  match _module self with
  | Some _ => self
  | None => set_module m self
  end.

(** [attr = getattr(obj, tool_name, None); if callable(attr): ..] *)
Definition callable_of (obj : namespace) (tool_name : string) : option attr :=
  match obj !! tool_name with
  | Some (Callable call) => Some (Callable call)
  | _ => None
  end.

(** [if self.server:] the server object is there and is true. *)
Definition true_server (self : t) : option object :=
  match server self with
  | Some obj => if truth obj then Some obj else None
  | None => None
  end.

Definition call_tool (tool_name : string) (args : json) : M (t * World) json :=
  let* module := _load_module in
  let* self := gets fst in
  match (match true_server self with
         | Some obj => callable_of (attrs obj) tool_name
         | None => None
         end) with
  | Some a => on_snd (call_keywords a args)
  | None =>
      match callable_of module tool_name with
      | Some a => on_snd (call_keywords a args)
      | None =>
          match module !! "call_tool" with
          | Some a => on_snd (call_positional a [JStr tool_name; args])
          | None => raise (not_found tool_name self)
          end
      end
  end.

End WithImporter.

Inductive runner :=
| AsProcess (r : ServerRunner.t)
| AsModule (c : t).

(** [create_server_runner]: a module path is preferred to a command. *)
Definition create_server_runner (command : option string) (args : option (list string))
    (env : option (gmap string string)) (module_path : option string)
    (server_instance : option object) : exn + runner :=
  match Connections.given module_path with
  | Some module_path => inr (AsModule (__init__ module_path server_instance))
  | None =>
      match Connections.given command with
      | Some command => inr (AsProcess (ServerRunner.__init__ command args env None))
      | None => inl (ValueError "Either 'command' or 'module_path' must be provided")
      end
  end.

End ServerRunnerDirect.

(* ===================================================================== *)
(** ** evaluation.py: [DirectToolCaller], the tool caller of [--module] *)
(* ===================================================================== *)

Module EvaluationDirect.
Import InProcess.

Record t := {
  module_path : string;
  _module : option namespace;
}.

Definition __init__ (module_path : string) : t :=
  {| module_path := module_path; _module := None |}.

Definition set_module (m : namespace) (self : t) : t :=
  {| module_path := module_path self; _module := Some m |}.

Section WithImporter.

Context (import_module : string -> option namespace).

Definition _load_module : M (t * World) namespace :=
  let* self := gets fst in
  match _module self with
  | Some m => ret m
  | None =>
      match import_module (module_path self) with
      | Some m =>
          run modify (fun '(self, w) => (set_module m self, w)) in
          ret m
      | None => raise (OtherException "ModuleNotFoundError" (module_path self))
      end
  end.

Definition list_tools : M (t * World) attr :=
  let* module := _load_module in
  match module !! "list_tools" with
  | Some a => returned_attr (on_snd (call_positional a []))
  | None =>
      match module !! "get_tools" with
      | Some a => returned_attr (on_snd (call_positional a []))
      | None =>
          match module !! "tools" with
          | Some a => ret a
          | None => ret (Data (JList []))
          end
      end
  end.

Definition call_tool (tool_name : string) (args : json) : M (t * World) json :=
  let* module := _load_module in
  let* self := gets fst in
  match module !! tool_name with
  | Some (Callable call) => on_snd (call_keywords (Callable call) args)
  | _ =>
      match module !! "call_tool" with
      | Some a => on_snd (call_positional a [JStr tool_name; args])
      | None => raise (ValueError ("Tool " ++ tool_name ++ " not found in "
                                   ++ module_path self)%string)
      end
  end.

(** The caller as [run_evaluation] and [agent_loop] use it. *)
Definition connection : ConnectionBase t :=
  Build_ConnectionBase t (let* a := list_tools in listed a) call_tool.

End WithImporter.

End EvaluationDirect.


(* ===================================================================== *)
(** ** A small module to call in process *)
(* ===================================================================== *)

Module DemoModule.
Import InProcess.

(** [def add(a, b): return a + b] *)
Definition add_function (positional : list json) (keywords : list (string * json))
  : M World json :=
  match positional, dict_get "a" keywords, dict_get "b" keywords with
  | [], Some (JInt a), Some (JInt b) => ret (JInt (a + b))
  | _, _, _ => raise (TypeError "add() got unexpected arguments")
  end.

Definition add : attr := Callable add_function.

(** [def call_tool(name, args): return "dispatched " + name] *)
Definition dispatcher : attr :=
  Callable (fun positional keywords =>
              match positional, keywords with
              | [JStr name; _], [] => ret (JStr ("dispatched " ++ name))
              | _, _ => raise (TypeError "call_tool() takes 2 positional arguments")
              end).

Definition server_module : namespace :=
  {[ "add" := add; "call_tool" := dispatcher;
     "tools" := Data (JList [JStr "add"]); "version" := Data (JStr "1.0") ]}.

(** [def leave(): sys.exit(1)] *)
Definition leave : attr := Callable (fun _ _ => raise SystemExit).

(** A module with a tool that ends the interpreter. *)
Definition leaving_module : namespace := {[ "leave" := leave ]}.



Definition import_module (path : string) : option namespace :=
  if String.eqb path "demo.server" then Some server_module
  else if String.eqb path "demo.leaving" then Some leaving_module
  else None.

(** An engine that asks for the tool [leave] in every turn. *)
Definition leaving_client : Client :=
  {| engine := fun _ _ => Ret {| content := [ToolUseBlock "tu_1" "leave" (JDict [])];
                                 stop_reason := "tool_use" |};
     engine_calls := 0 |}.

End DemoModule.


(* ===================================================================== *)
(** ** server_runner.py: the list of tools of a [ServerRunner] *)
(* ===================================================================== *)

Module ServerRunnerTools.
Import OS ServerRunner.

(** [ServerRunner.get_tools] *)
Definition get_tools : M (t * World) json :=
  let* self := gets fst in
  match _process self with
  | None => raise (RuntimeError (JStr "Server process not running"))
  | Some pid =>
      run on_snd (write_line pid list_tools_request) in
      on_snd (read_json pid)
  end.

End ServerRunnerTools.


(* ===================================================================== *)
(** * Properties *)
(* ===================================================================== *)

(** ** Strings and their characters *)

Module TextFacts.
Import Text.

Lemma of_string_app (a b : string) :
  of_string (a ++ b)%string = of_string a ++ of_string b.
Proof. induction a as [|c a IH]; simpl; [done | by rewrite IH]. Qed.

Lemma to_string_app (a b : chars) :
  to_string (a ++ b) = (to_string a ++ to_string b)%string.
Proof. induction a as [|c a IH]; simpl; [done | by rewrite IH]. Qed.

Lemma of_to_string (l : chars) : of_string (to_string l) = l.
Proof. apply list_ascii_of_string_of_list_ascii. Qed.

Lemma to_of_string (s : string) : to_string (of_string s) = s.
Proof. apply string_of_list_ascii_of_string. Qed.

Lemma of_string_inj (a b : string) : of_string a = of_string b -> a = b.
Proof. intros E. rewrite <- (to_of_string a), <- (to_of_string b). by rewrite E. Qed.

Lemma of_string_length (s : string) : length (of_string s) = String.length s.
Proof. induction s; simpl; auto. Qed.

End TextFacts.

(** ** The scan of [re.findall] *)

Module ReFacts.
Import Text Re TextFacts.

Lemma match_prefix_Some p s rest :
  match_prefix p s = Some rest <-> exists u, s = u ++ rest /\ pmatch p u.
Proof.
  revert s. induction p as [|q p IH]; intros s; simpl.
  - split.
    + intros [= ->]. exists []. split; [done | constructor].
    + intros (u & -> & Hu). inversion Hu. done.
  - destruct s as [|c s].
    + split; [done|]. intros (u & E & Hu). inversion Hu; subst. done.
    + destruct (pat_char_matches q c) eqn:Hq.
      * rewrite IH. split.
        -- intros (u & -> & Hu). exists (c :: u). split; [done | by constructor].
        -- intros (u & E & Hu). inversion Hu; subst. simpl in E.
           injection E as -> ->. eauto.
      * split; [done|]. intros (u & E & Hu). inversion Hu; subst. simpl in E.
        injection E as -> ->. congruence.
Qed.

Lemma pmatch_length p u : pmatch p u -> length u = length p.
Proof. intros Hu. symmetry. eapply Forall2_length, Hu. Qed.

Lemma match_prefix_None p s u rest :
  match_prefix p s = None -> s = u ++ rest -> ~ pmatch p u.
Proof.
  intros E -> Hu.
  assert (match_prefix p (u ++ rest) = Some rest) by (apply match_prefix_Some; eauto).
  congruence.
Qed.

Lemma lazy_until_Some close s g rest :
  lazy_until close s = Some (g, rest) ->
  exists u, s = g ++ u ++ rest /\ pmatch close u /\
    forall g' u' r', s = g' ++ u' ++ r' -> pmatch close u' -> length g <= length g'.
Proof.
  revert g rest. induction s as [|c s IH]; intros g rest; simpl.
  - destruct (match_prefix close []) as [r|] eqn:E; [|done].
    intros [= <- <-]. apply match_prefix_Some in E as (u & E & Hu).
    exists u. repeat split; auto. simpl. intros; lia.
  - destruct (match_prefix close (c :: s)) as [r|] eqn:E.
    + intros [= <- <-]. apply match_prefix_Some in E as (u & E & Hu).
      exists u. repeat split; auto. simpl. intros; lia.
    + destruct (lazy_until close s) as [[g0 r0]|] eqn:E0; [|done].
      intros [= <- <-]. destruct (IH _ _ eq_refl) as (u & -> & Hu & Hmin).
      exists u. repeat split; auto.
      intros g' u' r' Eq Hu'. destruct g' as [|c' g'].
      * simpl in Eq. exfalso. eapply match_prefix_None; eauto.
      * simpl in Eq. injection Eq as -> Eq. simpl.
        specialize (Hmin _ _ _ Eq Hu'). lia.
Qed.

Lemma lazy_until_complete close g u r :
  pmatch close u -> is_Some (lazy_until close (g ++ u ++ r)).
Proof.
  intros Hu. induction g as [|c g IH]; simpl.
  - assert (E : match_prefix close (u ++ r) = Some r) by (apply match_prefix_Some; eauto).
    destruct (u ++ r); simpl; rewrite E; eauto.
  - destruct (match_prefix close (c :: g ++ u ++ r)); [eauto|].
    destruct IH as [[g0 r0] ->]. eauto.
Qed.

Lemma match_at_Some p s g rest :
  match_at (open_pat p) (close_pat p) s = Some (g, rest) ->
  exists o c, s = o ++ g ++ c ++ rest /\ pmatch (open_pat p) o /\ pmatch (close_pat p) c /\
    forall g' c' r', g ++ c ++ rest = g' ++ c' ++ r' -> pmatch (close_pat p) c' ->
                     length g <= length g'.
Proof.
  unfold match_at. destruct (match_prefix (open_pat p) s) as [r|] eqn:E; [|done].
  intros H. apply match_prefix_Some in E as (o & -> & Ho).
  apply lazy_until_Some in H as (c & -> & Hc & Hmin). eauto 10.
Qed.

Lemma match_at_complete p o b c r :
  pmatch (open_pat p) o -> pmatch (close_pat p) c ->
  is_Some (match_at (open_pat p) (close_pat p) (o ++ b ++ c ++ r)).
Proof.
  intros Ho Hc. unfold match_at.
  assert (E : match_prefix (open_pat p) (o ++ b ++ c ++ r) = Some (b ++ c ++ r))
    by (apply match_prefix_Some; eauto).
  rewrite E. by apply lazy_until_complete.
Qed.

Lemma occurs_cons p x s : occurs p s -> occurs p (x :: s).
Proof.
  intros (a & o & b & c & r & -> & Ho & Hc). exists (x :: a), o, b, c, r. auto.
Qed.

Lemma occurs_app p a s : occurs p s -> occurs p (a ++ s).
Proof. induction a; simpl; auto using occurs_cons. Qed.

(** No match is found exactly when no opening tag is followed by a closing
    tag. *)
Lemma findall_nil p s : findall p s = [] <-> ~ occurs p s.
Proof.
  funelim (findall p s).
  - split; [|done]. intros _ (a & o & b & c & r & E & Ho & _).
    apply pmatch_length in Ho. destruct a, o; simpl in *; done.
  - clear Heqcall H0. split; [done|]. intros Hno. exfalso. apply Hno.
    apply match_at_Some in E as (o & c0 & -> & Ho & Hc & _).
    exists [], o, g, c0, rest. auto.
  - clear Heqcall H0. rewrite H. split.
    + intros Hno (a & o & b & c0 & r & Eq & Ho & Hc). destruct a as [|x a].
      * simpl in Eq. destruct (match_at_complete p o b c0 r Ho Hc) as [? E'].
        rewrite <- Eq in E'. congruence.
      * simpl in Eq. injection Eq as -> ->. apply Hno. exists a, o, b, c0, r. auto.
    + intros Hno Hs. apply Hno. by apply occurs_cons.
Qed.

(** The last match: its group runs from an opening tag to the nearest
    closing tag, and no further element follows it. *)
Lemma findall_last p s m :
  last (findall p s) = Some m ->
  exists pre o c post,
    s = pre ++ o ++ m ++ c ++ post /\
    pmatch (open_pat p) o /\ pmatch (close_pat p) c /\
    ~ occurs p post /\
    forall g' c' r', m ++ c ++ post = g' ++ c' ++ r' -> pmatch (close_pat p) c' ->
                     length m <= length g'.
Proof.
  funelim (findall p s).
  - done.
  - clear Heqcall H0. intros Hl.
    pose proof (match_at_Some _ _ _ _ E) as (o & c0 & Es & Ho & Hc & Hmin).
    destruct (findall p rest) as [|m1 ms] eqn:Efa.
    + simpl in Hl. injection Hl as <-.
      exists [], o, c0, rest. simpl. repeat split; auto. by apply findall_nil.
    + assert (Hl' : last (m1 :: ms) = Some m) by (rewrite <- Hl; by rewrite last_cons_cons).
      destruct (H _ Hl') as (pre & o' & c' & post & -> & Ho' & Hc' & Hno & Hmin').
      exists (o ++ g ++ c0 ++ pre), o', c', post. rewrite Es.
      repeat split; auto. by rewrite <- !app_assoc.
  - clear Heqcall H0. intros Hl.
    destruct (H _ Hl) as (pre & o & c0 & post & -> & Ho & Hc & Hno & Hmin).
    exists (c :: pre), o, c0, post. auto.
Qed.

Lemma has_infix_complete o a r : has_infix o (a ++ o ++ r) = true.
Proof.
  assert (Hp : forall t : chars, pmatch (map PLit t) t).
  { induction t; constructor; auto. simpl. apply Ascii.eqb_refl. }
  induction a as [|x a IH]; simpl.
  - assert (E : match_prefix (map PLit o) (o ++ r) = Some r)
      by (apply match_prefix_Some; eauto).
    destruct (o ++ r); simpl; by rewrite E.
  - destruct (match_prefix (map PLit o) (x :: a ++ o ++ r)); auto.
Qed.

Lemma pmatch_literal t u : pmatch (map PLit t) u <-> u = t.
Proof.
  revert u. induction t as [|c t IH]; intros u; simpl.
  - split; [by inversion 1 | intros ->; constructor].
  - split.
    + inversion 1 as [|? d ? u' Hd Hu']; subst. simpl in Hd.
      apply Ascii.eqb_eq in Hd as ->. f_equal. by apply IH.
    + intros ->. constructor; [apply Ascii.eqb_refl | by apply IH].
Qed.

End ReFacts.

(** ** Tag extraction and scoring *)

Module ExtractFacts.
Import Text Re TextFacts ReFacts Evaluation.

Lemma compile_char_literal c : re_special c = false -> compile_char c = Some (PLit c).
Proof.
  intros Hc. unfold compile_char. rewrite Hc.
  destruct (Ascii.eqb c ".") eqn:E; [|done].
  apply Ascii.eqb_eq in E as ->. vm_compute in Hc. done.
Qed.

Lemma compile_literal (t : chars) :
  Forall (fun c => re_special c = false) t -> mapM compile_char t = Some (map PLit t).
Proof.
  intros Ht. apply mapM_Some. induction Ht; constructor; auto using compile_char_literal.
Qed.

Lemma open_pat_literal t : open_pat (map PLit t) = map PLit (of_string "<" ++ t ++ of_string ">").
Proof. unfold open_pat. simpl. by rewrite map_app. Qed.

Lemma close_pat_literal t : close_pat (map PLit t) = map PLit (of_string "</" ++ t ++ of_string ">").
Proof. unfold close_pat. simpl. by rewrite map_app. Qed.

Lemma open_literal (tag : string) :
  of_string "<" ++ of_string tag ++ of_string ">" = of_string ("<" ++ tag ++ ">")%string.
Proof. by rewrite !of_string_app. Qed.

Lemma close_literal (tag : string) :
  of_string "</" ++ of_string tag ++ of_string ">" = of_string ("</" ++ tag ++ ">")%string.
Proof. by rewrite !of_string_app. Qed.

Lemma occurs_literal (text tag : string) :
  occurs (map PLit (of_string tag)) (of_string text) <-> tag_occurs text tag.
Proof.
  unfold occurs, tag_occurs. rewrite open_pat_literal, close_pat_literal. split.
  - intros (a & o & b & c & r & E & Ho & Hc).
    apply pmatch_literal in Ho as ->. apply pmatch_literal in Hc as ->.
    exists (to_string a), (to_string b), (to_string r).
    apply of_string_inj. rewrite E, !of_string_app, !of_to_string. done.
  - intros (a & b & c & ->).
    exists (of_string a), (of_string "<" ++ of_string tag ++ of_string ">"),
      (of_string b), (of_string "</" ++ of_string tag ++ of_string ">"), (of_string c).
    split; [by rewrite !of_string_app|]. split; by apply pmatch_literal.
Qed.

Lemma extract_literal (text tag : string) :
  literal_tag tag ->
  extract_xml_content text tag =
    Some (match last (findall (map PLit (of_string tag)) (of_string text)) with
          | Some m => Some (to_string (strip_chars m))
          | None => None
          end).
Proof.
  intros Hl. unfold extract_xml_content, compile_tag. by rewrite compile_literal.
Qed.

Lemma literal_response : literal_tag "response".
Proof. unfold literal_tag. vm_compute. repeat constructor. Qed.

Lemma literal_summary : literal_tag "summary".
Proof. unfold literal_tag. vm_compute. repeat constructor. Qed.

(** *** White space at the ends *)

Lemma lstrip_spaces l s :
  Forall (fun x => is_space x = true) l -> lstrip (l ++ s) = lstrip s.
Proof. induction 1 as [|x l Hx _ IH]; simpl; [done|]. by rewrite Hx. Qed.

Lemma lstrip_only_spaces l : Forall (fun x => is_space x = true) l -> lstrip l = [].
Proof. intros Hl. rewrite <- (app_nil_r l). by rewrite lstrip_spaces. Qed.

Lemma lstrip_at_text x s : is_space x = false -> lstrip (x :: s) = x :: s.
Proof. intros Hx. simpl. by rewrite Hx. Qed.

Lemma lstrip_split s :
  exists l, s = l ++ lstrip s /\ Forall (fun x => is_space x = true) l /\
            forall x, head (lstrip s) = Some x -> is_space x = false.
Proof.
  induction s as [|y s (l & E & Hl & Hh)]; simpl.
  - exists []. repeat split; [constructor | done].
  - destruct (is_space y) eqn:Ey.
    + exists (y :: l). split; [simpl; congruence|]. split; [by constructor | done].
    + exists []. split; [done|]. split; [constructor|]. simpl. by intros x [= <-].
Qed.

Lemma Forall_rev_spaces (l : chars) :
  Forall (fun x => is_space x = true) l -> Forall (fun x => is_space x = true) (rev l).
Proof. apply List.Forall_rev. Qed.

(** [strip] does what the word says. *)
Lemma trimmed_strip_chars m : ExtractSpec.trimmed m (strip_chars m).
Proof.
  unfold ExtractSpec.trimmed, strip_chars, rstrip.
  destruct (lstrip_split m) as (l & El & Hl & Hh).
  destruct (lstrip_split (rev (lstrip m))) as (r & Er & Hr & Hk).
  set (k := lstrip (rev (lstrip m))) in *.
  assert (Em : lstrip m = rev k ++ rev r).
  { rewrite <- (rev_involutive (lstrip m)), Er. apply rev_app_distr. }
  exists l, (rev r). split; [by rewrite <- Em|]. split; [done|].
  split; [by apply Forall_rev_spaces|]. split.
  - intros x Hx. apply Hh. rewrite Em. by destruct (rev k).
  - intros x Hx. apply Hk. destruct k as [|y k]; [done|].
    simpl in Hx. by rewrite last_snoc in Hx.
Qed.

(** No other text is [m] without its outer white space. *)
Lemma trimmed_unique m v : ExtractSpec.trimmed m v -> v = strip_chars m.
Proof.
  intros (l & r & -> & Hl & Hr & Hh & Hlast). unfold strip_chars.
  rewrite lstrip_spaces by done. destruct v as [|x v].
  - simpl. by rewrite lstrip_only_spaces.
  - rewrite <- app_comm_cons, lstrip_at_text by (by apply Hh).
    rewrite app_comm_cons. unfold rstrip.
    rewrite rev_app_distr, lstrip_spaces by (by apply Forall_rev_spaces).
    destruct (last (x :: v)) as [y|] eqn:Ey.
    + apply last_Some in Ey as (v' & Ev). rewrite Ev, rev_app_distr. simpl.
      rewrite (Hlast y eq_refl). simpl. by rewrite rev_involutive.
    + by apply last_None in Ey.
Qed.

(** *** The scan and the occurrences of the specification *)

Lemma occurrences_functional o c s ms ms' :
  ExtractSpec.occurrences o c s ms -> ExtractSpec.occurrences o c s ms' -> ms = ms'.
Proof.
  intros H. revert ms'.
  induction H as [s Hno | s pre m rest ms (E & Hleft & Hnear) Hocc IH]; intros ms' H'.
  - inversion H' as [|? pre' m' rest' ms0 [E _] _]; subst; [done|].
    by destruct (Hno pre' m' rest').
  - inversion H' as [? Hno|? pre' m' rest' ms0 (E' & Hleft' & Hnear') Hocc']; subst.
    + by destruct (Hno pre m rest).
    + assert (length pre = length pre')
        by (pose proof (Hleft _ _ _ E'); pose proof (Hleft' _ _ _ eq_refl); lia).
      apply app_inj_1 in E' as [-> E']; [|done].
      apply app_inv_head in E'.
      assert (length m = length m')
        by (pose proof (Hnear _ _ E'); pose proof (Hnear' _ _ (eq_sym E')); lia).
      apply app_inj_1 in E' as [-> E']; [|done]. apply app_inv_head in E' as ->.
      f_equal. by apply IH.
Qed.

Lemma occurrences_skip o c x s ms :
  (forall m rest, x :: s <> o ++ m ++ c ++ rest) ->
  ExtractSpec.occurrences o c s ms -> ExtractSpec.occurrences o c (x :: s) ms.
Proof.
  intros Hhead H.
  inversion H as [? Hno|? pre m rest ms0 (E & Hleft & Hnear) Hocc]; subst.
  - apply ExtractSpec.occurrences_none. intros [|y pre] m rest E; simpl in E.
    + by destruct (Hhead m rest).
    + injection E as -> E. by destruct (Hno pre m rest).
  - apply (ExtractSpec.occurrences_next _ _ _ (x :: pre) m rest); [|done].
    split; [done|]. split; [|done].
    intros [|y pre'] m' rest' E'; simpl in E'.
    + by destruct (Hhead m' rest').
    + injection E' as -> E'. simpl. pose proof (Hleft _ _ _ E'). lia.
Qed.

(** What [re.findall] returns for a literal tag are the occurrences of the
    specification. *)
Lemma findall_occurrences p s :
  forall t, p = map PLit t ->
    ExtractSpec.occurrences (of_string "<" ++ t ++ of_string ">")
                            (of_string "</" ++ t ++ of_string ">") s (findall p s).
Proof.
  funelim (findall p s).
  - intros t _. apply ExtractSpec.occurrences_none. intros pre m rest E.
    by destruct pre.
  - clear Heqcall H0. intros t ->.
    pose proof (match_at_Some _ _ _ _ E) as (o & c0 & Es & Ho & Hc & Hmin).
    rewrite open_pat_literal in Ho. rewrite close_pat_literal in Hc, Hmin.
    apply pmatch_literal in Ho as ->. apply pmatch_literal in Hc as ->.
    apply (ExtractSpec.occurrences_next _ _ _ [] g rest); [|by apply H].
    split; [exact Es|]. split; [intros; simpl; lia|].
    intros m' rest' Eq. apply (Hmin m' _ rest' Eq). by apply pmatch_literal.
  - clear Heqcall H0. intros t ->. apply occurrences_skip; [|by apply H].
    intros m rest Eq.
    destruct (match_at_complete (map PLit t) (of_string "<" ++ t ++ of_string ">") m
                (of_string "</" ++ t ++ of_string ">") rest) as [? E'].
    + rewrite open_pat_literal. by apply pmatch_literal.
    + rewrite close_pat_literal. by apply pmatch_literal.
    + rewrite <- Eq in E'. congruence.
Qed.

Lemma occurrences_of_tag (text tag : string) :
  ExtractSpec.occurrences (of_string ("<" ++ tag ++ ">")) (of_string ("</" ++ tag ++ ">"))
    (of_string text) (findall (map PLit (of_string tag)) (of_string text)).
Proof. rewrite <- open_literal, <- close_literal. by apply findall_occurrences. Qed.

(** C3, as amended.  For a tag name without regex metacharacters, the text
    has one list [ms] of occurrences of the element [<tag>..</tag>], found
    from left to right without overlap, each from an opening tag to the
    nearest closing tag after it.  The list is empty exactly when the element
    does not occur, and extraction then returns [None] (and no string);
    otherwise extraction returns the content of the last occurrence without
    its outer white space, which is one text only. *)
Theorem extract_xml_content_last_occurrence (text tag : string) :
  literal_tag tag ->
  let o := of_string ("<" ++ tag ++ ">") in
  let c := of_string ("</" ++ tag ++ ">") in
  exists ms,
    ExtractSpec.occurrences o c (of_string text) ms /\
    (forall ms', ExtractSpec.occurrences o c (of_string text) ms' -> ms' = ms) /\
    (ms = [] <-> ~ tag_occurs text tag) /\
    match last ms with
    | None => extract_xml_content text tag = Some None
    | Some m =>
        exists v, extract_xml_content text tag = Some (Some v) /\
                  ExtractSpec.trimmed m (of_string v) /\
                  forall v', ExtractSpec.trimmed m v' -> v' = of_string v
    end.
Proof.
  intros Hl o c. subst o c.
  exists (findall (map PLit (of_string tag)) (of_string text)).
  pose proof (occurrences_of_tag text tag) as Hocc.
  split; [exact Hocc|]. split.
  { intros ms' H'. by apply (occurrences_functional _ _ _ _ _ H' Hocc). }
  split; [by rewrite findall_nil, occurs_literal|].
  rewrite (extract_literal _ _ Hl).
  destruct (last _) as [m|]; [|done].
  exists (to_string (strip_chars m)). split; [done|]. rewrite of_to_string.
  split; [apply trimmed_strip_chars | apply trimmed_unique].
Qed.

(** A run of C3's theorem on an engine text that echoes the tag twice. *)
Lemma extract_xml_content_last_occurrence_witness :
  literal_tag "response" /\
  exists ms,
    ExtractSpec.occurrences (of_string "<response>") (of_string "</response>")
      (of_string "<response> 1 </response> or <response>42</response>.") ms /\
    ms = [of_string " 1 "; of_string "42"] /\
    exists v,
      extract_xml_content "<response> 1 </response> or <response>42</response>." "response"
        = Some (Some v) /\
      of_string "42" = of_string v.
Proof.
  split; [exact literal_response|].
  destruct (extract_xml_content_last_occurrence
              "<response> 1 </response> or <response>42</response>." "response"
              literal_response) as (ms & Hocc & Huniq & _ & Hlast).
  assert (Hms : [of_string " 1 "; of_string "42"] = ms).
  { apply Huniq.
    pose proof (occurrences_of_tag "<response> 1 </response> or <response>42</response>."
                  "response") as H.
    vm_compute in H. exact H. }
  exists ms. split; [exact Hocc|]. split; [by symmetry|].
  rewrite <- Hms in Hlast. cbn [last] in Hlast.
  destruct Hlast as (v & Hv & _ & Hu). exists v. split; [exact Hv|].
  apply Hu. exists [], []. repeat split; try constructor.
  - intros x [= <-]. reflexivity.
  - intros x [= <-]. reflexivity.
Defined.

(** An opening tag inside an element does not start an element of its own:
    the scan has passed it when it looks for the next one. *)
Example extract_nested_opening_tag :
  extract_xml_content "<t>a<t>b</t>" "t" = Some (Some "a<t>b").
Proof. reflexivity. Qed.

(** C3, as stated, fails for a tag with a metacharacter: the tag [a.c] is
    absent from the text, yet extraction returns a string. *)
Lemma extract_xml_content_dot_tag :
  ~ tag_occurs "<abc>x</abc>" "a.c" /\
  extract_xml_content "<abc>x</abc>" "a.c" = Some (Some "x").
Proof.
  split; [|reflexivity].
  intros (a & b & c & E). apply (f_equal of_string) in E.
  rewrite !of_string_app in E.
  pose proof (has_infix_complete (of_string "<" ++ of_string "a.c" ++ of_string ">")
                (of_string a)
                (of_string b ++ (of_string "</" ++ of_string "a.c" ++ of_string ">")
                   ++ of_string c)) as Hin.
  rewrite <- E in Hin. vm_compute in Hin. done.
Qed.

(** The spec's scenario: both tags of a final text. *)
Example extract_summary_and_response :
  extract_xml_content "<summary>did X</summary><response>42</response>" "summary"
    = Some (Some "did X") /\
  extract_xml_content "<summary>did X</summary><response>42</response>" "response"
    = Some (Some "42").
Proof. split; reflexivity. Qed.

(** C2.  The final text has one list [ms] of occurrences of the response
    element (C3).  The score of a task is 1 exactly when there is a last
    occurrence and the expected answer is not empty and is, character by
    character, the content of that occurrence without its outer white space;
    it is 0 otherwise, also when there is no occurrence.  The answer given
    back as [actual] is that trimmed content, which is what extraction
    returns. *)
Theorem score_one_iff (qa_pair : string * string) (text : string)
    (tm : gmap string metrics) (duration : float) :
  let r := make_task_result qa_pair text tm duration in
  exists ms,
    ExtractSpec.occurrences (of_string "<response>") (of_string "</response>")
      (of_string text) ms /\
    (score r = 1%Z <->
       exists m, last ms = Some m /\ qa_pair.2 <> "" /\
                 ExtractSpec.trimmed m (of_string qa_pair.2)) /\
    (score r = 1%Z <->
       exists v, extract_xml_content text "response" = Some (Some v) /\
                 v <> "" /\ v = qa_pair.2) /\
    (score r <> 1%Z -> score r = 0%Z) /\
    (last ms = None -> score r = 0%Z /\ actual r = None) /\
    (forall m, last ms = Some m ->
       exists v, actual r = Some v /\ ExtractSpec.trimmed m (of_string v)) /\
    (extract_xml_content text "response" = Some None -> score r = 0%Z) /\
    actual r = default None (extract_xml_content text "response") /\
    expected r = qa_pair.2.
Proof.
  intros r. subst r.
  exists (findall (map PLit (of_string "response")) (of_string text)).
  split; [apply (occurrences_of_tag text "response")|].
  cbn [score actual expected make_task_result].
  rewrite (extract_literal _ _ literal_response).
  destruct (last _) as [m|]; cbn [default from_option id]; unfold compute_score.
  - assert (Ht : forall v : string,
               ExtractSpec.trimmed m (of_string v) <-> v = to_string (strip_chars m)).
    { intros v. split.
      - intros Hv%trimmed_unique. by rewrite <- (to_of_string v), Hv.
      - intros ->. rewrite of_to_string. apply trimmed_strip_chars. }
    split; [|split; [|split; [|split; [|split; [|split; [|split]]]]]]; try done.
    + split.
      * intros Hs. exists m. split; [done|]. repeat case_bool_decide; try done.
        split; [congruence|]. apply Ht. congruence.
      * intros (m' & [= <-] & Hne & Hm'%Ht).
        rewrite bool_decide_eq_false_2 by congruence. by rewrite bool_decide_eq_true_2.
    + split.
      * intros Hs. eexists. split; [done|]. by repeat case_bool_decide.
      * intros (v & [= <-] & Hne & Heq).
        rewrite bool_decide_eq_false_2 by done. by rewrite bool_decide_eq_true_2.
    + repeat case_bool_decide; done.
    + intros m' [= <-]. eexists. split; [done|]. by apply Ht.
  - split; [|split; [|split; [|split; [|split; [|split; [|split]]]]]]; try done.
    + split; [done | by intros (m & [=] & _)].
    + split; [done | by intros (v & [=] & _)].
Qed.

(** A run of C2: the engine wraps the answer in blanks. *)
Lemma score_one_iff_witness :
  score (make_task_result ("q", "42") "<response> 42 </response>" ∅ 0) = 1%Z /\
  score (make_task_result ("q", "42") "<response>4 2</response>" ∅ 0) = 0%Z.
Proof.
  split.
  - destruct (score_one_iff ("q", "42") "<response> 42 </response>" ∅ 0)
      as (ms & Hocc & Hiff & _).
    apply Hiff.
    assert (Hms : ms = [of_string " 42 "]).
    { apply (occurrences_functional _ _ _ _ _ Hocc).
      pose proof (occurrences_of_tag "<response> 42 </response>" "response") as H.
      vm_compute in H. exact H. }
    exists (of_string " 42 "). split; [by rewrite Hms|]. split; [done|].
    exists (of_string " "), (of_string " "). repeat split.
    + by repeat constructor.
    + by repeat constructor.
    + by intros x [= <-].
    + by intros x [= <-].
  - destruct (score_one_iff ("q", "42") "<response>4 2</response>" ∅ 0)
      as (_ & _ & _ & _ & Hzero & _).
    apply Hzero. vm_compute. discriminate.
Defined.

End ExtractFacts.

(** ** Child processes *)

Module OSFacts.
Import OS.

Lemma lookup_update_proc w pid f p :
  procs w !! pid = Some p -> procs (update_proc pid f w) !! pid = Some (f p).
Proof.
  intros E. unfold update_proc. rewrite E. simpl.
  apply list_lookup_insert_eq. by eapply lookup_lt_Some.
Qed.

Lemma lookup_update_proc_ne w pid pid' f :
  pid <> pid' -> procs (update_proc pid f w) !! pid' = procs w !! pid'.
Proof.
  intros Hne. unfold update_proc. destruct (procs w !! pid); [|done].
  simpl. by apply list_lookup_insert_ne.
Qed.

Lemma length_update_proc w pid f :
  length (procs (update_proc pid f w)) = length (procs w).
Proof.
  unfold update_proc. destruct (procs w !! pid); [|done]. simpl. apply length_insert.
Qed.

Lemma trace_update_proc w pid f : trace (update_proc pid f w) = trace w.
Proof. unfold update_proc. by destruct (procs w !! pid). Qed.

Lemma alive_Some w pid :
  alive w pid = true <-> exists p, procs w !! pid = Some p /\ state p = Running.
Proof.
  unfold alive, status_of. destruct (procs w !! pid) as [p|].
  - destruct (state p) eqn:E.
    + split; eauto.
    + split; [done|]. intros (q & [= <-] & Hq). congruence.
  - split; [done|]. intros (q & [=] & _).
Qed.


(** The status of every handle after an update of one process. *)
Lemma status_of_update_proc w pid f pid' :
  status_of (update_proc pid f w) pid' =
    if decide (pid = pid')
    then match procs w !! pid with Some p => state (f p) | None => Exited 0 end
    else status_of w pid'.
Proof.
  unfold status_of. case_decide as E.
  - subst. destruct (procs w !! pid') as [p|] eqn:Ep.
    + by rewrite (lookup_update_proc _ _ _ _ Ep).
    + unfold update_proc. by rewrite Ep, Ep.
  - by rewrite lookup_update_proc_ne.
Qed.

Lemma status_of_log e w pid : status_of (log e w) pid = status_of w pid.
Proof. reflexivity. Qed.

Lemma alive_log e w pid : alive (log e w) pid = alive w pid.
Proof. reflexivity. Qed.

Lemma status_of_set_state w pid st pid' :
  pid < length (procs w) ->
  status_of (update_proc pid (set_state st) w) pid' =
    if decide (pid = pid') then st else status_of w pid'.
Proof.
  intros Hlt. rewrite status_of_update_proc. case_decide; [|done].
  destruct (lookup_lt_is_Some_2 (procs w) pid Hlt) as [p ->]. done.
Qed.

Lemma status_of_Running_lt w pid : status_of w pid = Running -> pid < length (procs w).
Proof.
  unfold status_of. destruct (procs w !! pid) eqn:E; [|done].
  intros _. by eapply lookup_lt_Some.
Qed.

Lemma poll_eq pid w :
  poll pid w = (Ret (match status_of w pid with
                     | Running => None
                     | Exited rc => Some rc
                     end), w).
Proof. unfold poll. by destruct (status_of w pid). Qed.

Lemma terminate_eq pid w :
  terminate pid w =
    (Ret tt,
     if alive w pid && honours_sigterm w pid
     then update_proc pid (set_state (Exited (-15))) (log (EvTerminate pid) w)
     else log (EvTerminate pid) w).
Proof.
  unfold terminate, alive, honours_sigterm, status_of.
  destruct (procs w !! pid) as [p|]; [|done].
  destruct (state p); [|done]. by destruct (exits_on_sigterm (prog p)).
Qed.

Lemma kill_eq pid w :
  kill pid w =
    (Ret tt,
     if alive w pid
     then update_proc pid (set_state (Exited (-9))) (log (EvKill pid) w)
     else log (EvKill pid) w).
Proof. unfold kill, alive. by destruct (status_of w pid). Qed.

Lemma stop_process_spec (handle : option nat) (w : World) :
  exists w', stop_process handle w = (Ret tt, w') /\ after_stop w handle w'.
Proof.
  destruct handle as [pid|]; [|by eexists].
  unfold stop_process, after_stop, bind. rewrite poll_eq. unfold alive at 2.
  destruct (status_of w pid) eqn:Hst; cbv beta iota zeta.
  2:{ eexists. split; [done|]. unfold alive. by rewrite Hst. }
  pose proof (status_of_Running_lt _ _ Hst) as Hlt.
  assert (Ha : alive w pid = true) by (unfold alive; by rewrite Hst).
  rewrite terminate_eq, Ha. cbv beta iota zeta.
  destruct (honours_sigterm w pid) eqn:Hg; unfold try_catch, bind, wait, ret;
    cbn [andb].
  - rewrite status_of_set_state, decide_True by done. cbv beta iota zeta.
    eexists. split; [done|]. unfold alive.
    rewrite status_of_log, status_of_set_state, decide_True by done.
    repeat split.
    + intros pid' Hne.
      by rewrite status_of_log, status_of_set_state, decide_False, status_of_log.
    + cbn [procs log]. by rewrite length_update_proc.
    + cbn [trace log]. rewrite trace_update_proc. cbn [trace log].
      by rewrite <- app_assoc.
  - rewrite status_of_log, Hst. cbn [is_TimeoutExpired]. cbv beta iota zeta.
    rewrite kill_eq, !alive_log, Ha. cbv beta iota zeta.
    rewrite status_of_set_state, decide_True by done. cbv beta iota zeta.
    eexists. split; [done|]. unfold alive.
    rewrite status_of_log, status_of_set_state, decide_True by done.
    repeat split.
    + intros pid' Hne.
      by rewrite status_of_log, status_of_set_state, decide_False, !status_of_log.
    + cbn [procs log]. by rewrite length_update_proc.
    + cbn [trace log]. rewrite trace_update_proc. cbn [trace log].
      by rewrite <- !app_assoc.
Qed.

End OSFacts.

(** ** [StdioConnection]: one child at a time *)

Module ChannelFacts.
Import OS OSFacts StdioConnection Channel.

Lemma needs_start_false self w :
  needs_start self w = false <-> exists pid, _process self = Some pid /\ alive w pid = true.
Proof.
  unfold needs_start. destruct (_process self) as [pid|].
  - destruct (alive w pid) eqn:E; simpl; split; eauto; try done.
    intros (pid' & [= <-] & Ha). congruence.
  - split; [done|]. intros (pid & [=] & _).
Qed.

(** [_ensure_running], by cases. *)
Lemma ensure_running_eq self w :
  _ensure_running (self, w) =
    if needs_start self w then
      match exec w (command self :: args self) (merged_env (env self) w) (working_dir self) with
      | Some pr =>
          (Ret tt,
           (set_process (Some (length (procs w))) self,
            spawn (command self :: args self) (merged_env (env self) w)
                  (working_dir self) pr w))
      | None => (Raise (OSError "Popen"), (self, w))
      end
    else (Ret tt, (self, w)).
Proof.
  unfold _ensure_running, needs_start, bind, gets, on_snd, modify, ret. cbn [fst snd].
  destruct (_process self) as [pid|]; cbv beta iota zeta.
  - rewrite poll_eq. unfold alive. destruct (status_of w pid); cbn; [done|].
    unfold Popen. by destruct (exec w _ _ _).
  - unfold Popen. by destruct (exec w _ _ _).
Qed.












Lemma stop_eq self w :
  exists w', stop (self, w) = (Ret tt, (set_process None self, w')) /\
             after_stop w (_process self) w'.
Proof.
  destruct (stop_process_spec (_process self) w) as (w' & E & Hw').
  exists w'. split; [|done].
  unfold stop, bind, gets, on_snd, modify. cbn [fst snd]. by rewrite E.
Qed.





End ChannelFacts.

(** ** Stopping, starting and calling over the pipes *)

Module LifecycleFacts.
Import OS OSFacts ChannelFacts.

Lemma tool_caller_stop_eq (self : ToolCaller.t) w :
  exists w', ToolCaller.stop (self, w) = (Ret tt, (ToolCaller.set_process None self, w')) /\
             after_stop w (ToolCaller._process self) w'.
Proof.
  destruct (stop_process_spec (ToolCaller._process self) w) as (w' & E & Hw').
  exists w'. split; [|done].
  unfold ToolCaller.stop, bind, gets, on_snd, modify. cbn [fst snd]. by rewrite E.
Qed.

(** C8.  [stop] of [StdioConnection] and of [ToolCaller], in every state:
    it returns normally and the connection holds no handle afterwards; the
    world is as [after_stop] says: untouched when the child has exited (or
    there is none), else the termination signal, a wait of 5 seconds and,
    for a child that does not honour the signal, the kill and a wait for
    its exit. *)
Theorem stop_returns_and_clears_handle :
  (forall (self : StdioConnection.t) (w : World),
     exists self' w',
       StdioConnection.stop (self, w) = (Ret tt, (self', w')) /\
       StdioConnection._process self' = None /\
       after_stop w (StdioConnection._process self) w') /\
  (forall (self : ToolCaller.t) (w : World),
     exists self' w',
       ToolCaller.stop (self, w) = (Ret tt, (self', w')) /\
       ToolCaller._process self' = None /\
       after_stop w (ToolCaller._process self) w').
Proof.
  split; intros self w.
  - destruct (stop_eq self w) as (w' & E & Hw'). eauto 10.
  - destruct (tool_caller_stop_eq self w) as (w' & E & Hw'). eauto 10.
Qed.

(** [stop] on a child deaf to the termination signal, and [stop] again. *)
Example stop_stubborn_child :
  let s1 := (ToolCaller.start (ToolCaller.__init__ "stubborn" None, Demo.world)).2 in
  let r2 := ToolCaller.stop s1 in
  let r3 := ToolCaller.stop r2.2 in
  r2.1 = Ret tt /\
  trace r2.2.2 = [EvPopen 0; EvTerminate 0; EvWait 0 (Some 5%Z); EvKill 0; EvWait 0 None] /\
  alive r2.2.2 0 = false /\
  r3 = (Ret tt, r2.2).
Proof. vm_compute. repeat split. Qed.





(** C7, as stated, fails for [ServerRunner.run]: a runner entered twice,
    the second time inside the first, has two running children while the
    inner body runs; the inner exit ends the second one and clears the
    handle, so that the first one still runs when both are left, and
    nothing holds it. *)
Lemma server_runner_two_live_children :
  let runner := ServerRunner.__init__ "adder" None None None in
  let live : M (ServerRunner.t * World) (list nat) :=
    gets (fun s => Channel.live_children Demo.world s.2) in
  let out := ServerRunner.with_run (fun _ => ServerRunner.with_run (fun _ => live))
               (runner, Demo.world) in
  out.1 = Ret [0; 1] /\
  ServerRunner._process out.2.1 = None /\
  Channel.live_children Demo.world out.2.2 = [0].
Proof. vm_compute. repeat split. Qed.

Lemma write_then_read pid request w p :
  procs w !! pid = Some p -> state p = Running ->
  bind (write_line pid request) (fun _ => read_json pid) w =
    (loads (reply (prog p) (stdin_log p ++ [request])), exchanged pid request w).
Proof.
  intros Ep Es. unfold bind, write_line, read_json, exchanged.
  assert (status_of w pid = Running) as -> by (unfold status_of; by rewrite Ep).
  cbn [procs log]. rewrite (lookup_update_proc _ _ _ _ Ep). cbn [state push_stdin].
  rewrite Es. cbn [prog stdin_log]. by destruct (loads _).
Qed.

Lemma stdio_exchange_live (self : StdioConnection.t) w pid p request :
  StdioConnection._process self = Some pid ->
  procs w !! pid = Some p -> state p = Running ->
  StdioConnection.exchange request (self, w) =
    (loads (reply (prog p) (stdin_log p ++ [request])), (self, exchanged pid request w)).
Proof.
  intros Hh Ep Es. pose proof (write_then_read pid request w p Ep Es) as E.
  unfold StdioConnection.exchange, bind, gets, on_snd in *. cbn [fst snd].
  rewrite Hh. cbv beta iota zeta.
  destruct (write_line pid request w) as [[[]| | |] w1]; cbv beta iota zeta in *;
    try (injection E as <- <-; done).
  destruct (read_json pid w1). by injection E as <- <-.
Qed.

Lemma tool_caller_exchange_live (self : ToolCaller.t) w pid p request :
  ToolCaller._process self = Some pid ->
  procs w !! pid = Some p -> state p = Running ->
  ToolCaller.exchange request (self, w) =
    (loads (reply (prog p) (stdin_log p ++ [request])), (self, exchanged pid request w)).
Proof.
  intros Hh Ep Es. pose proof (write_then_read pid request w p Ep Es) as E.
  unfold ToolCaller.exchange, bind, gets, on_snd in *. cbn [fst snd].
  rewrite Hh. cbv beta iota zeta.
  destruct (write_line pid request w) as [[[]| | |] w1]; cbv beta iota zeta in *;
    try (injection E as <- <-; done).
  destruct (read_json pid w1). by injection E as <- <-.
Qed.

Lemma script_exchange_live (self : Evaluation.ScriptBasedToolCaller.t) w pid p request :
  Evaluation.ScriptBasedToolCaller._process self = Some pid ->
  procs w !! pid = Some p -> state p = Running ->
  Evaluation.ScriptBasedToolCaller.exchange request (self, w) =
    (loads (reply (prog p) (stdin_log p ++ [request])), (self, exchanged pid request w)).
Proof.
  intros Hh Ep Es. pose proof (write_then_read pid request w p Ep Es) as E.
  unfold Evaluation.ScriptBasedToolCaller.exchange, bind, gets, on_snd in *.
  cbn [fst snd]. rewrite Hh. cbv beta iota zeta.
  destruct (write_line pid request w) as [[[]| | |] w1]; cbv beta iota zeta in *;
    try (injection E as <- <-; done).
  destruct (read_json pid w1). by injection E as <- <-.
Qed.

Lemma send_tool_call_live (self : ServerRunner.t) w pid p tool_name args :
  ServerRunner._process self = Some pid ->
  procs w !! pid = Some p -> state p = Running ->
  ServerRunner.send_tool_call tool_name args (self, w) =
    (loads (reply (prog p) (stdin_log p ++ [call_tool_request tool_name args])),
     (self, exchanged pid (call_tool_request tool_name args) w)).
Proof.
  intros Hh Ep Es.
  pose proof (write_then_read pid (call_tool_request tool_name args) w p Ep Es) as E.
  unfold ServerRunner.send_tool_call, bind, gets, on_snd in *. cbn [fst snd].
  rewrite Hh. cbv beta iota zeta.
  destruct (write_line pid _ w) as [[[]| | |] w1]; cbv beta iota zeta in *;
    try (injection E as <- <-; done).
  destruct (read_json pid w1). by injection E as <- <-.
Qed.

(** The outcome of a call whose reply line decodes to [j], where the reply
    is checked for the key ["error"]. *)
Lemma bind_raise_on_error {S} (m : M S json) s j s' :
  m s = (Ret j, s') ->
  bind m raise_on_error s =
    (match error_of j with Some v => Raise (RuntimeError v) | None => Ret j end, s').
Proof. intros E. unfold bind, raise_on_error. rewrite E. by destruct (error_of j). Qed.

Lemma stdio_call_tool_live (self : StdioConnection.t) w pid p tool_name args :
  StdioConnection._process self = Some pid ->
  procs w !! pid = Some p -> state p = Running ->
  StdioConnection.call_tool tool_name args (self, w) =
    bind (StdioConnection.exchange (call_tool_request tool_name args)) raise_on_error (self, w).
Proof.
  intros Hh Ep Es. unfold StdioConnection.call_tool. unfold bind at 1.
  rewrite ensure_running_eq.
  assert (Channel.needs_start self w = false) as ->; [|done].
  apply needs_start_false. exists pid. split; [done|]. apply alive_Some. eauto.
Qed.

(** C1, as amended.  When the running child answers a call with a line that
    decodes to [j]: [StdioConnection.call_tool] and
    [ScriptBasedToolCaller.call_tool] raise [RuntimeError] built from the
    value under ["error"] when [j] is a mapping with that key, and return
    [j] itself otherwise; [ToolCaller.call_tool] and
    [ServerRunner.send_tool_call] make no such check and return [j] itself in
    every case. *)
Theorem error_reply_raises_where_checked (w : World) (pid : nat) (p : process)
    (tool_name : string) (args j : json) :
  procs w !! pid = Some p -> state p = Running ->
  reply (prog p) (stdin_log p ++ [call_tool_request tool_name args]) = Value j ->
  let checked := match error_of j with
                 | Some v => Raise (RuntimeError v)
                 | None => Ret j
                 end in
  (forall self, StdioConnection._process self = Some pid ->
     (StdioConnection.call_tool tool_name args (self, w)).1 = checked) /\
  (forall self, Evaluation.ScriptBasedToolCaller._process self = Some pid ->
     (Evaluation.ScriptBasedToolCaller.call_tool tool_name args (self, w)).1 = checked) /\
  (forall self, ToolCaller._process self = Some pid ->
     (ToolCaller.call_tool tool_name args (self, w)).1 = Ret j) /\
  (forall self, ServerRunner._process self = Some pid ->
     (ServerRunner.send_tool_call tool_name args (self, w)).1 = Ret j).
Proof.
  intros Ep Es Hj checked. subst checked. repeat split; intros self Hh.
  - rewrite (stdio_call_tool_live _ _ _ _ _ _ Hh Ep Es).
    erewrite bind_raise_on_error; [done|].
    rewrite (stdio_exchange_live _ _ _ _ _ Hh Ep Es), Hj. done.
  - unfold Evaluation.ScriptBasedToolCaller.call_tool.
    erewrite bind_raise_on_error; [done|].
    rewrite (script_exchange_live _ _ _ _ _ Hh Ep Es), Hj. done.
  - unfold ToolCaller.call_tool.
    rewrite (tool_caller_exchange_live _ _ _ _ _ Hh Ep Es), Hj. done.
  - rewrite (send_tool_call_live _ _ _ _ _ _ Hh Ep Es), Hj. done.
Qed.

(** A run of C1's theorem on the adder, asked for a tool it does not have. *)
Lemma error_reply_raises_where_checked_witness :
  (StdioConnection.call_tool "mul" Demo.add_args (Demo.stdio_1.1, Demo.stdio_1.2)).1
    = Raise (RuntimeError (JStr "bad args")) /\
  (ToolCaller.call_tool "mul" Demo.add_args
     ({| ToolCaller.server_command := "adder"; ToolCaller.server_args := [];
         ToolCaller._process := Some 0 |}, Demo.stdio_1.2)).1
    = Ret (JDict [("error", JStr "bad args")]).
Proof.
  pose (p := {| argv := ["adder"];
                environ := merged_env {[ "LANG" := "fr" ]} Demo.world;
                cwd := None; prog := Demo.adder; state := Running;
                stdin_log := [call_tool_request "add" Demo.add_args] |}).
  assert (Ep : procs Demo.stdio_1.2 !! 0 = Some p) by (vm_compute; reflexivity).
  destruct (error_reply_raises_where_checked Demo.stdio_1.2 0 p "mul" Demo.add_args
              (JDict [("error", JStr "bad args")]) Ep eq_refl eq_refl)
    as (Hstdio & _ & Htc & _).
  split.
  - apply (Hstdio Demo.stdio_1.1). vm_compute; reflexivity.
  - apply Htc. reflexivity.
Defined.

(** C1, as stated, fails for [ToolCaller]: the child answers with a mapping
    that has the key ["error"], and [call_tool] returns that mapping. *)
Lemma tool_caller_returns_error_reply :
  let s := (ToolCaller.start (ToolCaller.__init__ "adder" None, Demo.world)).2 in
  Demo.adder_reply [call_tool_request "mul" Demo.add_args]
    = Value (JDict [("error", JStr "bad args")]) /\
  (ToolCaller.call_tool "mul" Demo.add_args s).1 = Ret (JDict [("error", JStr "bad args")]) /\
  (ToolCaller.call_tool "mul" Demo.add_args s).1 <> Raise (RuntimeError (JStr "bad args")).
Proof. vm_compute. repeat split. discriminate. Qed.

(** The spec's scenario: the adder answers [add] with [{"result": 3}]. *)
Example call_tool_add :
  (StdioConnection.call_tool "add" Demo.add_args Demo.stdio_0).1
    = Ret (JDict [("result", JInt 3)]).
Proof. vm_compute. reflexivity. Qed.

Lemma exchanged_spawn av env wd pr w request :
  let pid := length (procs w) in
  let w' := exchanged pid request (spawn av env wd pr w) in
  trace w' = trace w ++ [EvPopen pid; EvWrite pid request; EvReadline pid] /\
  procs w' = procs w ++ [{| argv := av; environ := env; cwd := wd; prog := pr;
                            state := Running; stdin_log := [request] |}].
Proof.
  intros pid w'. subst pid w'. unfold exchanged, spawn, update_proc.
  cbn [procs log set_procs trace]. rewrite lookup_app_r, Nat.sub_diag by done.
  cbn [lookup list_lookup procs set_procs trace log]. split.
  - by rewrite <- !app_assoc.
  - rewrite insert_app_r_alt, Nat.sub_diag by done. done.
Qed.

(** C10.  [list_tools] and [call_tool] of [StdioConnection] begin with
    [_ensure_running].  With no child, or with one that has exited, and a
    command that can be started: one process is started, the request is the
    first line written to it, and the call ends as the reply of the new
    child decides.  With a running child the request goes to that child and
    nothing is started. *)
Theorem calls_ensure_a_running_child :
  (forall (self : StdioConnection.t) (w : World) (pr : program),
     Channel.needs_start self w = true ->
     exec w (StdioConnection.command self :: StdioConnection.args self)
            (merged_env (StdioConnection.env self) w)
            (StdioConnection.working_dir self) = Some pr ->
     let pid := length (procs w) in
     let self' := StdioConnection.set_process (Some pid) self in
     let started :=
       {| argv := StdioConnection.command self :: StdioConnection.args self;
          environ := merged_env (StdioConnection.env self) w;
          cwd := StdioConnection.working_dir self; prog := pr;
          state := Running; stdin_log := [] |} in
     (exists w',
        StdioConnection.list_tools (self, w)
          = (loads (reply pr [list_tools_request]), (self', w')) /\
        trace w' = trace w ++ [EvPopen pid; EvWrite pid list_tools_request; EvReadline pid] /\
        procs w' = procs w ++ [push_stdin list_tools_request started]) /\
     (forall tool_name arguments,
        let request := call_tool_request tool_name arguments in
        exists w',
          StdioConnection.call_tool tool_name arguments (self, w)
            = (match loads (reply pr [request]) with
               | Ret j => match error_of j with
                          | Some v => Raise (RuntimeError v)
                          | None => Ret j
                          end
               | o => o
               end, (self', w')) /\
          trace w' = trace w ++ [EvPopen pid; EvWrite pid request; EvReadline pid] /\
          procs w' = procs w ++ [push_stdin request started])) /\
  (forall (self : StdioConnection.t) (w : World) (pid : nat) (p : process),
     StdioConnection._process self = Some pid ->
     procs w !! pid = Some p -> state p = Running ->
     StdioConnection.list_tools (self, w)
       = (loads (reply (prog p) (stdin_log p ++ [list_tools_request])),
          (self, exchanged pid list_tools_request w)) /\
     forall tool_name arguments,
       let request := call_tool_request tool_name arguments in
       StdioConnection.call_tool tool_name arguments (self, w)
         = (match loads (reply (prog p) (stdin_log p ++ [request])) with
            | Ret j => match error_of j with
                       | Some v => Raise (RuntimeError v)
                       | None => Ret j
                       end
            | o => o
            end, (self, exchanged pid request w))).
Proof.
  split.
  - intros self w pr Hn Hexec pid self' started.
    set (w1 := spawn (StdioConnection.command self :: StdioConnection.args self)
                 (merged_env (StdioConnection.env self) w)
                 (StdioConnection.working_dir self) pr w).
    assert (Hens : StdioConnection._ensure_running (self, w) = (Ret tt, (self', w1))).
    { rewrite ensure_running_eq, Hn, Hexec. done. }
    assert (Ep : procs w1 !! pid = Some started).
    { subst w1 pid. unfold spawn. cbn [procs log set_procs].
      by rewrite lookup_app_r, Nat.sub_diag. }
    assert (Hex : forall request,
               StdioConnection.exchange request (self', w1)
               = (loads (reply pr [request]), (self', exchanged pid request w1))).
    { intros request.
      by rewrite (stdio_exchange_live self' w1 pid started request eq_refl Ep eq_refl). }
    split.
    + exists (exchanged pid list_tools_request w1).
      split; [|apply exchanged_spawn].
      unfold StdioConnection.list_tools, bind. by rewrite Hens, Hex.
    + intros tool_name arguments request. subst request.
      exists (exchanged pid (call_tool_request tool_name arguments) w1).
      split; [|apply exchanged_spawn].
      unfold StdioConnection.call_tool. unfold bind at 1. rewrite Hens.
      unfold bind, raise_on_error, raise, ret. rewrite Hex.
      destruct (loads (reply pr _)) as [j| | |]; try done.
      by destruct (error_of j).
  - intros self w pid p Hh Ep Es. split.
    + unfold StdioConnection.list_tools, bind. rewrite ensure_running_eq.
      assert (Channel.needs_start self w = false) as ->.
      { apply needs_start_false. exists pid. split; [done|]. apply alive_Some. eauto. }
      by rewrite (stdio_exchange_live _ _ _ _ _ Hh Ep Es).
    + intros tool_name arguments request. subst request.
      rewrite (stdio_call_tool_live _ _ _ _ _ _ Hh Ep Es).
      unfold bind, raise_on_error, raise, ret.
      rewrite (stdio_exchange_live _ _ _ _ _ Hh Ep Es).
      destruct (loads _) as [j| | |]; try done. by destruct (error_of j).
Qed.

(** The calls over a pipe raise nothing but exceptions of class [Exception]:
    a failed start, a broken pipe, an undecodable line, a missing handle, an
    error reply. *)
Lemma write_then_read_Exception pid request w e :
  (bind (write_line pid request) (fun _ => read_json pid) w).1 = Raise e ->
  is_Exception e = true.
Proof.
  unfold bind, write_line. destruct (status_of w pid); cbv beta iota zeta.
  - unfold read_json. destruct (procs _ !! pid) as [p|].
    + destruct (state p).
      * destruct (reply (prog p) (stdin_log p)); cbn [loads fst]; try done.
        by intros [= <-].
      * cbn [fst]. by intros [= <-].
    + cbn [fst]. by intros [= <-].
  - cbn [fst]. by intros [= <-].
Qed.

Lemma process_calls_raise_Exceptions tool_name args e :
  (forall s, (StdioConnection.call_tool tool_name args s).1 = Raise e ->
             is_Exception e = true) /\
  (forall s, (ToolCaller.call_tool tool_name args s).1 = Raise e ->
             is_Exception e = true) /\
  (forall s, (Evaluation.ScriptBasedToolCaller.call_tool tool_name args s).1 = Raise e ->
             is_Exception e = true).
Proof.
  assert (Hre : forall S (j : json) (s : S), (raise_on_error j s).1 = Raise e ->
                                             is_Exception e = true).
  { intros S j s. unfold raise_on_error. destruct (error_of j); [|done].
    by intros [= <-]. }
  split; [|split]; intros [self w].
  - unfold StdioConnection.call_tool. unfold bind at 1. rewrite ensure_running_eq.
    set (self1 := StdioConnection.set_process _ self).
    assert (Hex : forall self0 w0,
               (bind (StdioConnection.exchange (call_tool_request tool_name args))
                     raise_on_error (self0, w0)).1 = Raise e -> is_Exception e = true).
    { intros self0 w0. unfold bind at 1.
      destruct (StdioConnection.exchange _ (self0, w0)) as [[j|e'| |] s1] eqn:Ee;
        cbn [fst]; try done; [apply Hre|].
      intros [= ->]. revert Ee.
      unfold StdioConnection.exchange, bind at 1, gets, on_snd. cbn [fst snd].
      destruct (StdioConnection._process self0) as [pid|]; [|by intros [= <- _]].
      pose proof (write_then_read_Exception pid (call_tool_request tool_name args) w0 e) as Hw.
      unfold bind in *.
      destruct (write_line pid _ w0) as [[[]|e'| |] w1]; cbn [fst] in *.
      - destruct (read_json pid w1) as [o w2]. cbn [fst] in Hw.
        intros [= -> _]. by apply Hw.
      - intros [= -> _]. by apply Hw.
      - done.
      - done. }
    destruct (Channel.needs_start self w); [|apply Hex].
    destruct (exec w _ _ _); [apply Hex|]. by intros [= <-].
  - unfold ToolCaller.call_tool, ToolCaller.exchange, bind at 1, gets, on_snd.
    cbn [fst snd].
    destruct (ToolCaller._process self) as [pid|]; [|by intros [= <-]].
    pose proof (write_then_read_Exception pid (call_tool_request tool_name args) w e) as Hw.
    unfold bind in *.
    destruct (write_line pid _ w) as [[[]|e'| |] w1]; cbn [fst] in *; try done.
    destruct (read_json pid w1) as [o w2]. cbn [fst] in *. exact Hw.
  - unfold Evaluation.ScriptBasedToolCaller.call_tool. unfold bind at 1.
    destruct (Evaluation.ScriptBasedToolCaller.exchange _ (self, w)) as [[j|e'| |] s1] eqn:Ee;
      cbn [fst]; try done; [apply Hre|].
    intros [= ->]. revert Ee.
    unfold Evaluation.ScriptBasedToolCaller.exchange, bind at 1, gets, on_snd.
    cbn [fst snd].
    destruct (Evaluation.ScriptBasedToolCaller._process self) as [pid|];
      [|by intros [= <- _]].
    pose proof (write_then_read_Exception pid (call_tool_request tool_name args) w e) as Hw.
    unfold bind in *.
    destruct (write_line pid _ w) as [[[]|e'| |] w1]; cbn [fst] in *; try done.
    + destruct (read_json pid w1) as [o w2]. cbn [fst] in Hw.
      intros [= -> _]. by apply Hw.
    + intros [= -> _]. by apply Hw.
Qed.

(** A run of C10's theorem: [list_tools] on a connection whose child has
    died starts the adder again and asks the new child. *)
Lemma calls_ensure_a_running_child_witness :
  Channel.needs_start Demo.stdio_2.1 Demo.stdio_2.2 = true /\
  exists w',
    StdioConnection.list_tools (Demo.stdio_2.1, Demo.stdio_2.2)
      = (Ret (JList [JDict [("name", JStr "add")]]),
         (StdioConnection.set_process (Some 1) Demo.stdio_2.1, w')) /\
    trace w' = trace Demo.stdio_2.2
                 ++ [EvPopen 1; EvWrite 1 list_tools_request; EvReadline 1].
Proof.
  assert (Hn : Channel.needs_start Demo.stdio_2.1 Demo.stdio_2.2 = true)
    by (vm_compute; reflexivity).
  split; [exact Hn|].
  destruct (proj1 calls_ensure_a_running_child Demo.stdio_2.1 Demo.stdio_2.2
              Demo.adder Hn eq_refl) as [(w' & Hl & Ht & _) _].
  exists w'. split.
  - rewrite Hl. f_equal.
  - rewrite Ht. reflexivity.
Defined.

(** [ToolCaller] makes no such attempt: on a child that has exited the
    write fails, and without a child the call is refused. *)
Example tool_caller_dead_channel :
  let s1 := (ToolCaller.start (ToolCaller.__init__ "adder" None, Demo.world)).2 in
  let s2 := (s1.1, Channel.child_exits 0 1 s1.2) in
  (ToolCaller.call_tool "add" Demo.add_args s2).1 = Raise BrokenPipeError /\
  (ToolCaller.call_tool "add" Demo.add_args (ToolCaller.stop s2).2).1
    = Raise (RuntimeError (JStr "Server not running. Call start() first.")).
Proof. vm_compute. split; reflexivity. Qed.

End LifecycleFacts.

(** ** Sequencing *)

Module MonadFacts.

Lemma bind_Ret {S A B} (m : M S A) (k : A -> M S B) s a s' :
  m s = (Ret a, s') -> bind m k s = k a s'.
Proof. intros E. unfold bind. by rewrite E. Qed.

Lemma bind_Ret_inv {S A B} (m : M S A) (k : A -> M S B) s b s'' :
  bind m k s = (Ret b, s'') ->
  exists a s', m s = (Ret a, s') /\ k a s' = (Ret b, s'').
Proof. unfold bind. destruct (m s) as [[a| | |] s']; try done. eauto. Qed.


End MonadFacts.

(** ** The agent loop *)

Module AgentLoopFacts.
Import OS Evaluation MonadFacts.

Lemma record_call_lookup tool_name d tm :
  record_call tool_name d tm !! tool_name =
    Some (match tm !! tool_name with
          | Some m => {| count := count m + 1; durations := durations m ++ [d] |}
          | None => {| count := 0 + 1; durations := [] ++ [d] |}
          end).
Proof.
  unfold record_call. rewrite lookup_alter_eq.
  destruct (tm !! tool_name) as [m|] eqn:E.
  - by rewrite E.
  - by rewrite lookup_insert_eq.
Qed.

Lemma record_call_lookup_ne tool_name d tm other :
  tool_name <> other -> record_call tool_name d tm !! other = tm !! other.
Proof.
  intros Hne. unfold record_call. rewrite lookup_alter_ne by done.
  destruct (tm !! tool_name); [done|]. by rewrite lookup_insert_ne.
Qed.

Lemma metrics_ok_empty : metrics_ok ∅.
Proof. intros n m. by rewrite lookup_empty. Qed.

Lemma record_call_ok tool_name d tm :
  metrics_ok tm -> metrics_ok (record_call tool_name d tm).
Proof.
  intros Hok n m. destruct (decide (tool_name = n)) as [<-|Hne].
  - rewrite record_call_lookup. intros [= <-].
    destruct (tm !! tool_name) as [m0|] eqn:E; cbn [count durations].
    + destruct (Hok _ _ E) as [Hc Hl]. rewrite length_app. simpl. lia.
    + simpl. lia.
  - rewrite record_call_lookup_ne by done. apply Hok.
Qed.

Lemma sum_durations_insert tool_name m tm :
  tm !! tool_name = None ->
  sum_durations (<[tool_name := m]> tm) = length (durations m) + sum_durations tm.
Proof.
  intros E. unfold sum_durations. rewrite map_fold_insert_L; [done| |done].
  intros. lia.
Qed.

Lemma record_call_sum tool_name d tm :
  sum_durations (record_call tool_name d tm) = S (sum_durations tm).
Proof.
  unfold record_call. destruct (tm !! tool_name) as [m|] eqn:E.
  - rewrite <- (insert_delete_id tm tool_name m E) at 2.
    rewrite <- (insert_delete_id tm tool_name m E) at 1.
    rewrite alter_insert_eq.
    rewrite !sum_durations_insert by apply lookup_delete_eq.
    cbn [durations]. rewrite length_app. simpl. lia.
  - rewrite alter_insert_eq, sum_durations_insert by done. simpl. done.
Qed.

Lemma next_tool_use_first bs id name input :
  next_tool_use bs = Some (id, name, input) ->
  exists pre post,
    bs = pre ++ ToolUseBlock id name input :: post /\
    Forall (fun b => is_tool_use b = false) pre.
Proof.
  induction bs as [|b bs IH]; [done|]. simpl.
  destruct b as [text|id' name' input'|type].
  - intros (pre & post & -> & Hpre)%IH. exists (TextBlock text :: pre), post.
    split; [done|]. by constructor.
  - intros [= -> -> ->]. exists [], bs. split; [done|]. constructor.
  - intros (pre & post & -> & Hpre)%IH. exists (OtherBlock type :: pre), post.
    split; [done|]. by constructor.
Qed.

Lemma next_tool_use_None bs :
  next_tool_use bs = None <-> Forall (fun b => is_tool_use b = false) bs.
Proof.
  induction bs as [|b bs IH]; simpl.
  - split; [constructor | done].
  - destruct b; simpl.
    + rewrite IH. split; [by constructor | by inversion 1].
    + split; [done | by inversion 1].
    + rewrite IH. split; [by constructor | by inversion 1].
Qed.

Section Loop.

Context (json_dumps : json -> string) (str : json -> string)
        (str_exn : exn -> string) (format_exc : exn -> string).
Context {T : Type} `{ConnectionBase T}.

Local Abbreviation invoke_tool := (invoke_tool json_dumps str str_exn format_exc).
Local Abbreviation loop_body := (loop_body json_dumps str str_exn format_exc).
Local Abbreviation while_tool_use := (while_tool_use json_dumps str str_exn format_exc).
Local Abbreviation agent_loop := (agent_loop json_dumps str str_exn format_exc).
Local Abbreviation evaluate_single_task :=
  (evaluate_single_task json_dumps str str_exn format_exc).
Local Abbreviation error_text := (error_text str_exn format_exc).

(** The text that a finished invocation feeds back. *)
Definition fed_back (tool_name : string) (r : outcome json) : option string :=
  match r with
  | Ret v => Some (if is_container v then json_dumps v else str v)
  | Raise e => if is_Exception e then Some (error_text tool_name e) else None
  | _ => None
  end.

(** [invoke_tool], from the outcome of [call_tool]. *)
Lemma invoke_tool_eq tool_name tool_input (tc : T) w c :
  invoke_tool tool_name tool_input ((tc, w), c) =
    let r := call_tool tool_name tool_input (tc, w) in
    (match fed_back tool_name r.1 with
     | Some text => Ret text
     | None => match r.1 with
               | Raise e => Raise e
               | Hang => Hang
               | _ => MoreFuel
               end
     end, (r.2, c)).
Proof.
  unfold Evaluation.invoke_tool, try_catch, bind, on_tool_caller, on_fst, ret, fed_back.
  destruct (call_tool tool_name tool_input (tc, w)) as [[v|e| |] s1]; cbn [fst snd];
    try done.
  by destruct (is_Exception e).
Qed.


Lemma invoke_tool_client tool_name tool_input s :
  (invoke_tool tool_name tool_input s).2.2 = s.2.
Proof. destruct s as [[tc w] c]. by rewrite invoke_tool_eq. Qed.

(** The conversation and the figures after one pass, when the tool-use block
    [(id, name, input)] was served with [text] between the clock readings
    [t0] and [t1] and the engine then answered [r]. *)
Definition next_state (st : loop_state) (id name : string) (input : json)
    (text : string) (t0 t1 : float) (r : response) : loop_state :=
  let msgs := messages st ++ [tool_result_message id text] in
  {| messages := msgs ++ [assistant_message r];
     last_response := r;
     tool_metrics := record_call name (t1 - t0)%float (tool_metrics st);
     events := events st ++ [CallTool name input; Create msgs] |}.

(** One pass of the loop that returns, taken apart. *)
Lemma loop_body_Ret st (tc : T) w c st' s' :
  loop_body st ((tc, w), c) = (Ret st', s') ->
  exists id name input text tc1 w1,
    next_tool_use (content (last_response st)) = Some (id, name, input) /\
    invoke_tool name input ((tc, tick w), c) = (Ret text, ((tc1, w1), c)) /\
    engine c (engine_calls c) (messages st ++ [tool_result_message id text])
      = Ret (last_response st') /\
    st' = next_state st id name input text (clock w (ticks w)) (clock w1 (ticks w1))
            (last_response st') /\
    s' = ((tc1, tick w1), {| engine := engine c; engine_calls := S (engine_calls c) |}).
Proof.
  unfold Evaluation.loop_body.
  destruct (next_tool_use _) as [[[id name] input]|] eqn:En; [|done].
  unfold bind at 1. unfold on_os, on_fst, on_snd, time. cbv beta iota zeta.
  unfold bind at 1.
  pose proof (invoke_tool_client name input ((tc, tick w), c)) as Hc.
  destruct (invoke_tool name input ((tc, tick w), c)) as [[text| | |] [[tc1 w1] c1]]
    eqn:Ei; try done. cbn [fst snd] in Hc. subst c1.
  unfold bind, on_client, on_snd, messages_create, ret. cbv beta iota zeta.
  destruct (engine c (engine_calls c) _) as [r| | |] eqn:Er; try done.
  intros [= <- <-]. exists id, name, input, text, tc1, w1. by repeat split.
Qed.

(** One pass of the loop, from what the tool caller and the engine do. *)
Lemma loop_body_run st (tc : T) w c id name input text tc1 w1 :
  next_tool_use (content (last_response st)) = Some (id, name, input) ->
  invoke_tool name input ((tc, tick w), c) = (Ret text, ((tc1, w1), c)) ->
  loop_body st ((tc, w), c) =
    let s' := ((tc1, tick w1), {| engine := engine c; engine_calls := S (engine_calls c) |}) in
    match engine c (engine_calls c) (messages st ++ [tool_result_message id text]) with
    | Ret r => (Ret (next_state st id name input text (clock w (ticks w))
                       (clock w1 (ticks w1)) r), s')
    | Raise e => (Raise e, s')
    | Hang => (Hang, s')
    | MoreFuel => (MoreFuel, s')
    end.
Proof.
  intros En Ei. unfold Evaluation.loop_body. rewrite En.
  unfold bind at 1. unfold on_os, on_fst, on_snd, time. cbv beta iota zeta.
  unfold bind at 1. rewrite Ei.
  unfold bind, on_client, on_snd, messages_create, ret. cbv beta iota zeta.
  by destruct (engine c (engine_calls c) _).
Qed.


Lemma loop_body_engine st s st' s' :
  loop_body st s = (Ret st', s') -> engine s'.2 = engine s.2.
Proof.
  destruct s as [[tc w] c]. intros Hb.
  apply loop_body_Ret in Hb as (id & name & input & text & tc1 & w1 & _ & _ & _ & _ & ->).
  done.
Qed.

Lemma while_unfold fuel st :
  while_tool_use (S fuel) st =
    if bool_decide (stop_reason (last_response st) = "tool_use")
    then bind (loop_body st) (while_tool_use fuel)
    else ret st.
Proof. reflexivity. Qed.

(** What every returning pass preserves holds when the loop returns. *)
Lemma while_invariant (P : loop_state -> (T * World) * Client -> Prop) :
  (forall st s st' s', loop_body st s = (Ret st', s') -> P st s -> P st' s') ->
  forall fuel st s st' s',
    while_tool_use fuel st s = (Ret st', s') -> P st s -> P st' s'.
Proof.
  intros Hstep. induction fuel as [|fuel IH]; intros st s st' s'.
  - simpl. case_bool_decide; [done|]. by intros [= <- <-].
  - rewrite while_unfold. case_bool_decide; [|by intros [= <- <-]].
    intros (st1 & s1 & Hb & Hw)%bind_Ret_inv HP. eauto.
Qed.

Lemma while_engine fuel st s st' s' :
  while_tool_use fuel st s = (Ret st', s') -> engine s'.2 = engine s.2.
Proof.
  intros Hw.
  apply (while_invariant (fun _ s1 => engine s1.2 = engine s.2) ltac:(
           intros ???? Hb Hs; rewrite <- Hs; by eapply loop_body_engine)
           _ _ _ _ _ Hw eq_refl).
Qed.


Lemma loop_init_inv question s r s' :
  loop_init (T:=T) question s = (r, s') ->
  engine s'.2 = engine s.2 /\
  match r with
  | Ret st0 => tool_metrics st0 = ∅
  | Raise e => not_from_tool s.2 e
  | _ => True
  end.
Proof.
  destruct s as [[tc w] c].
  unfold loop_init, bind, on_client, on_snd, messages_create, ret. cbv beta iota zeta.
  destruct (engine c (engine_calls c) _) as [r0|e| |] eqn:E; intros [= <- <-];
    (split; [done|]); try done.
  right. right. eauto.
Qed.


Lemma agent_loop_metrics fuel question s text tm s' :
  agent_loop fuel question s = (Ret (text, tm), s') -> metrics_ok tm.
Proof.
  unfold Evaluation.agent_loop.
  intros (st0 & s0 & Hi & Hrest)%bind_Ret_inv.
  apply bind_Ret_inv in Hrest as (st1 & s1 & Hw & [= _ <-]).
  apply loop_init_inv in Hi as [_ Hi].
  apply (while_invariant (fun st _ => metrics_ok (tool_metrics st))) in Hw; [done| |].
  - intros st [[tc w] c] st' s2 Hb Hok.
    apply loop_body_Ret in Hb as (id & name & input & t & tc1 & w1 & _ & _ & _ & -> & _).
    by apply record_call_ok.
  - rewrite Hi. apply metrics_ok_empty.
Qed.

Lemma next_tool_use_app pre id name input post :
  Forall (fun b => is_tool_use b = false) pre ->
  next_tool_use (pre ++ ToolUseBlock id name input :: post) = Some (id, name, input).
Proof. induction 1 as [|b pre Hb _ IH]; [done|]. by destruct b. Qed.

Lemma invoke_tool_recovers tool_name tool_input (tc : T) w c e tc' w' :
  call_tool tool_name tool_input (tc, w) = (Raise e, (tc', w')) ->
  is_Exception e = true ->
  invoke_tool tool_name tool_input ((tc, w), c)
    = (Ret (error_text tool_name e), ((tc', w'), c)).
Proof.
  intros Hc He. rewrite invoke_tool_eq, Hc. cbn [fst snd fed_back]. by rewrite He.
Qed.

Lemma evaluate_single_task_Ret fuel qa_pair s r s' :
  evaluate_single_task fuel qa_pair s = (Ret r, s') ->
  exists text tm d s1 s2,
    agent_loop fuel qa_pair.1 s1 = (Ret (Some text, tm), s2) /\
    r = make_task_result qa_pair text tm d.
Proof.
  unfold Evaluation.evaluate_single_task.
  intros (t0 & s1 & _ & Hrest)%bind_Ret_inv.
  apply bind_Ret_inv in Hrest as ([[text|] tm] & s2 & Ha & Hrest); [|done].
  apply bind_Ret_inv in Hrest as (t1 & s3 & _ & [= <- _]). eauto 10.
Qed.



(** C5.  The body of the loop is entered exactly on stop reason tool_use.
    A pass that returns has taken the first tool-use block of the response
    in content order and has called [call_tool] once, with the name and the
    input of that block, right after its first reading of the clock: the
    tool caller and the world it leaves are those that this one call left,
    with one more reading of the clock.  The pass has appended one tool
    result that carries the identifier of that block and the text of what
    the call returned or raised, and has then called the engine once, on the
    conversation so extended.  Such a pass does return whenever the
    invocation ends and the engine answers. *)
Theorem one_tool_use_per_turn :
  (forall fuel st,
     while_tool_use (S fuel) st =
       if bool_decide (stop_reason (last_response st) = "tool_use")
       then bind (loop_body st) (while_tool_use fuel)
       else ret st) /\
  (forall st (tc : T) w c st' s',
     loop_body st ((tc, w), c) = (Ret st', s') ->
     exists id name input pre post text,
       content (last_response st) = pre ++ ToolUseBlock id name input :: post /\
       Forall (fun b => is_tool_use b = false) pre /\
       (let called := call_tool name input (tc, tick w) in
        s'.1 = (called.2.1, tick called.2.2) /\
        match called.1 with
        | Ret v => text = (if is_container v then json_dumps v else str v)
        | Raise e =>
            is_Exception e = true /\
            text = ("Error executing tool " ++ name ++ ": " ++ str_exn e
                    ++ String "010"%char "" ++ format_exc e)%string
        | _ => False
        end) /\
       messages st' = messages st
                        ++ [{| role := "user"; mcontent := CToolResult id text |};
                            {| role := "assistant";
                               mcontent := CBlocks (content (last_response st')) |}] /\
       events st' = events st ++
         [CallTool name input;
          Create (messages st ++ [{| role := "user"; mcontent := CToolResult id text |}])] /\
       engine c (engine_calls c)
         (messages st ++ [{| role := "user"; mcontent := CToolResult id text |}])
         = Ret (last_response st') /\
       engine_calls s'.2 = S (engine_calls c)) /\
  (forall st (tc : T) w c id name input pre post text tc1 w1 r,
     content (last_response st) = pre ++ ToolUseBlock id name input :: post ->
     Forall (fun b => is_tool_use b = false) pre ->
     invoke_tool name input ((tc, tick w), c) = (Ret text, ((tc1, w1), c)) ->
     engine c (engine_calls c)
       (messages st ++ [{| role := "user"; mcontent := CToolResult id text |}]) = Ret r ->
     exists st' s',
       loop_body st ((tc, w), c) = (Ret st', s') /\ last_response st' = r).
Proof.
  split; [|split].
  - intros. apply while_unfold.
  - intros st tc w c st' s' Hb.
    apply loop_body_Ret in Hb
      as (id & name & input & text & tc1 & w1 & En & Hi & Hr & Hst & ->).
    apply next_tool_use_first in En as (pre & post & Hc & Hpre).
    exists id, name, input, pre, post, text.
    split; [done|]. split; [done|]. split.
    { rewrite invoke_tool_eq in Hi. cbv zeta in Hi. cbv zeta.
      destruct (call_tool name input (tc, tick w)) as [[v|e| |] [tc2 w2]];
        cbn [fst snd fed_back] in *; try done.
      - injection Hi as <- <- <-. done.
      - destruct (is_Exception e); [|done]. injection Hi as <- <- <-. done. }
    unfold tool_result_message in *.
    split; [rewrite Hst at 1; unfold next_state, tool_result_message, assistant_message;
            cbn [messages]; by rewrite <- app_assoc|].
    split; [by rewrite Hst at 1|]. by split.
  - intros st tc w c id name input pre post text tc1 w1 r Hc Hpre Hi Hr.
    assert (En : next_tool_use (content (last_response st)) = Some (id, name, input))
      by (rewrite Hc; by apply next_tool_use_app).
    rewrite (loop_body_run _ _ _ _ _ _ _ _ _ _ En Hi). cbv zeta.
    unfold tool_result_message. rewrite Hr.
    eexists _, _. split; done.
Qed.

(** C9.  A pass of the loop that returns has recorded one call of the tool it
    served, whether the invocation returned or raised: the entry of that
    tool is created if need be, its count grows by one and one duration is
    appended.  So [metrics_ok] is kept (for every tool present, the count is
    the number of durations and is at least 1) and the sum of the numbers of
    durations grows by one.  In the result of a task, the metrics satisfy
    [metrics_ok] and [num_tool_calls] is that sum. *)
Theorem tool_metrics_invariant :
  (forall st (tc : T) w c st' s',
     loop_body st ((tc, w), c) = (Ret st', s') ->
     exists id name input d,
       next_tool_use (content (last_response st)) = Some (id, name, input) /\
       tool_metrics st' = record_call name d (tool_metrics st) /\
       tool_metrics st' !! name =
         Some (match tool_metrics st !! name with
               | Some m => {| count := count m + 1; durations := durations m ++ [d] |}
               | None => {| count := 0 + 1; durations := [] ++ [d] |}
               end) /\
       (metrics_ok (tool_metrics st) -> metrics_ok (tool_metrics st')) /\
       sum_durations (tool_metrics st') = S (sum_durations (tool_metrics st))) /\
  (forall st (tc : T) w c id name input e tc' w' r,
     next_tool_use (content (last_response st)) = Some (id, name, input) ->
     call_tool name input (tc, tick w) = (Raise e, (tc', w')) ->
     is_Exception e = true ->
     engine c (engine_calls c)
       (messages st ++ [tool_result_message id (error_text name e)]) = Ret r ->
     exists st' s',
       loop_body st ((tc, w), c) = (Ret st', s') /\
       tool_metrics st' =
         record_call name (clock w' (ticks w') - clock w (ticks w))%float
           (tool_metrics st)) /\
  (forall fuel question s text tm s',
     agent_loop fuel question s = (Ret (text, tm), s') -> metrics_ok tm) /\
  (forall fuel qa_pair s r s',
     evaluate_single_task fuel qa_pair s = (Ret r, s') ->
     metrics_ok (tool_calls r) /\ num_tool_calls r = sum_durations (tool_calls r)).
Proof.
  split; [|split; [|split]].
  - intros st tc w c st' s' Hb.
    apply loop_body_Ret in Hb
      as (id & name & input & text & tc1 & w1 & En & _ & _ & -> & _).
    eexists id, name, input, _. unfold next_state. cbn [tool_metrics].
    split; [done|]. split; [done|]. split; [apply record_call_lookup|].
    split; [apply record_call_ok | apply record_call_sum].
  - intros st tc w c id name input e tc' w' r En Hc He Hr.
    rewrite (loop_body_run _ _ _ _ _ _ _ _ _ _ En
               (invoke_tool_recovers _ _ _ _ c _ _ _ Hc He)).
    cbv zeta. rewrite Hr. eexists _, _. split; done.
  - apply agent_loop_metrics.
  - intros fuel qa_pair s r s' He.
    apply evaluate_single_task_Ret in He as (text & tm & d & s1 & s2 & Ha & ->).
    split; [|done]. cbn [tool_calls make_task_result].
    by eapply agent_loop_metrics.
Qed.

End Loop.

Abbreviation demo_invoke_tool :=
  (invoke_tool Demo.json_dumps Demo.str Demo.str_exn Demo.format_exc
     (T := StdioConnection.t)).
Abbreviation demo_loop_body :=
  (loop_body Demo.json_dumps Demo.str Demo.str_exn Demo.format_exc
     (T := StdioConnection.t)).
Abbreviation demo_agent_loop :=
  (agent_loop Demo.json_dumps Demo.str Demo.str_exn Demo.format_exc
     (T := StdioConnection.t)).
Abbreviation demo_evaluate_single_task :=
  (evaluate_single_task Demo.json_dumps Demo.str Demo.str_exn Demo.format_exc
     (T := StdioConnection.t)).

Abbreviation module_agent_loop :=
  (@agent_loop Demo.json_dumps Demo.str Demo.str_exn Demo.format_exc
     EvaluationDirect.t (EvaluationDirect.connection DemoModule.import_module)).
Abbreviation module_loop_body :=
  (@loop_body Demo.json_dumps Demo.str Demo.str_exn Demo.format_exc
     EvaluationDirect.t (EvaluationDirect.connection DemoModule.import_module)).



(** C4, as stated, fails for a tool that ends the interpreter.  The tool
    caller of [--module] calls the function [leave] of the module in the
    process of the evaluator; [sys.exit] raises [SystemExit], which
    [except Exception] does not catch: the error of the invocation leaves
    [agent_loop], and the engine is not asked again. *)
Lemma tool_exit_leaves_agent_loop :
  let s := ((EvaluationDirect.__init__ "demo.leaving", Demo.world),
            DemoModule.leaving_client) in
  (EvaluationDirect.call_tool DemoModule.import_module "leave" (JDict []) s.1).1
    = Raise SystemExit /\
  (module_agent_loop 5 "bye" s).1 = Raise SystemExit /\
  engine_calls (module_agent_loop 5 "bye" s).2.2 = 1.
Proof. vm_compute. repeat split. Qed.

(** A run of C5's theorem: of the two tool-use blocks of the response, the
    pass serves the first, with one request written to the child. *)
Lemma one_tool_use_per_turn_witness :
  let s := ((Demo.stdio_1.1, Demo.stdio_1.2), Demo.client) in
  let st' := Demo.returned Demo.asks_mul (demo_loop_body Demo.asks_mul s).1 in
  let s' := (demo_loop_body Demo.asks_mul s).2 in
  demo_loop_body Demo.asks_mul s = (Ret st', s') /\
  (exists id name input pre post text,
     content (last_response Demo.asks_mul) = pre ++ ToolUseBlock id name input :: post /\
     Forall (fun b => is_tool_use b = false) pre /\
     s'.1 = ((StdioConnection.call_tool name input (Demo.stdio_1.1, tick Demo.stdio_1.2)).2.1,
             tick (StdioConnection.call_tool name input
                     (Demo.stdio_1.1, tick Demo.stdio_1.2)).2.2) /\
     messages st' = messages Demo.asks_mul
                      ++ [{| role := "user"; mcontent := CToolResult id text |};
                          {| role := "assistant";
                             mcontent := CBlocks (content (last_response st')) |}]) /\
  trace s'.1.2 = trace Demo.stdio_1.2
                   ++ [EvWrite 0 (call_tool_request "mul" Demo.add_args); EvReadline 0] /\
  messages st' =
    [{| role := "user"; mcontent := CText "2*2?" |};
     {| role := "user";
        mcontent := CToolResult "tu_7"
                      ("Error executing tool mul: bad args" ++ String "010"%char ""
                       ++ "Traceback (most recent call last): ..")%string |};
     {| role := "assistant";
        mcontent := CBlocks [TextBlock "Let me add.";
                             ToolUseBlock "tu_1" "add" Demo.add_args;
                             ToolUseBlock "tu_2" "mul" Demo.add_args] |}].
Proof.
  intros s st' s'.
  assert (E : demo_loop_body Demo.asks_mul s = (Ret st', s'))
    by (vm_compute; reflexivity).
  split; [exact E|]. split; [|split; vm_compute; reflexivity].
  destruct (proj1 (proj2 (one_tool_use_per_turn Demo.json_dumps Demo.str Demo.str_exn
                            Demo.format_exc (T := StdioConnection.t)))
              Demo.asks_mul Demo.stdio_1.1 Demo.stdio_1.2 Demo.client st' _ E)
    as (id & name & input & pre & post & text & H1 & H2 & [H3 _] & H4 & _).
  exists id, name, input, pre, post, text. repeat split; assumption.
Defined.

(** A run of C9's theorem: the task of the demo, one call of [add]. *)
Lemma tool_metrics_invariant_witness :
  let s := ((Demo.stdio_0.1, Demo.stdio_0.2), Demo.client) in
  let r := Demo.returned (make_task_result ("", "") "" ∅ 0)
             (demo_evaluate_single_task 5 ("What is 1+2?", "3") s).1 in
  demo_evaluate_single_task 5 ("What is 1+2?", "3") s
    = (Ret r, (demo_evaluate_single_task 5 ("What is 1+2?", "3") s).2) /\
  metrics_ok (tool_calls r) /\
  num_tool_calls r = sum_durations (tool_calls r) /\
  num_tool_calls r = 1 /\
  tool_calls r !! "add" = Some {| count := 1; durations := [1%float] |}.
Proof.
  intros s r.
  assert (E : demo_evaluate_single_task 5 ("What is 1+2?", "3") s
              = (Ret r, (demo_evaluate_single_task 5 ("What is 1+2?", "3") s).2))
    by (vm_compute; reflexivity).
  split; [exact E|].
  destruct (proj2 (proj2 (proj2 (tool_metrics_invariant Demo.json_dumps Demo.str
                                   Demo.str_exn Demo.format_exc
                                   (T := StdioConnection.t))))
              5 ("What is 1+2?", "3") s r _ E) as [Hok Hn].
  split; [exact Hok|]. split; [exact Hn|]. split; vm_compute; reflexivity.
Defined.

End AgentLoopFacts.

(** ** The figures of the report *)

Module ReportFacts.
Import Evaluation.



Lemma int_truediv_nonzero {S} (a : Z) (n : nat) (s : S) :
  int_truediv a (Z.of_nat (Datatypes.S n)) s
    = (Ret (float_of_int a / float_of_int (Z.of_nat (Datatypes.S n)))%float, s).
Proof.
  unfold int_truediv. destruct (Z.eqb_spec (Z.of_nat (Datatypes.S n)) 0); [lia | done].
Qed.

Lemma float_truediv_nonzero {S} (x : float) (n : nat) (s : S) :
  float_truediv x (Z.of_nat (Datatypes.S n)) s
    = (Ret (x / float_of_int (Z.of_nat (Datatypes.S n)))%float, s).
Proof.
  unfold float_truediv. destruct (Z.eqb_spec (Z.of_nat (Datatypes.S n)) 0); [lia | done].
Qed.

Lemma aggregate_nonempty {S} (fsum : list float -> float) (r : task_result)
    (rs : list task_result) (s : S) :
  let results := r :: rs in
  let n := float_of_int (Z.of_nat (length results)) in
  aggregate fsum results s =
    (Ret {| correct := sum_Z (map score results);
            total := length results;
            accuracy := (float_of_int (sum_Z (map score results)) / n
                         * float_of_int 100)%float;
            average_duration_s := (fsum (map total_duration results) / n)%float;
            average_tool_calls :=
              (float_of_int (Z.of_nat (sum_nat (map num_tool_calls results))) / n)%float;
            total_tool_calls := sum_nat (map num_tool_calls results);
            results := results |}, s).
Proof.
  intros results n. subst results n. unfold aggregate.
  rewrite bool_decide_eq_false_2 by done. cbn [negb length].
  unfold bind at 1. unfold bind at 1. rewrite int_truediv_nonzero. unfold ret at 1.
  unfold bind at 1. rewrite float_truediv_nonzero.
  unfold bind at 1. rewrite int_truediv_nonzero. reflexivity.
Qed.


(** The tasks of a run: [right] of them answered as expected, [wrong] not. *)
Definition runs_of (right wrong : nat)
  : list ((string * string) * string * gmap string metrics * float) :=
  repeat (("q", "42"), "<response>42</response>", ∅, 1%float) right
  ++ repeat (("q", "7"), "<response>9</response>", ∅, 1%float) wrong.


(** C6, as stated, fails: with 7 right answers in 25 the code reports
    [(7 / 25) * 100], which in binary64 is 28.000000000000004, not the 28
    that [100 * 7 / 25] is. *)
Lemma accuracy_of_7_in_25 :
  let results := map (fun '(qa_pair, text, tm, d) => make_task_result qa_pair text tm d)
                     (runs_of 7 18) in
  length results = 25 /\
  length (filter (fun r => score r = 1%Z) results) = 7 /\
  exists rep,
    aggregate running_sum results tt = (Ret rep, tt) /\
    accuracy rep = 0x1.c000000000001p+4%float /\
    accuracy rep <> float_of_int 28 /\
    PrimFloat.ltb (float_of_int 28) (accuracy rep) = true.
Proof.
  split; [reflexivity|]. split; [vm_compute; reflexivity|].
  eexists. split; [vm_compute; reflexivity|].
  cbn [accuracy]. split; [reflexivity|]. split; [|vm_compute; reflexivity].
  vm_compute. discriminate.
Qed.

End ReportFacts.

(** ** Arguments of the command lines *)

Module PyStrFacts.
Import Text TextFacts PyStr.

Lemma split_once_chars_Some sep s a b :
  split_once_chars sep s = Some (a, b) <-> s = a ++ sep :: b /\ sep ∉ a.
Proof.
  revert a b. induction s as [|c s IH]; intros a b; simpl.
  - split; [done|]. intros [E _]. by destruct a.
  - destruct (Ascii.eqb c sep) eqn:Ec.
    + apply Ascii.eqb_eq in Ec as ->. split.
      * intros [= <- <-]. split; [done | apply not_elem_of_nil].
      * intros [E Hni]. destruct a as [|x a].
        -- by injection E as ->.
        -- injection E as -> _. exfalso. apply Hni. left.
    + apply Ascii.eqb_neq in Ec.
      destruct (split_once_chars sep s) as [[a0 b0]|].
      * split.
        -- intros [= <- <-]. destruct (proj1 (IH a0 b0) eq_refl) as [-> Hni0].
           split; [done|]. by apply not_elem_of_cons.
        -- intros [E Hni]. destruct a as [|x a]; [by injection E as ->|].
           injection E as -> E. apply not_elem_of_cons in Hni as [_ Hni].
           by injection (proj2 (IH a b) (conj E Hni)) as -> ->.
      * split; [done|]. intros [E Hni]. destruct a as [|x a]; [by injection E as ->|].
        injection E as -> E. apply not_elem_of_cons in Hni as [_ Hni].
        by pose proof (proj2 (IH a b) (conj E Hni)).
Qed.

Lemma split_once_chars_None sep s :
  split_once_chars sep s = None <-> sep ∉ s.
Proof.
  induction s as [|c s IH]; simpl.
  - split; [intros _; apply not_elem_of_nil | done].
  - destruct (Ascii.eqb c sep) eqn:Ec.
    + apply Ascii.eqb_eq in Ec as ->. split; [done|]. intros Hni. exfalso. apply Hni. left.
    + apply Ascii.eqb_neq in Ec. destruct (split_once_chars sep s) as [[a b]|].
      * split; [done|]. intros Hni. apply not_elem_of_cons in Hni as [_ Hni].
        by apply IH in Hni.
      * split; [|done]. intros _. apply not_elem_of_cons. split; [done|]. by apply IH.
Qed.

End PyStrFacts.

Module ArgsFacts.
Import Text TextFacts PyStr PyStrFacts EvaluationArgs ToolCallerArgs.

(** A dict filled by a loop [for x in l: if x gives (k, v): d[k] = v] holds,
    under each key, the value of the last item that gives the key. *)
Section FoldPairs.

Context {D K V X : Type} `{EqDecision K}.
Variables (get : D -> K -> option V) (upd : K -> V -> D -> D)
          (pair : X -> option (K * V)).
Hypothesis get_upd_eq : forall d k v, get (upd k v d) k = Some v.
Hypothesis get_upd_ne : forall d k k' v, k <> k' -> get (upd k v d) k' = get d k'.

Definition step (d : D) (x : X) : D :=
  match pair x with
  | Some (k, v) => upd k v d
  | None => d
  end.

Definition last_gives (l : list X) (k : K) (v : V) : Prop :=
  exists l1 x l2,
    l = l1 ++ x :: l2 /\ pair x = Some (k, v) /\
    forall x' v', x' ∈ l2 -> pair x' <> Some (k, v').

Lemma fold_pairs_lookup (d0 : D) (l : list X) (k : K) (v : V) :
  (forall k', get d0 k' = None) ->
  get (fold_left step l d0) k = Some v <-> last_gives l k v.
Proof.
  intros Hd0. revert v. induction l as [|x l IH] using rev_ind; intros v.
  - simpl. rewrite Hd0. split; [done|]. intros (l1 & x & l2 & E & _). by destruct l1.
  - rewrite fold_left_app. cbn [fold_left]. unfold step at 1.
    destruct (pair x) as [[k' v']|] eqn:Ex.
    + destruct (decide (k' = k)) as [->|Hne].
      * rewrite get_upd_eq. split.
        -- intros [= ->]. exists l, x, []. split; [done|]. split; [done|].
           intros x' v0 Hin. by apply elem_of_nil in Hin.
        -- intros (l1 & y & l2 & E & Hy & Hlast).
           destruct l2 as [|z l2 _] using rev_ind.
           ++ apply app_inj_tail in E as [_ ->]. congruence.
           ++ rewrite app_comm_cons, app_assoc in E. apply app_inj_tail in E as [_ ->].
              exfalso. apply (Hlast z v'); [|done]. apply elem_of_app. right. left.
      * rewrite get_upd_ne by done. rewrite IH. split.
        -- intros (l1 & y & l2 & -> & Hy & Hlast). exists l1, y, (l2 ++ [x]).
           split; [by rewrite <- app_assoc|]. split; [done|].
           intros x' v0 [Hin|Hin]%elem_of_app; [by apply Hlast|].
           apply list_elem_of_singleton in Hin as ->. congruence.
        -- intros (l1 & y & l2 & E & Hy & Hlast).
           destruct l2 as [|z l2 _] using rev_ind.
           ++ apply app_inj_tail in E as [_ ->]. congruence.
           ++ rewrite app_comm_cons, app_assoc in E. apply app_inj_tail in E as [-> ->].
              exists l1, y, l2. split; [done|]. split; [done|].
              intros x' v0 Hin. apply Hlast. apply elem_of_app. by left.
    + rewrite IH. split.
      * intros (l1 & y & l2 & -> & Hy & Hlast). exists l1, y, (l2 ++ [x]).
        split; [by rewrite <- app_assoc|]. split; [done|].
        intros x' v0 [Hin|Hin]%elem_of_app; [by apply Hlast|].
        apply list_elem_of_singleton in Hin as ->. congruence.
      * intros (l1 & y & l2 & E & Hy & Hlast).
        destruct l2 as [|z l2 _] using rev_ind.
        -- apply app_inj_tail in E as [_ ->]. congruence.
        -- rewrite app_comm_cons, app_assoc in E. apply app_inj_tail in E as [-> ->].
           exists l1, y, l2. split; [done|]. split; [done|].
           intros x' v0 Hin. apply Hlast. apply elem_of_app. by left.
Qed.

End FoldPairs.

Lemma fold_left_ext_eq {A B} (f g : A -> B -> A) (l : list B) (a : A) :
  (forall a x, f a x = g a x) -> fold_left f l a = fold_left g l a.
Proof. intros E. revert a. induction l as [|x l IH]; intros a; simpl; [done|]. by rewrite E, IH. Qed.

Lemma split_once_Some sep item a b :
  split_once sep item = Some (a, b) <->
  item = (a ++ String sep b)%string /\ (sep ∉ of_string a).
Proof.
  unfold split_once. split.
  - destruct (split_once_chars sep (of_string item)) as [[a0 b0]|] eqn:E; [|done].
    intros [= <- <-]. apply split_once_chars_Some in E as [E Hni].
    rewrite of_to_string. split; [|done].
    apply of_string_inj. rewrite E, of_string_app. simpl. by rewrite !of_to_string.
  - intros [-> Hni].
    assert (E : split_once_chars sep (of_string (a ++ String sep b))
                = Some (of_string a, of_string b)).
    { apply split_once_chars_Some. split; [|done]. by rewrite of_string_app. }
    by rewrite E, !to_of_string.
Qed.

Lemma split_once_None sep item :
  split_once sep item = None <-> sep ∉ of_string item.
Proof.
  unfold split_once. rewrite <- split_once_chars_None.
  by destruct (split_once_chars sep (of_string item)) as [[a b]|].
Qed.

Lemma add_pair_eq sep (d : gmap string string) item :
  add_pair sep d item =
    match pair_of sep item with
    | Some (k, v) => <[k := v]> d
    | None => d
    end.
Proof. unfold pair_of, add_pair. by destruct (split_once sep item) as [[a b]|]. Qed.

(** X2.  What one item of [parse_headers] or [parse_env_vars] contributes:
    nothing when the separator does not occur in it; otherwise the text
    before the first separator as key and all the text after it as value
    (further separators included), both stripped. *)
Theorem pair_of_first_separator (sep : ascii) (item : string) :
  (pair_of sep item = None <-> sep ∉ of_string item) /\
  (forall k v,
     pair_of sep item = Some (k, v) <->
     exists a b, item = (a ++ String sep b)%string /\ (sep ∉ of_string a) /\
                 k = strip a /\ v = strip b) /\
  (forall d, add_pair sep d item =
               match pair_of sep item with
               | Some (k, v) => <[k := v]> d
               | None => d
               end).
Proof.
  unfold pair_of, add_pair. split; [|split].
  - rewrite <- split_once_None. by destruct (split_once sep item) as [[a b]|].
  - intros k v. split.
    + destruct (split_once sep item) as [[a b]|] eqn:E; [|done].
      intros [= <- <-]. apply split_once_Some in E as [E Hni]. eauto 10.
    + intros (a & b & E & Hni & -> & ->).
      by rewrite (proj2 (split_once_Some sep item a b) (conj E Hni)).
  - intros d. by destruct (split_once sep item) as [[a b]|].
Qed.

(** A run of X2: the value keeps the separators after the first. *)
Lemma pair_of_first_separator_witness :
  pair_of "="%char " A =2=3 " = Some ("A", "2=3") /\ pair_of "="%char "B" = None.
Proof.
  split.
  - apply (proj1 (proj2 (pair_of_first_separator "="%char " A =2=3 "))).
    exists " A ", "2=3 ". split; [reflexivity|]. split; [|split; reflexivity].
    intros Hin. vm_compute in Hin. by repeat (apply elem_of_cons in Hin as [?|Hin]);
      try by apply elem_of_nil in Hin.
  - apply (proj1 (pair_of_first_separator "="%char "B")).
    intros Hin. apply elem_of_cons in Hin as [?|Hin]; [done|]. by apply elem_of_nil in Hin.
Defined.

Lemma fold_add_pair_lookup sep (l : list string) (k v : string) :
  fold_left (add_pair sep) l ∅ !! k = Some v <->
  exists l1 item l2,
    l = l1 ++ item :: l2 /\ pair_of sep item = Some (k, v) /\
    forall item' v', item' ∈ l2 -> pair_of sep item' <> Some (k, v').
Proof.
  rewrite (fold_left_ext_eq (add_pair sep)
             (step (fun k v (d : gmap string string) => <[k := v]> d) (pair_of sep))).
  - apply (fold_pairs_lookup (fun (d : gmap string string) k => d !! k)).
    + intros. apply lookup_insert_eq.
    + intros. by apply lookup_insert_ne.
    + intros. apply lookup_empty.
  - intros d item. unfold step. apply add_pair_eq.
Qed.

(** X1.  [parse_env_vars] and [parse_headers] map a key to the value of the
    last item of the list that gives this key; items without the separator
    give nothing, and a missing or empty list gives the empty dict. *)
Theorem parse_env_vars_last_wins :
  parse_env_vars None = ∅ /\ parse_headers None = ∅ /\
  (forall (l : list string) (k v : string),
     parse_env_vars (Some l) !! k = Some v <->
     exists l1 item l2,
       l = l1 ++ item :: l2 /\ pair_of "="%char item = Some (k, v) /\
       forall item' v', item' ∈ l2 -> pair_of "="%char item' <> Some (k, v')) /\
  (forall (l : list string) (k v : string),
     parse_headers (Some l) !! k = Some v <->
     exists l1 item l2,
       l = l1 ++ item :: l2 /\ pair_of ":"%char item = Some (k, v) /\
       forall item' v', item' ∈ l2 -> pair_of ":"%char item' <> Some (k, v')).
Proof.
  split; [done|]. split; [done|]. split; intros l k v.
  - rewrite <- fold_add_pair_lookup. by destruct l.
  - rewrite <- fold_add_pair_lookup. by destruct l.
Qed.

(** A run of X1: of two items for [A], the later one gives the value. *)
Lemma parse_env_vars_last_wins_witness :
  parse_env_vars (Some [" A = 1 "; "B"; "A=2=3"]) !! "A" = Some "2=3".
Proof.
  apply (proj1 (proj2 (proj2 parse_env_vars_last_wins))).
  exists [" A = 1 "; "B"], "A=2=3", []. split; [reflexivity|]. split; [reflexivity|].
  intros item' v' Hin. by apply elem_of_nil in Hin.
Defined.

(** The arguments [-e " A = 1 " B A=2=3]: the second [A] wins, [B] is
    skipped, the value keeps its [=]. *)
Example parse_env_vars_example :
  parse_env_vars (Some [" A = 1 "; "B"; "A=2=3"]) = {[ "A" := "2=3" ]}.
Proof. vm_compute. reflexivity. Qed.

Lemma dict_get_set_eq key value items : dict_get key (dict_set key value items) = Some value.
Proof.
  induction items as [|[k v] items IH]; simpl.
  - by rewrite String.eqb_refl.
  - destruct (String.eqb k key) eqn:E; simpl; rewrite E; [done | exact IH].
Qed.

Lemma dict_get_set_ne key key' value items :
  key <> key' -> dict_get key' (dict_set key value items) = dict_get key' items.
Proof.
  intros Hne. induction items as [|[k v] items IH]; simpl.
  - by rewrite (proj2 (String.eqb_neq key key') Hne).
  - destruct (String.eqb k key) eqn:E; simpl.
    + apply String.eqb_eq in E as ->. by rewrite (proj2 (String.eqb_neq key key') Hne).
    + by rewrite IH.
Qed.

Lemma dict_set_keys key value items :
  NoDup (map fst items) -> NoDup (map fst (dict_set key value items)).
Proof.
  assert (Hin : forall k items, k ∈ map fst (dict_set key value items) ->
                                k = key \/ k ∈ map fst items).
  { intros k. induction items0 as [|[k0 v0] items0 IH]; simpl.
    - intros ->%list_elem_of_singleton. by left.
    - destruct (String.eqb k0 key) eqn:E; simpl; [by right|].
      intros [->|Hk]%elem_of_cons; [right; left|].
      destruct (IH Hk); [by left | right; by right]. }
  induction items as [|[k v] items IH]; simpl; intros Hnd.
  - apply NoDup_singleton.
  - apply NoDup_cons in Hnd as [Hk Hnd]. destruct (String.eqb k key) eqn:E; simpl.
    + by apply NoDup_cons.
    + apply NoDup_cons. split; [|by apply IH].
      intros [->|Hk']%Hin; [|done]. by rewrite String.eqb_refl in E.
Qed.

(** X3.  [parse_tool_input]: a blank input is the empty dict and is not
    parsed; otherwise what [json.loads] makes of the stripped input is
    returned as it is; when [json.loads] fails, the input is read as
    comma-separated [key=value] pairs: the keys of the result are distinct,
    every value is a string, and a key holds the stripped value of the last
    pair that gives it (pairs without [=] are skipped). *)
Theorem parse_tool_input_cases (json_loads : string -> option json) (input_str : string) :
  (strip input_str = "" -> parse_tool_input json_loads input_str = JDict []) /\
  (strip input_str <> "" ->
   forall v, json_loads (strip input_str) = Some v ->
             parse_tool_input json_loads input_str = v) /\
  (strip input_str <> "" -> json_loads (strip input_str) = None ->
   exists items,
     parse_tool_input json_loads input_str = JDict items /\
     NoDup (map fst items) /\
     forall k v,
       dict_get k items = Some v <->
       exists l1 pair l2 t,
         split ","%char (strip input_str) = l1 ++ pair :: l2 /\
         pair_of "="%char pair = Some (k, t) /\ v = JStr t /\
         forall pair' t', pair' ∈ l2 -> pair_of "="%char pair' <> Some (k, t')).
Proof.
  unfold parse_tool_input. split; [|split].
  - intros ->. by rewrite bool_decide_eq_true_2.
  - intros Hne v Hv. by rewrite bool_decide_eq_false_2, Hv.
  - intros Hne Hv. rewrite bool_decide_eq_false_2, Hv by done.
    eexists. split; [reflexivity|].
    set (l := split "," (strip input_str)). clearbody l.
    set (jpair := fun pair : string =>
                    match pair_of "="%char pair with
                    | Some (k, t) => Some (k, JStr t)
                    | None => None
                    end).
    assert (Hstep : forall d pair,
               add_key_value d pair = step dict_set jpair d pair).
    { intros d pair. unfold add_key_value, step, jpair, pair_of.
      by destruct (split_once "=" pair) as [[a b]|]. }
    split.
    + assert (forall d, NoDup (map fst d) ->
                        NoDup (map fst (fold_left add_key_value l d))) as Hnd.
      { induction l as [|x l IH]; intros d Hd; simpl; [done|]. apply IH.
        unfold add_key_value. destruct (split_once "=" x) as [[a b]|]; [|done].
        by apply dict_set_keys. }
      apply Hnd. simpl. apply NoDup_nil_2.
    + intros k v. rewrite (fold_left_ext_eq _ _ l [] Hstep).
      rewrite (fold_pairs_lookup (fun d k => dict_get k d) dict_set jpair);
        [|intros; apply dict_get_set_eq|intros; by apply dict_get_set_ne|done].
      unfold last_gives, jpair. split.
      * intros (l1 & x & l2 & -> & Hx & Hlast).
        destruct (pair_of "=" x) as [[k0 t]|] eqn:Ex; [|done].
        injection Hx as -> <-. exists l1, x, l2, t. repeat split; try done.
        intros x' t' Hin Hx'. apply (Hlast x' (JStr t') Hin). by rewrite Hx'.
      * intros (l1 & x & l2 & t & -> & Hx & -> & Hlast).
        exists l1, x, l2. split; [done|]. split; [by rewrite Hx|].
        intros x' v' Hin. destruct (pair_of "=" x') as [[k0 t0]|] eqn:Ex'; [|done].
        intros [= -> <-]. by apply (Hlast x' t0 Hin).
Qed.

(** A run of the fall-back of [parse_tool_input] on ["a=1, b = 2 ,c, a=3"]
    with a [json.loads] that rejects it. *)
Lemma parse_tool_input_cases_witness :
  strip "  a=1, b = 2 ,c, a=3 " <> "" /\
  exists items,
    parse_tool_input (fun _ => None) "  a=1, b = 2 ,c, a=3 " = JDict items /\
    NoDup (map fst items) /\
    dict_get "a" items = Some (JStr "3").
Proof.
  assert (Hne : strip "  a=1, b = 2 ,c, a=3 " <> "") by (vm_compute; discriminate).
  split; [exact Hne|].
  destruct (proj2 (proj2 (parse_tool_input_cases (fun _ => None)
                            "  a=1, b = 2 ,c, a=3 ")) Hne eq_refl)
    as (items & Hp & Hnd & Hget).
  exists items. split; [exact Hp|]. split; [exact Hnd|].
  apply Hget. exists ["a=1"; " b = 2 "; "c"], " a=3", [], "3".
  split; [vm_compute; reflexivity|]. split; [vm_compute; reflexivity|].
  split; [reflexivity|]. intros pair' t' Hin. by apply elem_of_nil in Hin.
Defined.

End ArgsFacts.

(** ** The factories *)

Module FactoryFacts.
Import Text TextFacts PyStr Connections.

Lemma lower_char_idem c : lower_char (lower_char c) = lower_char c.
Proof. destruct c as [[] [] [] [] [] [] [] []]; vm_compute; reflexivity. Qed.

Lemma lower_idem s : lower (lower s) = lower s.
Proof.
  unfold lower. rewrite of_to_string, map_map. f_equal.
  apply map_ext. intros c. apply lower_char_idem.
Qed.

Lemma given_Some s v : given s = Some v <-> s = Some v /\ v <> "".
Proof.
  unfold given. destruct s as [[|c s]|].
  - split; [done|]. by intros [[= <-] H].
  - split; [by intros [= <-] | by intros [[= <-] _]].
  - split; [done | by intros [? _]].
Qed.

Lemma given_None s : given s = None <-> s = None \/ s = Some "".
Proof.
  unfold given. destruct s as [[|c s]|]; split; auto; try done.
  intros [?|?]; done.
Qed.

(** X4.  [create_connection] makes a connection in two cases only, whatever
    the case of the letters of [transport]: ["stdio"] with a command that is
    not empty, and ["direct"] with a module path that is not empty.  The
    stdio connection has the command, arguments and environment given, no
    working directory and no process.  In every other case the call raises
    [ValueError]. *)
Theorem create_connection_cases (transport : string) (command : option string)
    (args : option (list string)) (env : option (gmap string string))
    (module_path : option string) :
  (forall conn,
     create_connection transport command args env module_path = inr conn <->
     (lower transport = "stdio" /\
      exists c, command = Some c /\ c <> "" /\
                conn = Stdio (StdioConnection.__init__ c args env None)) \/
     (lower transport = "direct" /\
      exists m, module_path = Some m /\ m <> "" /\
                conn = Direct (DirectConnection.__init__ m None))) /\
  (forall e, create_connection transport command args env module_path = inl e ->
             exists msg, e = ValueError msg) /\
  create_connection (lower transport) command args env module_path
    = create_connection transport command args env module_path.
Proof.
  split; [|split].
  - intros conn. unfold create_connection.
    destruct (bool_decide_reflect (lower transport = "stdio")) as [Hs|Hs].
    + destruct (given command) as [c|] eqn:Hc.
      * apply given_Some in Hc as [-> Hne]. split.
        -- intros [= <-]. left. eauto.
        -- intros [(_ & c' & [= <-] & _ & ->)|[Hd _]]; [done|]. congruence.
      * apply given_None in Hc. split; [done|].
        intros [(_ & c' & -> & Hne & _)|[Hd _]]; [|congruence].
        destruct Hc as [?|[= ?]]; done.
    + destruct (bool_decide_reflect (lower transport = "direct")) as [Hd|Hd].
      * destruct (given module_path) as [m|] eqn:Hm.
        -- apply given_Some in Hm as [-> Hne]. split.
           ++ intros [= <-]. right. eauto.
           ++ intros [[? _]|(_ & m' & [= <-] & _ & ->)]; done.
        -- apply given_None in Hm. split; [done|].
           intros [[? _]|(_ & m' & -> & Hne & _)]; [done|].
           destruct Hm as [?|[= ?]]; done.
      * split.
        -- by case_bool_decide.
        -- intros [[? _]|[? _]]; done.
  - intros e. unfold create_connection.
    repeat case_bool_decide; repeat case_match; intros [= <-]; eauto.
  - unfold create_connection. by rewrite lower_idem.
Qed.

(** X5.  [create_server_runner] prefers the module path: with a module path
    that is not empty it makes the in-process caller, whatever the command;
    without one and with a command that is not empty it makes the
    [ServerRunner], with no working directory and no process; with neither
    it raises [ValueError]. *)
Theorem create_server_runner_cases (command : option string)
    (args : option (list string)) (env : option (gmap string string))
    (module_path : option string) (server_instance : option InProcess.object) :
  let made := ServerRunnerDirect.create_server_runner command args env module_path
                server_instance in
  (forall m, module_path = Some m -> m <> "" ->
     made = inr (ServerRunnerDirect.AsModule
                   (ServerRunnerDirect.__init__ m server_instance))) /\
  (forall c, given module_path = None -> command = Some c -> c <> "" ->
     made = inr (ServerRunnerDirect.AsProcess (ServerRunner.__init__ c args env None))) /\
  (given module_path = None -> given command = None ->
     made = inl (ValueError "Either 'command' or 'module_path' must be provided")).
Proof.
  unfold ServerRunnerDirect.create_server_runner. split; [|split].
  - intros m -> Hne. by rewrite (proj2 (given_Some (Some m) m) (conj eq_refl Hne)).
  - intros c -> -> Hne. by rewrite (proj2 (given_Some (Some c) c) (conj eq_refl Hne)).
  - by intros -> ->.
Qed.

(** Runs of the two factories. *)
Lemma create_server_runner_cases_witness :
  ServerRunnerDirect.create_server_runner (Some "python") None None (Some "pkg.server") None
    = inr (ServerRunnerDirect.AsModule (ServerRunnerDirect.__init__ "pkg.server" None)) /\
  ServerRunnerDirect.create_server_runner (Some "python") (Some ["s.py"]) None (Some "") None
    = inr (ServerRunnerDirect.AsProcess
             (ServerRunner.__init__ "python" (Some ["s.py"]) None None)) /\
  ServerRunnerDirect.create_server_runner None None None None None
    = inl (ValueError "Either 'command' or 'module_path' must be provided").
Proof.
  split; [|split].
  - apply (proj1 (create_server_runner_cases (Some "python") None None
                    (Some "pkg.server") None) "pkg.server" eq_refl). discriminate.
  - apply (proj1 (proj2 (create_server_runner_cases (Some "python") (Some ["s.py"]) None
                           (Some "") None)) "python" eq_refl eq_refl). discriminate.
  - apply (proj2 (proj2 (create_server_runner_cases None None None None None))
             eq_refl eq_refl).
Defined.

(** A run of X4: the transport in capitals. *)
Lemma create_connection_cases_witness :
  create_connection "STDIO" (Some "python") (Some ["server.py"]) None None
    = inr (Stdio (StdioConnection.__init__ "python" (Some ["server.py"]) None None)) /\
  exists msg, create_connection "sse" (Some "python") None None None
                = inl (ValueError msg).
Proof.
  split.
  - apply (proj1 (create_connection_cases "STDIO" (Some "python") (Some ["server.py"])
                    None None)).
    left. split; [reflexivity|]. exists "python". split; [reflexivity|]. by split.
  - destruct (create_connection "sse" (Some "python") None None None) as [e|conn] eqn:E.
    + destruct (proj1 (proj2 (create_connection_cases "sse" (Some "python") None None None))
                  e E) as (msg & ->).
      by exists msg.
    + vm_compute in E. discriminate.
Defined.

Example create_connection_upper_case :
  create_connection "STDIO" (Some "python") (Some ["server.py"]) None None
    = inr (Stdio (StdioConnection.__init__ "python" (Some ["server.py"]) None None)) /\
  create_connection "sse" (Some "python") None None None
    = inl (ValueError ("Transport 'sse' requires MCP protocol. "
                       ++ "Use 'stdio' or 'direct' for script-based evaluation.")%string).
Proof. split; vm_compute; reflexivity. Qed.

End FactoryFacts.

(** ** Tools called in process *)

Module InProcessFacts.
Import InProcess.

Section Direct.

Context (import_module : string -> option namespace).

Local Abbreviation load := (DirectConnection._load_module import_module).
Local Abbreviation call_tool := (DirectConnection.call_tool import_module).
Local Abbreviation list_tools := (DirectConnection.list_tools import_module).
Local Abbreviation module_of := (DirectConnection.module_of import_module).
Local Abbreviation loaded := DirectConnection.loaded.

Lemma load_module_eq self w :
  load (self, w) =
    match module_of self with
    | Some m => (Ret m, (loaded m self, w))
    | None => (Raise (OtherException "ModuleNotFoundError"
                        (DirectConnection.module_path self)), (self, w))
    end.
Proof.
  unfold DirectConnection._load_module, DirectConnection.module_of,
    DirectConnection.loaded, bind, gets, modify, ret, raise.
  cbn [fst snd]. destruct (DirectConnection._module self); [done|].
  by destruct (import_module _).
Qed.

Lemma module_path_loaded m self :
  DirectConnection.module_path (loaded m self) = DirectConnection.module_path self.
Proof. unfold DirectConnection.loaded. by destruct (DirectConnection._module self). Qed.

Lemma module_loaded m self :
  module_of self = Some m -> DirectConnection._module (loaded m self) = Some m.
Proof.
  unfold DirectConnection.module_of, DirectConnection.loaded.
  destruct (DirectConnection._module self) eqn:E; [|done]. by intros [= <-].
Qed.

Lemma call_tool_eq tool_name arguments self w m :
  module_of self = Some m ->
  call_tool tool_name arguments (self, w) =
    match m !! tool_name with
    | Some (Callable call) =>
        on_snd (call_keywords (Callable call) arguments) (loaded m self, w)
    | _ =>
        match m !! "call_tool" with
        | Some a => on_snd (call_positional a [JStr tool_name; arguments])
                      (loaded m self, w)
        | None => (Raise (DirectConnection.not_found tool_name (loaded m self)),
                   (loaded m self, w))
        end
    end.
Proof.
  intros Hm. unfold DirectConnection.call_tool. unfold bind at 1.
  rewrite load_module_eq, Hm. unfold bind at 1, gets. cbn [fst].
  destruct (m !! tool_name) as [[call|v]|]; try done;
    by destruct (m !! "call_tool").
Qed.

(** X6.  [DirectConnection.call_tool], once the module [m] is there: a
    callable attribute of the module with the name of the tool is called
    with the arguments as keywords, even when the module has a [call_tool]
    of its own; otherwise the attribute [call_tool] of the module is called
    with the name and the arguments; with neither, [ValueError] is raised and
    nothing is called.  When the module cannot be imported the import error
    is raised. *)
Theorem direct_call_tool_resolution (tool_name : string) (arguments : json)
    (self : DirectConnection.t) (w : World) :
  (module_of self = None ->
   call_tool tool_name arguments (self, w)
     = (Raise (OtherException "ModuleNotFoundError" (DirectConnection.module_path self)),
        (self, w))) /\
  (forall m, module_of self = Some m ->
     (forall call, m !! tool_name = Some (Callable call) ->
        call_tool tool_name arguments (self, w)
          = on_snd (call_keywords (Callable call) arguments) (loaded m self, w)) /\
     (forall a, no_callable m tool_name -> m !! "call_tool" = Some a ->
        call_tool tool_name arguments (self, w)
          = on_snd (call_positional a [JStr tool_name; arguments]) (loaded m self, w)) /\
     (no_callable m tool_name -> m !! "call_tool" = None ->
        call_tool tool_name arguments (self, w)
          = (Raise (ValueError ("Tool '" ++ tool_name ++ "' not found in module '"
                                ++ DirectConnection.module_path self ++ "'")%string),
             (loaded m self, w)))).
Proof.
  split.
  - intros Hm. unfold DirectConnection.call_tool. unfold bind at 1.
    by rewrite load_module_eq, Hm.
  - intros m Hm. rewrite (call_tool_eq _ _ _ _ _ Hm). split; [|split].
    + by intros call ->.
    + intros a Hno ->. destruct (m !! tool_name) as [[call|v]|] eqn:E; try done.
      by destruct (Hno call).
    + intros Hno ->. unfold DirectConnection.not_found. rewrite module_path_loaded.
      destruct (m !! tool_name) as [[call|v]|] eqn:E; try done.
      by destruct (Hno call).
Qed.

(** X7.  A [DirectConnection] imports its module once: after a call that
    found the module, the connection holds it, whatever the tool did; and a
    connection that holds its module does not consult the import again. *)
Theorem direct_module_loaded_once :
  (forall tool_name arguments self w m,
     module_of self = Some m ->
     DirectConnection._module (call_tool tool_name arguments (self, w)).2.1 = Some m /\
     DirectConnection._module (list_tools (self, w)).2.1 = Some m) /\
  (forall (other_import : string -> option namespace) tool_name arguments self w,
     is_Some (DirectConnection._module self) ->
     DirectConnection.call_tool other_import tool_name arguments (self, w)
       = call_tool tool_name arguments (self, w) /\
     DirectConnection.list_tools other_import (self, w) = list_tools (self, w)).
Proof.
  assert (Hsnd : forall (A : Type) (m : M World A) (self : DirectConnection.t) w,
             (on_snd m (self, w)).2.1 = self).
  { intros A m self w. unfold on_snd. by destruct (m w). }
  split.
  - intros tool_name arguments self w m Hm. split.
    + rewrite (call_tool_eq _ _ _ _ _ Hm).
      destruct (m !! tool_name) as [[call|v]|]; rewrite ?Hsnd;
        try (by apply module_loaded);
        destruct (m !! "call_tool"); rewrite ?Hsnd; by apply module_loaded.
    + unfold DirectConnection.list_tools. unfold bind at 1.
      rewrite load_module_eq, Hm.
      assert (Hret : forall (mj : M World json) (s : DirectConnection.t) w0,
                 (returned_attr (on_snd mj) (s, w0)).2.1 = s).
      { intros mj s w0. unfold returned_attr, bind, on_snd, ret.
        by destruct (mj w0) as [[j| | |] w1]. }
      repeat case_match; rewrite ?Hret; by apply module_loaded.
  - intros other tool_name arguments self w [m Hm].
    assert (Hl : forall imp, DirectConnection._load_module imp (self, w)
                             = (Ret m, (self, w))).
    { intros imp. unfold DirectConnection._load_module, bind, gets. cbn [fst].
      by rewrite Hm. }
    unfold DirectConnection.call_tool, DirectConnection.list_tools.
    split;
      by rewrite (MonadFacts.bind_Ret _ _ _ _ _ (Hl other)),
           (MonadFacts.bind_Ret _ _ _ _ _ (Hl import_module)).
Qed.

(** X8.  [DirectConnection.list_tools] asks the module in a fixed order:
    [list_tools()], else [get_tools()], else the attribute [tools], which is
    returned without being called; a module with none of the three lists no
    tool, and nothing is called. *)
Theorem direct_list_tools_order (self : DirectConnection.t) (w : World) (m : namespace) :
  module_of self = Some m ->
  (forall a, m !! "list_tools" = Some a ->
     list_tools (self, w) = returned_attr (on_snd (call_positional a [])) (loaded m self, w)) /\
  (forall a, m !! "list_tools" = None -> m !! "get_tools" = Some a ->
     list_tools (self, w) = returned_attr (on_snd (call_positional a [])) (loaded m self, w)) /\
  (forall a, m !! "list_tools" = None -> m !! "get_tools" = None ->
     m !! "tools" = Some a ->
     list_tools (self, w) = (Ret a, (loaded m self, w))) /\
  (m !! "list_tools" = None -> m !! "get_tools" = None -> m !! "tools" = None ->
     list_tools (self, w) = (Ret (Data (JList [])), (loaded m self, w))).
Proof.
  intros Hm.
  assert (Hl : load (self, w) = (Ret m, (loaded m self, w)))
    by (by rewrite load_module_eq, Hm).
  unfold DirectConnection.list_tools. rewrite (MonadFacts.bind_Ret _ _ _ _ _ Hl).
  repeat split.
  - by intros a ->.
  - by intros a -> ->.
  - by intros a -> -> ->.
  - by intros -> -> ->.
Qed.

End Direct.

(** A run of X6: the module function, the dispatcher, the missing tool, the
    missing module. *)
Lemma direct_call_tool_resolution_witness :
  let conn := DirectConnection.__init__ "demo.server" None in
  let call := DirectConnection.call_tool DemoModule.import_module in
  (call "add" Demo.add_args (conn, Demo.world)).1 = Ret (JInt 3) /\
  (call "version" Demo.add_args (conn, Demo.world)).1 = Ret (JStr "dispatched version") /\
  (DirectConnection.call_tool (fun path => Some (delete "call_tool" DemoModule.server_module))
     "mul" Demo.add_args (conn, Demo.world)).1
    = Raise (ValueError "Tool 'mul' not found in module 'demo.server'") /\
  (call "add" Demo.add_args (DirectConnection.__init__ "nowhere" None, Demo.world)).1
    = Raise (OtherException "ModuleNotFoundError" "nowhere").
Proof.
  intros conn call. subst conn call. split; [|split; [|split]].
  - destruct (proj2 (direct_call_tool_resolution DemoModule.import_module "add"
                       Demo.add_args (DirectConnection.__init__ "demo.server" None)
                       Demo.world) DemoModule.server_module eq_refl) as (H1 & _).
    erewrite H1; [|vm_compute; reflexivity]. vm_compute. reflexivity.
  - destruct (proj2 (direct_call_tool_resolution DemoModule.import_module "version"
                       Demo.add_args (DirectConnection.__init__ "demo.server" None)
                       Demo.world) DemoModule.server_module eq_refl) as (_ & H2 & _).
    rewrite (H2 DemoModule.dispatcher).
    + vm_compute. reflexivity.
    + intros c Hc. vm_compute in Hc. discriminate.
    + vm_compute. reflexivity.
  - destruct (proj2 (direct_call_tool_resolution
                       (fun path => Some (delete "call_tool" DemoModule.server_module))
                       "mul" Demo.add_args (DirectConnection.__init__ "demo.server" None)
                       Demo.world) (delete "call_tool" DemoModule.server_module) eq_refl)
      as (_ & _ & H3).
    rewrite H3; [reflexivity| |vm_compute; reflexivity].
    intros c Hc. vm_compute in Hc. discriminate.
  - rewrite (proj1 (direct_call_tool_resolution DemoModule.import_module "add"
                      Demo.add_args (DirectConnection.__init__ "nowhere" None)
                      Demo.world) eq_refl). reflexivity.
Defined.

(** A run of X7: the first call imports, the second one does not. *)
Lemma direct_module_loaded_once_witness :
  let s1 := (DirectConnection.call_tool DemoModule.import_module "add" Demo.add_args
               (DirectConnection.__init__ "demo.server" None, Demo.world)).2 in
  DirectConnection._module s1.1 = Some DemoModule.server_module /\
  DirectConnection.call_tool (fun _ => None) "add" Demo.add_args (s1.1, s1.2)
    = DirectConnection.call_tool DemoModule.import_module "add" Demo.add_args (s1.1, s1.2).
Proof.
  intros s1. destruct (direct_module_loaded_once DemoModule.import_module) as [H1 H2].
  assert (Hm : DirectConnection._module s1.1 = Some DemoModule.server_module).
  { apply (H1 "add" Demo.add_args (DirectConnection.__init__ "demo.server" None)
              Demo.world DemoModule.server_module eq_refl). }
  split; [exact Hm|].
  apply (H2 (fun _ => None) "add" Demo.add_args s1.1 s1.2). rewrite Hm. eauto.
Defined.

(** A run of X8: the demo module has no [list_tools] and no [get_tools]; its
    attribute [tools] is the listing. *)
Lemma direct_list_tools_order_witness :
  DirectConnection.list_tools DemoModule.import_module
    (DirectConnection.__init__ "demo.server" None, Demo.world)
  = (Ret (Data (JList [JStr "add"])),
     (DirectConnection.loaded DemoModule.server_module
        (DirectConnection.__init__ "demo.server" None), Demo.world)).
Proof.
  destruct (direct_list_tools_order DemoModule.import_module
              (DirectConnection.__init__ "demo.server" None) Demo.world
              DemoModule.server_module eq_refl) as (_ & _ & H3 & _).
  apply H3; vm_compute; reflexivity.
Defined.

Section ServerRunnerDirect.

Context (import_module : string -> option namespace).

Local Abbreviation call_tool := (ServerRunnerDirect.call_tool import_module).
Local Abbreviation module_of := (ServerRunnerDirect.module_of import_module).
Local Abbreviation loaded := ServerRunnerDirect.loaded.






End ServerRunnerDirect.


End InProcessFacts.

(** ** More on starting, stopping and calling *)

Module LifecycleExtras.
Import OS OSFacts ChannelFacts LifecycleFacts.


Lemma script_start_eq (self : Evaluation.ScriptBasedToolCaller.t) w :
  Evaluation.ScriptBasedToolCaller.start (self, w)
    = (Raise (NameError "subprocess"), (self, w)).
Proof. reflexivity. Qed.

(** The teardown of [ScriptBasedToolCaller.stop] is that of the other
    classes as long as the wait of 5 seconds does not time out. *)
Lemma teardown_quiet handle w :
  (forall pid, handle = Some pid -> alive w pid = true -> honours_sigterm w pid = true) ->
  Evaluation.ScriptBasedToolCaller.teardown handle w = stop_process handle w.
Proof.
  intros Hq. destruct handle as [pid|]; [|done].
  unfold Evaluation.ScriptBasedToolCaller.teardown, stop_process, bind.
  rewrite poll_eq. destruct (status_of w pid) eqn:Hst; cbv beta iota zeta; [|done].
  assert (Ha : alive w pid = true) by (unfold alive; by rewrite Hst).
  pose proof (status_of_Running_lt _ _ Hst) as Hlt.
  rewrite terminate_eq, Ha, (Hq pid eq_refl Ha). cbv beta iota zeta. cbn [andb].
  unfold Evaluation.ScriptBasedToolCaller.try_except_unbound, try_catch, bind, wait, ret.
  by rewrite status_of_set_state, decide_True.
Qed.

(** On a child deaf to the signal the wait times out, and the [except]
    clause raises [NameError]. *)
Lemma teardown_deaf pid w :
  alive w pid = true -> honours_sigterm w pid = false ->
  Evaluation.ScriptBasedToolCaller.teardown (Some pid) w
    = (Raise (NameError "subprocess"),
       log (EvWait pid (Some 5%Z)) (log (EvTerminate pid) w)).
Proof.
  intros Ha Hg. assert (Hst : status_of w pid = Running).
  { unfold alive in Ha. by destruct (status_of w pid). }
  unfold Evaluation.ScriptBasedToolCaller.teardown, bind.
  rewrite poll_eq, Hst. cbv beta iota zeta. rewrite terminate_eq, Ha, Hg.
  cbv beta iota zeta. cbn [andb].
  unfold Evaluation.ScriptBasedToolCaller.try_except_unbound, bind, wait.
  by rewrite status_of_log, Hst.
Qed.

Lemma script_stop_eq (self : Evaluation.ScriptBasedToolCaller.t) w :
  (forall pid, Evaluation.ScriptBasedToolCaller._process self = Some pid ->
               alive w pid = true -> honours_sigterm w pid = true) ->
  exists w',
    Evaluation.ScriptBasedToolCaller.stop (self, w)
      = (Ret tt, (Evaluation.ScriptBasedToolCaller.set_process None self, w')) /\
    after_stop w (Evaluation.ScriptBasedToolCaller._process self) w'.
Proof.
  intros Hq.
  destruct (stop_process_spec (Evaluation.ScriptBasedToolCaller._process self) w)
    as (w' & E & Hw').
  exists w'. split; [|done].
  unfold Evaluation.ScriptBasedToolCaller.stop, bind, gets, on_snd, modify.
  cbn [fst snd]. by rewrite (teardown_quiet _ _ Hq), E.
Qed.

Lemma runner_exit_eq (self : ServerRunner.t) w :
  exists w',
    ServerRunner.run_exit (self, w) = (Ret tt, (ServerRunner.set_process None self, w')) /\
    after_stop w (ServerRunner._process self) w'.
Proof.
  destruct (stop_process_spec (ServerRunner._process self) w) as (w' & E & Hw').
  exists w'. split; [|done].
  unfold ServerRunner.run_exit, bind, gets, on_snd, modify. cbn [fst snd]. by rewrite E.
Qed.




Lemma after_stop_None w w' : after_stop w None w' -> w' = w.
Proof. done. Qed.

(** X11.  After [stop], a second [stop] changes nothing.  [ToolCaller] then
    refuses [call_tool] and [list_tools] with [RuntimeError] and touches
    nothing, while a [StdioConnection] is ready to start a child again at
    its next call.  [ScriptBasedToolCaller.stop] does the same as long as it
    meets no child, a child that has exited or one that exits on the
    termination signal.  On a child that outlives the wait of 5 seconds it
    raises [NameError] (the [except] clause names [subprocess], which
    evaluation.py does not import): the child is not killed and keeps
    running, the handle is kept, and a second [stop] ends in the same way. *)
Theorem after_stop_calls :
  (forall (self : ToolCaller.t) w tool_name args,
     let s' := (ToolCaller.stop (self, w)).2 in
     ToolCaller.stop s' = (Ret tt, s') /\
     ToolCaller.call_tool tool_name args s'
       = (Raise (RuntimeError (JStr "Server not running. Call start() first.")), s') /\
     ToolCaller.list_tools s'
       = (Raise (RuntimeError (JStr "Server not running. Call start() first.")), s')) /\
  (forall (self : Evaluation.ScriptBasedToolCaller.t) w tool_name args,
     (forall pid, Evaluation.ScriptBasedToolCaller._process self = Some pid ->
                  alive w pid = true -> honours_sigterm w pid = true) ->
     let s' := (Evaluation.ScriptBasedToolCaller.stop (self, w)).2 in
     (Evaluation.ScriptBasedToolCaller.stop (self, w)).1 = Ret tt /\
     Evaluation.ScriptBasedToolCaller._process s'.1 = None /\
     Evaluation.ScriptBasedToolCaller.stop s' = (Ret tt, s') /\
     Evaluation.ScriptBasedToolCaller.call_tool tool_name args s'
       = (Raise (RuntimeError (JStr "Server not running")), s') /\
     Evaluation.ScriptBasedToolCaller.list_tools s'
       = (Raise (RuntimeError (JStr "Server not running")), s')) /\
  (forall (self : Evaluation.ScriptBasedToolCaller.t) w pid,
     Evaluation.ScriptBasedToolCaller._process self = Some pid ->
     alive w pid = true -> honours_sigterm w pid = false ->
     exists w',
       Evaluation.ScriptBasedToolCaller.stop (self, w)
         = (Raise (NameError "subprocess"), (self, w')) /\
       trace w' = trace w ++ [EvTerminate pid; EvWait pid (Some 5%Z)] /\
       alive w' pid = true /\
       (Evaluation.ScriptBasedToolCaller.stop (self, w')).1
         = Raise (NameError "subprocess")) /\
  (forall (self : StdioConnection.t) w,
     let s' := (StdioConnection.stop (self, w)).2 in
     StdioConnection.stop s' = (Ret tt, s') /\
     Channel.needs_start s'.1 s'.2 = true).
Proof.
  split; [|split; [|split]].
  - intros self w tool_name args.
    destruct (tool_caller_stop_eq self w) as (w' & -> & _). cbn [snd].
    split; [|done].
    destruct (tool_caller_stop_eq (ToolCaller.set_process None self) w') as (w2 & -> & Hw2).
    by rewrite (after_stop_None _ _ Hw2).
  - intros self w tool_name args Hq.
    destruct (script_stop_eq self w Hq) as (w' & -> & _). cbn [fst snd].
    split; [done|]. split; [done|]. split; [|done].
    destruct (script_stop_eq (Evaluation.ScriptBasedToolCaller.set_process None self) w')
      as (w2 & -> & Hw2); [done|].
    by rewrite (after_stop_None _ _ Hw2).
  - intros self w pid Hh Ha Hg.
    set (w' := log (EvWait pid (Some 5%Z)) (log (EvTerminate pid) w)).
    assert (Ha' : alive w' pid = true) by (subst w'; by rewrite !alive_log).
    assert (Hg' : honours_sigterm w' pid = false) by exact Hg.
    assert (Hstop : forall w0, alive w0 pid = true -> honours_sigterm w0 pid = false ->
              Evaluation.ScriptBasedToolCaller.stop (self, w0)
              = (Raise (NameError "subprocess"),
                 (self, log (EvWait pid (Some 5%Z)) (log (EvTerminate pid) w0)))).
    { intros w0 Ha0 Hg0.
      unfold Evaluation.ScriptBasedToolCaller.stop, bind, gets, on_snd. cbn [fst snd].
      by rewrite Hh, (teardown_deaf _ _ Ha0 Hg0). }
    exists w'. split; [by apply Hstop|]. split.
    { subst w'. cbn [trace log]. by rewrite <- app_assoc. }
    split; [exact Ha'|]. by rewrite (Hstop w' Ha' Hg').
  - intros self w. destruct (stop_eq self w) as (w' & -> & _). cbn [snd fst].
    split; [|done].
    destruct (stop_eq (StdioConnection.set_process None self) w') as (w2 & -> & Hw2).
    by rewrite (after_stop_None _ _ Hw2).
Qed.

(** A run of X11: a [ScriptBasedToolCaller] that holds the handle of a child
    deaf to the termination signal. *)
Lemma after_stop_calls_witness :
  let w := (ToolCaller.start (ToolCaller.__init__ "stubborn" None, Demo.world)).2.2 in
  let self := Evaluation.ScriptBasedToolCaller.set_process (Some 0)
                (Evaluation.ScriptBasedToolCaller.__init__ "stubborn" None None) in
  exists w',
    Evaluation.ScriptBasedToolCaller.stop (self, w)
      = (Raise (NameError "subprocess"), (self, w')) /\
    trace w' = [EvPopen 0; EvTerminate 0; EvWait 0 (Some 5%Z)] /\
    alive w' 0 = true.
Proof.
  intros w self.
  destruct (proj1 (proj2 (proj2 after_stop_calls)) self w 0 eq_refl)
    as (w' & E & Ht & Ha & _); [vm_compute; reflexivity ..|].
  exists w'. split; [exact E|]. split; [rewrite Ht; reflexivity | exact Ha].
Defined.

(** X12.  [with self.run() as process: body]: the process is started before
    the body, and the [finally] block runs whether the body returns or
    raises: it stops the process whose handle the runner then holds and
    clears the handle, and the outcome of the body is the outcome of the
    whole.  When the process cannot be started the body does not run and the
    error of [Popen] is raised. *)
Theorem with_run_tears_down {A} (body : nat -> M (ServerRunner.t * World) A)
    (self : ServerRunner.t) (w : World) :
  let av := ServerRunner.command self :: ServerRunner.args self in
  let env := merged_env (ServerRunner.env self) w in
  (exec w av env (ServerRunner.working_dir self) = None ->
   exists w',
     ServerRunner.with_run body (self, w)
       = (Raise (OSError "Popen"), (ServerRunner.set_process None self, w')) /\
     after_stop w (ServerRunner._process self) w') /\
  (forall pr r s2,
     exec w av env (ServerRunner.working_dir self) = Some pr ->
     body (length (procs w))
          (ServerRunner.set_process (Some (length (procs w))) self,
           spawn av env (ServerRunner.working_dir self) pr w) = (r, s2) ->
     match r with
     | Ret _ | Raise _ =>
         exists w',
           ServerRunner.with_run body (self, w)
             = (r, (ServerRunner.set_process None s2.1, w')) /\
           after_stop s2.2 (ServerRunner._process s2.1) w'
     | _ => ServerRunner.with_run body (self, w) = (r, s2)
     end).
Proof.
  intros av env. subst av env. split.
  - intros Hexec. destruct (runner_exit_eq self w) as (w' & Ee & Hw').
    exists w'. split; [|done].
    unfold ServerRunner.with_run, try_finally.
    unfold bind at 1. unfold ServerRunner.run_enter, bind, gets, on_snd, Popen.
    cbn [fst snd]. rewrite Hexec. by rewrite Ee.
  - intros pr r [self2 w2] Hexec Hb.
    assert (Hin : bind ServerRunner.run_enter (fun pid => body pid) (self, w) = (r, (self2, w2))).
    { unfold bind at 1. unfold ServerRunner.run_enter, bind, gets, on_snd, modify, ret, Popen.
      cbn [fst snd]. rewrite Hexec. exact Hb. }
    unfold ServerRunner.with_run, try_finally. rewrite Hin.
    destruct (runner_exit_eq self2 w2) as (w' & Ee & Hw').
    destruct r; try done; rewrite Ee; eauto.
Qed.

(** A run of X12: a body that calls a tool, and a body that raises. *)
Lemma with_run_tears_down_witness :
  let runner := ServerRunner.__init__ "stubborn" None None None in
  (exists w',
     ServerRunner.with_run (fun _ => ServerRunner.send_tool_call "add" Demo.add_args)
       (runner, Demo.world)
     = (Ret (JDict [("result", JInt 3)]), (ServerRunner.set_process None runner, w')) /\
     alive w' 0 = false) /\
  (exists w',
     ServerRunner.with_run (A:=unit) (fun _ => raise KeyboardInterrupt) (runner, Demo.world)
     = (Raise KeyboardInterrupt, (ServerRunner.set_process None runner, w')) /\
     alive w' 0 = false).
Proof.
  intros runner. split.
  - destruct (with_run_tears_down
                (fun _ => ServerRunner.send_tool_call "add" Demo.add_args)
                runner Demo.world) as [_ H].
    specialize (H Demo.stubborn (Ret (JDict [("result", JInt 3)]))
                  (ServerRunner.send_tool_call "add" Demo.add_args
                     (ServerRunner.set_process (Some 0) runner,
                      spawn ["stubborn"] (merged_env ∅ Demo.world) None Demo.stubborn
                        Demo.world)).2 eq_refl).
    destruct H as (w' & E & Hw'); [vm_compute; reflexivity|].
    exists w'. split; [exact E|]. exact (proj1 Hw').
  - destruct (with_run_tears_down (A:=unit) (fun _ => raise KeyboardInterrupt)
                runner Demo.world) as [_ H].
    specialize (H Demo.stubborn (Raise KeyboardInterrupt)
                  (ServerRunner.set_process (Some 0) runner,
                   spawn ["stubborn"] (merged_env ∅ Demo.world) None Demo.stubborn
                     Demo.world) eq_refl eq_refl).
    destruct H as (w' & E & Hw'). exists w'. split; [exact E|]. exact (proj1 Hw').
Defined.

(** X13.  [ToolCaller], [ScriptBasedToolCaller] and [ServerRunner] test
    their handle for presence only.  With a handle whose child has exited
    they start nothing: the write meets a closed pipe, the call raises
    [BrokenPipeError], and the caller and the processes are as before. *)
Theorem exited_child_is_not_restarted (w : World) (pid : nat) :
  alive w pid = false ->
  (forall (self : ToolCaller.t) tool_name args,
     ToolCaller._process self = Some pid ->
     ToolCaller.call_tool tool_name args (self, w) = (Raise BrokenPipeError, (self, w)) /\
     ToolCaller.list_tools (self, w) = (Raise BrokenPipeError, (self, w))) /\
  (forall (self : Evaluation.ScriptBasedToolCaller.t) tool_name args,
     Evaluation.ScriptBasedToolCaller._process self = Some pid ->
     Evaluation.ScriptBasedToolCaller.call_tool tool_name args (self, w)
       = (Raise BrokenPipeError, (self, w)) /\
     Evaluation.ScriptBasedToolCaller.list_tools (self, w)
       = (Raise BrokenPipeError, (self, w))) /\
  (forall (self : ServerRunner.t) tool_name args,
     ServerRunner._process self = Some pid ->
     ServerRunner.send_tool_call tool_name args (self, w)
       = (Raise BrokenPipeError, (self, w)) /\
     ServerRunnerTools.get_tools (self, w) = (Raise BrokenPipeError, (self, w))).
Proof.
  intros Ha.
  assert (Hw : forall request, write_line pid request w = (Raise BrokenPipeError, w)).
  { intros request. unfold write_line. unfold alive in Ha.
    by destruct (status_of w pid). }
  split; [|split]; intros self tool_name args Hh.
  - unfold ToolCaller.call_tool, ToolCaller.list_tools, ToolCaller.exchange,
      bind, gets, on_snd. cbn [fst snd]. rewrite Hh. cbv beta iota zeta.
    by rewrite !Hw.
  - unfold Evaluation.ScriptBasedToolCaller.call_tool,
      Evaluation.ScriptBasedToolCaller.list_tools,
      Evaluation.ScriptBasedToolCaller.exchange, bind, gets, on_snd.
    cbn [fst snd]. rewrite Hh. cbv beta iota zeta. by rewrite !Hw.
  - unfold ServerRunner.send_tool_call, ServerRunnerTools.get_tools, bind, gets, on_snd.
    cbn [fst snd]. rewrite Hh. cbv beta iota zeta. by rewrite !Hw.
Qed.

(** A run of X13: the adder has exited behind the back of its caller. *)
Lemma exited_child_is_not_restarted_witness :
  let s1 := (ToolCaller.start (ToolCaller.__init__ "adder" None, Demo.world)).2 in
  let w := Channel.child_exits 0 1 s1.2 in
  alive w 0 = false /\
  ToolCaller.call_tool "add" Demo.add_args (s1.1, w) = (Raise BrokenPipeError, (s1.1, w)).
Proof.
  intros s1 w.
  assert (Ha : alive w 0 = false) by (vm_compute; reflexivity).
  split; [exact Ha|].
  apply (proj1 (exited_child_is_not_restarted w 0 Ha) s1.1 "add" Demo.add_args).
  vm_compute; reflexivity.
Defined.



Lemma exchanged_frame pid request w p :
  procs w !! pid = Some p ->
  trace (exchanged pid request w) = trace w ++ [EvWrite pid request; EvReadline pid] /\
  procs (exchanged pid request w) !! pid = Some (push_stdin request p) /\
  (forall pid', pid <> pid' -> procs (exchanged pid request w) !! pid' = procs w !! pid') /\
  length (procs (exchanged pid request w)) = length (procs w).
Proof.
  intros Ep. unfold exchanged. cbn [trace procs log].
  rewrite trace_update_proc, <- app_assoc. split; [done|].
  split; [by apply lookup_update_proc|].
  split; [intros; by apply lookup_update_proc_ne | apply length_update_proc].
Qed.

Lemma runner_get_tools_live (self : ServerRunner.t) w pid p :
  ServerRunner._process self = Some pid ->
  procs w !! pid = Some p -> state p = Running ->
  ServerRunnerTools.get_tools (self, w) =
    (loads (reply (prog p) (stdin_log p ++ [list_tools_request])),
     (self, exchanged pid list_tools_request w)).
Proof.
  intros Hh Ep Es.
  pose proof (write_then_read pid list_tools_request w p Ep Es) as E.
  unfold ServerRunnerTools.get_tools, bind, gets, on_snd in *. cbn [fst snd].
  rewrite Hh. cbv beta iota zeta.
  destruct (write_line pid _ w) as [[[]| | |] w1]; cbv beta iota zeta in *;
    try (injection E as <- <-; done).
  destruct (read_json pid w1). by injection E as <- <-.
Qed.

(** X20.  A listing of the tools over the pipe of a running child, by
    [ToolCaller], [ScriptBasedToolCaller] or [ServerRunner]: one line, the
    request [{"action": "list_tools"}], is written to that child and one
    line is read back; the caller and every other process stay as they are,
    and no process is started.  The call returns what the line decodes to,
    raises [JSONDecodeError] when it does not decode, and does not return
    while the child is silent. *)
Theorem listing_is_one_request_one_line (w : World) (pid : nat) (p : process) :
  procs w !! pid = Some p -> state p = Running ->
  let w' := exchanged pid list_tools_request w in
  let answer := reply (prog p) (stdin_log p ++ [list_tools_request]) in
  let outcome := match answer with
                 | Value j => Ret j
                 | Undecodable => Raise JSONDecodeError
                 | Silent => Hang
                 end in
  (trace w' = trace w ++ [EvWrite pid list_tools_request; EvReadline pid] /\
   procs w' !! pid = Some (push_stdin list_tools_request p) /\
   (forall pid', pid <> pid' -> procs w' !! pid' = procs w !! pid') /\
   length (procs w') = length (procs w)) /\
  (forall self : ToolCaller.t, ToolCaller._process self = Some pid ->
     ToolCaller.list_tools (self, w) = (outcome, (self, w'))) /\
  (forall self : Evaluation.ScriptBasedToolCaller.t,
     Evaluation.ScriptBasedToolCaller._process self = Some pid ->
     Evaluation.ScriptBasedToolCaller.list_tools (self, w) = (outcome, (self, w'))) /\
  (forall self : ServerRunner.t, ServerRunner._process self = Some pid ->
     ServerRunnerTools.get_tools (self, w) = (outcome, (self, w'))).
Proof.
  intros Ep Es w' answer outcome.
  assert (Ho : outcome = loads answer) by (subst outcome; by destruct answer).
  rewrite Ho. subst w' answer. clear Ho outcome.
  split; [by apply exchanged_frame|]. split; [|split]; intros self Hh.
  - unfold ToolCaller.list_tools. by apply tool_caller_exchange_live.
  - unfold Evaluation.ScriptBasedToolCaller.list_tools. by apply script_exchange_live.
  - by apply runner_get_tools_live.
Qed.

(** A run of X20: the adder lists its one tool. *)
Lemma listing_is_one_request_one_line_witness :
  let s1 := (ToolCaller.start (ToolCaller.__init__ "adder" None, Demo.world)).2 in
  let out := ToolCaller.list_tools (s1.1, s1.2) in
  out.1 = Ret (JList [JDict [("name", JStr "add")]]) /\
  out.2.1 = s1.1 /\
  trace out.2.2 = [EvPopen 0; EvWrite 0 list_tools_request; EvReadline 0].
Proof.
  intros s1 out.
  pose (p := {| argv := ["adder"]; environ := os_environ Demo.world; cwd := None;
                prog := Demo.adder; state := Running; stdin_log := [] |}).
  assert (Ep : procs s1.2 !! 0 = Some p) by (vm_compute; reflexivity).
  destruct (listing_is_one_request_one_line s1.2 0 p Ep eq_refl)
    as ((Ht & _) & Htc & _).
  subst out. rewrite (Htc s1.1) by (vm_compute; reflexivity). cbn [fst snd].
  split; [reflexivity|]. split; [reflexivity|]. rewrite Ht. reflexivity.
Defined.

(** X21.  The evaluation over a command cannot begin.  [main] makes a
    [ScriptBasedToolCaller] and calls [start] inside its [try] statement;
    [start] raises [NameError], since evaluation.py does not import
    [subprocess]; the body is not run, the [finally] block finds no process
    to stop, and the error leaves [main] with no process started.  A caller
    used without [start] refuses to list its tools. *)
Theorem script_caller_never_starts {A}
    (body : M (Evaluation.ScriptBasedToolCaller.t * World) A)
    (command : string) (args : option (list string))
    (env : option (gmap string string)) (w : World) :
  let self := Evaluation.ScriptBasedToolCaller.__init__ command args env in
  (forall (self0 : Evaluation.ScriptBasedToolCaller.t) w0,
     Evaluation.ScriptBasedToolCaller.start (self0, w0)
       = (Raise (NameError "subprocess"), (self0, w0))) /\
  Evaluation.ScriptBasedToolCaller.main_try body (self, w)
    = (Raise (NameError "subprocess"), (self, w)) /\
  Evaluation.ScriptBasedToolCaller.list_tools (self, w)
    = (Raise (RuntimeError (JStr "Server not running")), (self, w)).
Proof.
  intros self. split; [intros; apply script_start_eq|]. split; [|done].
  unfold Evaluation.ScriptBasedToolCaller.main_try, try_finally.
  unfold bind at 1. rewrite script_start_eq. reflexivity.
Qed.

End LifecycleExtras.

(** ** The evaluation as a whole *)

Module EvaluationExtras.
Import OS Evaluation MonadFacts AgentLoopFacts ReportFacts.

Lemma sum_durations_empty : sum_durations ∅ = 0.
Proof. unfold sum_durations. apply map_fold_empty. Qed.

Section Run.

Context (json_dumps : json -> string) (str : json -> string)
        (str_exn : exn -> string) (format_exc : exn -> string).
Context (fsum : list float -> float).
Context {T : Type} `{ConnectionBase T}.

Local Abbreviation loop_body := (loop_body json_dumps str str_exn format_exc).
Local Abbreviation while_tool_use := (while_tool_use json_dumps str str_exn format_exc).
Local Abbreviation agent_loop := (agent_loop json_dumps str str_exn format_exc).
Local Abbreviation evaluate_single_task :=
  (evaluate_single_task json_dumps str str_exn format_exc).
Local Abbreviation evaluate_all := (evaluate_all json_dumps str str_exn format_exc).
Local Abbreviation run_evaluation :=
  (run_evaluation json_dumps str str_exn format_exc fsum).






(** The requests to the engine, counted along the loop. *)
Lemma loop_body_counts st s st' s' :
  loop_body st s = (Ret st', s') ->
  engine_calls s'.2 = S (engine_calls s.2) /\
  sum_durations (tool_metrics st') = S (sum_durations (tool_metrics st)).
Proof.
  destruct s as [[tc w] c]. intros Hb.
  apply loop_body_Ret in Hb as (id & name & input & text & tc1 & w1 & _ & _ & _ & -> & ->).
  split; [done|]. apply record_call_sum.
Qed.

Lemma agent_loop_counts fuel question s text tm s' :
  agent_loop fuel question s = (Ret (text, tm), s') ->
  engine_calls s'.2 = engine_calls s.2 + 1 + sum_durations tm /\
  engine s'.2 = engine s.2.
Proof.
  unfold Evaluation.agent_loop.
  intros (st0 & s0 & Hi & Hrest)%bind_Ret_inv.
  apply bind_Ret_inv in Hrest as (st1 & s1 & Hw & [= _ <- <-]).
  assert (H0 : engine_calls s0.2 = engine_calls s.2 + 1 + sum_durations (tool_metrics st0)
               /\ engine s0.2 = engine s.2).
  { destruct s as [[tc w] c]. revert Hi.
    unfold loop_init, bind, on_client, on_snd, messages_create, ret. cbv beta iota zeta.
    destruct (engine c (engine_calls c) _); try done. intros [= <- <-].
    cbn [tool_metrics snd engine_calls engine]. rewrite sum_durations_empty.
    split; [lia|done]. }
  split.
  - apply (while_invariant json_dumps str str_exn format_exc
             (fun st s2 => engine_calls s2.2
                           = engine_calls s.2 + 1 + sum_durations (tool_metrics st)))
      in Hw; [done| |apply H0].
    intros st s2 st' s2' Hb HP. apply loop_body_counts in Hb as [-> ->]. lia.
  - rewrite (while_engine _ _ _ _ _ _ _ _ _ Hw). apply H0.
Qed.

Lemma evaluate_single_task_counts fuel qa_pair s r s' :
  evaluate_single_task fuel qa_pair s = (Ret r, s') ->
  question r = qa_pair.1 /\ expected r = qa_pair.2 /\
  engine_calls s'.2 = engine_calls s.2 + 1 + num_tool_calls r /\
  engine s'.2 = engine s.2.
Proof.
  destruct s as [[tc w] c]. unfold Evaluation.evaluate_single_task.
  unfold bind at 1. unfold on_os, on_fst, on_snd, time. cbv beta iota zeta.
  intros ([[text|] tm] & [[tc1 w1] c1] & Ha & Hrest)%bind_Ret_inv; [|done].
  revert Hrest. unfold bind, ret. cbv beta iota zeta. intros [= <- <-].
  apply agent_loop_counts in Ha as [Hn He]. by repeat split.
Qed.

Lemma evaluate_all_counts fuel qa_pairs : forall s rs s',
  evaluate_all fuel qa_pairs s = (Ret rs, s') ->
  map question rs = map fst qa_pairs /\ map expected rs = map snd qa_pairs /\
  engine_calls s'.2
    = engine_calls s.2 + length qa_pairs + sum_nat (map num_tool_calls rs) /\
  engine s'.2 = engine s.2.
Proof.
  induction qa_pairs as [|qa_pair rest IH]; intros s rs s'.
  - intros [= <- <-]. cbn. repeat split; lia.
  - cbn [Evaluation.evaluate_all].
    intros (r & s1 & Hr & Hrest)%bind_Ret_inv.
    apply bind_Ret_inv in Hrest as (rs' & s2 & Hall & [= <- <-]).
    apply evaluate_single_task_counts in Hr as (Hq & Hx & Hn & He).
    apply IH in Hall as (Hqs & Hxs & Hns & Hes).
    cbn [map length sum_nat fold_right]. fold (sum_nat (map num_tool_calls rs')).
    rewrite Hq, Hx, Hqs, Hxs, Hns, Hn, Hes, He. repeat split; lia.
Qed.

Lemma aggregate_fields {S} (rs : list task_result) (s : S) :
  exists rep, aggregate fsum rs s = (Ret rep, s) /\
    results rep = rs /\ total rep = length rs /\
    total_tool_calls rep = sum_nat (map num_tool_calls rs).
Proof.
  destruct rs as [|r rs].
  - eexists. split; [reflexivity|]. by repeat split.
  - eexists. split; [apply aggregate_nonempty|]. by repeat split.
Qed.

(** X16.  [agent_loop] asks the engine once before the loop and once at the
    end of every pass, and every pass records one tool call: when it
    returns, the number of requests the engine has answered has grown by
    one more than the number of recorded tool calls.  The same holds of
    [evaluate_single_task] and the [num_tool_calls] of its result. *)
Theorem engine_asked_once_per_tool_call :
  (forall fuel question s text tm s',
     agent_loop fuel question s = (Ret (text, tm), s') ->
     engine_calls s'.2 = engine_calls s.2 + 1 + sum_durations tm) /\
  (forall fuel qa_pair s r s',
     evaluate_single_task fuel qa_pair s = (Ret r, s') ->
     engine_calls s'.2 = engine_calls s.2 + 1 + num_tool_calls r).
Proof.
  split.
  - intros fuel question s text tm s' Ha. by apply agent_loop_counts in Ha as [? _].
  - intros fuel qa_pair s r s' He.
    by apply evaluate_single_task_counts in He as (_ & _ & ? & _).
Qed.

(** X17.  A finished evaluation reports the tasks in the order of the file,
    one result per pair with its question and expected answer, and its
    figures add up: the engine has answered one request per task and one
    per tool call the report counts. *)
Theorem run_evaluation_accounts fuel qa_pairs s rep s' :
  run_evaluation fuel qa_pairs s = (Ret rep, s') ->
  total rep = length qa_pairs /\
  map question (results rep) = map fst qa_pairs /\
  map expected (results rep) = map snd qa_pairs /\
  total_tool_calls rep = sum_nat (map num_tool_calls (results rep)) /\
  engine_calls s'.2 = engine_calls s.2 + total rep + total_tool_calls rep.
Proof.
  destruct s as [[tc w] c]. unfold Evaluation.run_evaluation.
  intros (tools & s1 & Hl & Hrest)%bind_Ret_inv.
  apply bind_Ret_inv in Hrest as (rs & s2 & Hall & Hagg).
  destruct (aggregate_fields rs s2) as (rep' & E & Hres & Htot & Httc).
  rewrite E in Hagg. injection Hagg as <- <-.
  apply evaluate_all_counts in Hall as (Hqs & Hxs & Hns & _).
  assert (Hc : engine_calls s1.2 = engine_calls c).
  { revert Hl. unfold on_tool_caller, on_fst. cbn [fst snd].
    destruct (list_tools (tc, w)) as [[]]; try done. by intros [= _ <-]. }
  rewrite Hres, Htot, Httc. rewrite <- (length_map question), Hqs, length_map.
  repeat split; try done. cbn [snd]. lia.
Qed.


End Run.

Abbreviation demo_run_evaluation :=
  (run_evaluation Demo.json_dumps Demo.str Demo.str_exn Demo.format_exc
     (T := StdioConnection.t) running_sum).


(** A run of X16: the task of the demo, two requests and one tool call. *)
Lemma engine_asked_once_per_tool_call_witness :
  let s := (Demo.stdio_0, Demo.client) in
  let out := demo_agent_loop 5 "What is 1+2?" s in
  engine_calls out.2.2 = 0 + 1 + sum_durations (Demo.returned (None, ∅) out.1).2 /\
  engine_calls out.2.2 = 2.
Proof.
  intros s out. split; [|vm_compute; reflexivity].
  apply (proj1 (engine_asked_once_per_tool_call Demo.json_dumps Demo.str Demo.str_exn
                  Demo.format_exc (T := StdioConnection.t))
           5 "What is 1+2?" s (Demo.returned (None, ∅) out.1).1
           (Demo.returned (None, ∅) out.1).2 out.2).
  vm_compute. reflexivity.
Defined.

(** A run of X17: two tasks, the first with one tool call. *)
Lemma run_evaluation_accounts_witness :
  let s := (Demo.stdio_0, Demo.client) in
  let out := demo_run_evaluation 5 [("What is 1+2?", "3"); ("And 2+1?", "4")] s in
  exists rep,
    out.1 = Ret rep /\
    total rep = 2 /\
    map question (results rep) = ["What is 1+2?"; "And 2+1?"] /\
    total_tool_calls rep = 1 /\
    engine_calls out.2.2 = 0 + total rep + total_tool_calls rep.
Proof.
  intros s out.
  pose (d := {| correct := 0; total := 0; accuracy := 0; average_duration_s := 0;
                average_tool_calls := 0; total_tool_calls := 0; results := [] |}).
  assert (E : demo_run_evaluation 5 [("What is 1+2?", "3"); ("And 2+1?", "4")] s
              = (Ret (Demo.returned d out.1), out.2)) by (vm_compute; reflexivity).
  destruct (run_evaluation_accounts Demo.json_dumps Demo.str Demo.str_exn Demo.format_exc
              running_sum 5 [("What is 1+2?", "3"); ("And 2+1?", "4")] s _ _ E)
    as (Ht & Hq & _ & _ & Hn).
  exists (Demo.returned d out.1). split; [vm_compute; reflexivity|].
  split; [exact Ht|]. split; [exact Hq|]. split; [vm_compute; reflexivity|exact Hn].
Defined.


End EvaluationExtras.

(** ** What extraction hands to the score *)

Module StripExtras.
Import Text TextFacts Re Evaluation ExtractFacts.

Lemma lstrip_idem s : lstrip (lstrip s) = lstrip s.
Proof.
  induction s as [|c s IH]; [done|]. simpl.
  destruct (is_space c) eqn:E; [done|]. simpl. by rewrite E.
Qed.

Lemma lstrip_head s :
  lstrip s = [] \/ exists c t, lstrip s = c :: t /\ is_space c = false.
Proof.
  induction s as [|c s IH]; [by left|]. simpl.
  destruct (is_space c) eqn:E; [done|]. right. eauto.
Qed.

Lemma lstrip_keeps_last c s :
  is_space c = false -> exists u, lstrip (s ++ [c]) = u ++ [c].
Proof.
  intros Hc. induction s as [|x s IH]; simpl.
  - rewrite Hc. by exists [].
  - destruct (is_space x); [done|]. by exists (x :: s).
Qed.

Lemma lstrip_nonspace c t : is_space c = false -> lstrip (c :: t) = c :: t.
Proof. intros Hc. simpl. by rewrite Hc. Qed.

Lemma rstrip_idem s : rstrip (rstrip s) = rstrip s.
Proof. unfold rstrip. by rewrite rev_involutive, lstrip_idem. Qed.

Lemma lstrip_strip_chars s : lstrip (strip_chars s) = strip_chars s.
Proof.
  unfold strip_chars. destruct (lstrip_head s) as [->|(c & t & -> & Hc)]; [done|].
  unfold rstrip. cbn [rev].
  destruct (lstrip_keeps_last c (rev t) Hc) as (u & ->).
  rewrite rev_app_distr. cbn [rev app]. by apply lstrip_nonspace.
Qed.

Lemma strip_chars_idem s : strip_chars (strip_chars s) = strip_chars s.
Proof.
  unfold strip_chars at 1. rewrite lstrip_strip_chars.
  unfold strip_chars. apply rstrip_idem.
Qed.

(** X19.  [strip] changes nothing when applied a second time, and what
    [extract_xml_content] returns went through it: an extracted value has no
    white space at either end.  The score compares it with the expected
    answer as it is given, so an expected answer with white space at an end
    scores 0 whatever the engine answered. *)
Theorem extracted_value_is_stripped :
  (forall s, strip (strip s) = strip s) /\
  (forall text tag v, extract_xml_content text tag = Some (Some v) -> strip v = v) /\
  (forall (qa_pair : string * string) text tm d,
     strip qa_pair.2 <> qa_pair.2 -> score (make_task_result qa_pair text tm d) = 0%Z).
Proof.
  assert (Hidem : forall s, strip (strip s) = strip s).
  { intros s. unfold strip. by rewrite of_to_string, strip_chars_idem. }
  assert (Hex : forall text tag v,
             extract_xml_content text tag = Some (Some v) -> strip v = v).
  { intros text tag v. unfold extract_xml_content.
    destruct (compile_tag tag) as [p|]; [|done].
    destruct (last _) as [m|]; [|done]. intros [= <-].
    unfold strip. by rewrite of_to_string, strip_chars_idem. }
  split; [exact Hidem|]. split; [exact Hex|].
  intros qa_pair text tm d Hne. cbn [score make_task_result].
  destruct (extract_xml_content text "response") as [[v|]|] eqn:E;
    cbn [default from_option id]; try done.
  unfold compute_score. case_bool_decide; [done|]. case_bool_decide; [|done].
  subst v. exfalso. apply Hne. by eapply Hex.
Qed.

(** A run of X19 on an answer given with a leading blank. *)
Lemma extracted_value_is_stripped_witness :
  extract_xml_content "<response> 42 </response>" "response" = Some (Some "42") /\
  strip "42" = "42" /\
  score (make_task_result ("q", " 42") "<response> 42 </response>" ∅ 0) = 0%Z.
Proof.
  destruct extracted_value_is_stripped as (_ & Hex & Hsc).
  split; [reflexivity|]. split.
  - apply (Hex "<response> 42 </response>" "response"). reflexivity.
  - apply Hsc. vm_compute. discriminate.
Defined.

End StripExtras.
